(** * chrono24-scraper: the crawl-and-extract pipeline of [scraper.py]

    A shallow embedding of the pure and the stateful parts of [scraper.py]
    (pagination URLs, URL absolutization, the rate controller, the progress
    and dataset stores, specification-table parsing and the brand
    orchestrator), followed by the properties the specification states
    about them.

    Conventions of the embedding:
    - Python [str] is [string], the UTF-8 bytes of the text; [str.strip]
      knows the white space of all of Unicode, [str.lower] and the URL
      functions are modelled on ASCII letters and on ASCII URLs;
    - Python [int] is [Z]; [float] seconds are exact rationals [Q];
    - a function that can raise returns [option] (or a result type that
      names the exception path); the one check of [urllib.parse] that
      depends on the address library, the validation of a bracketed host,
      is a parameter ([urllib.NetlocCheck]);
    - the browser session is an abstract state machine ([Browser]); the
      two JSON files are explicit components of the run state. *)

From Stdlib Require Import ZArith QArith Qminmax Lqa Lia Bool List.
From Stdlib Require Import Ascii String DecimalString DecimalZ.
From stdpp Require Import base option list gmap strings.

Local Open Scope string_scope.

(** ** Python string primitives *)

Module Py.

Fixpoint contains_char (c : ascii) (s : string) : bool :=
  match s with
  | EmptyString => false
  | String d r => Ascii.eqb c d || contains_char c r
  end.

Fixpoint forall_chars (p : ascii -> bool) (s : string) : bool :=
  match s with
  | EmptyString => true
  | String d r => p d && forall_chars p r
  end.

Fixpoint map_chars (f : ascii -> ascii) (s : string) : string :=
  match s with
  | EmptyString => EmptyString
  | String d r => String (f d) (map_chars f r)
  end.

Fixpoint filter_chars (p : ascii -> bool) (s : string) : string :=
  match s with
  | EmptyString => EmptyString
  | String d r => if p d then String d (filter_chars p r) else filter_chars p r
  end.

Definition nonempty (s : string) : bool := negb (String.eqb s "").

(** [s.startswith(p)] and [s.endswith(p)] *)
Definition startswith (s p : string) : bool := String.prefix p s.

Fixpoint endswith (s suf : string) : bool :=
  String.eqb s suf ||
  match s with
  | EmptyString => false
  | String _ r => endswith r suf
  end.

(** [s[:n]] and [s[:-n]] (for [n > 0]) *)
Fixpoint take (n : nat) (s : string) : string :=
  match n, s with
  | S m, String c r => String c (take m r)
  | _, _ => EmptyString
  end.

Definition drop_last (n : nat) (s : string) : string :=
  take (String.length s - n) s.

(** [s.lstrip(cs)], [s.rstrip(cs)], [s.strip(cs)] for a character set *)
Fixpoint lstrip_by (p : ascii -> bool) (s : string) : string :=
  match s with
  | EmptyString => EmptyString
  | String c r => if p c then lstrip_by p r else s
  end.

Fixpoint rstrip_by (p : ascii -> bool) (s : string) : string :=
  match s with
  | EmptyString => EmptyString
  | String c r =>
      let r' := rstrip_by p r in
      if String.eqb r' "" && p c then EmptyString else String c r'
  end.

Definition strip_by (p : ascii -> bool) (s : string) : string :=
  rstrip_by p (lstrip_by p s).

Definition lstrip_chars (cs s : string) : string :=
  lstrip_by (fun c => contains_char c cs) s.

(** White space as [str.isspace] has it, read on the UTF-8 bytes of the
    text.  One byte: TAB LF VT FF CR, the four separators FS GS RS US,
    and the space. *)
Definition is_space (c : ascii) : bool :=
  let n := nat_of_ascii c in
  ((9 <=? n) && (n <=? 13) || (28 <=? n) && (n <=? 32))%nat.

(** Two bytes: U+0085 (C2 85) and U+00A0 (C2 A0). *)
Definition is_space2 (c d : ascii) : bool :=
  let m := nat_of_ascii c in
  let n := nat_of_ascii d in
  ((m =? 194) && ((n =? 133) || (n =? 160)))%nat.

(** Three bytes: U+1680 (E1 9A 80), U+2000 to U+200A (E2 80 80 to
    E2 80 8A), U+2028 and U+2029 (E2 80 A8, E2 80 A9), U+202F (E2 80 AF),
    U+205F (E2 81 9F) and U+3000 (E3 80 80). *)
Definition is_space3 (c d e : ascii) : bool :=
  let a := nat_of_ascii c in
  let b := nat_of_ascii d in
  let n := nat_of_ascii e in
  ((a =? 225) && (b =? 154) && (n =? 128)
   || (a =? 226) && (b =? 128)
      && ((128 <=? n) && (n <=? 138) || (n =? 168) || (n =? 169) || (n =? 175))
   || (a =? 226) && (b =? 129) && (n =? 159)
   || (a =? 227) && (b =? 128) && (n =? 128))%nat.

(** The text after its first character, when that is white space. *)
Definition space_head (s : string) : option string :=
  match s with
  | EmptyString => None
  | String c r =>
      if is_space c then Some r
      else match r with
           | EmptyString => None
           | String d r2 =>
               if is_space2 c d then Some r2
               else match r2 with
                    | EmptyString => None
                    | String e r3 => if is_space3 c d e then Some r3 else None
                    end
           end
  end.

(** [s.lstrip()] *)
Fixpoint lstrip_space (s : string) : string :=
  match s with
  | EmptyString => EmptyString
  | String c r =>
      if is_space c then lstrip_space r
      else match r with
           | EmptyString => s
           | String d r2 =>
               if is_space2 c d then lstrip_space r2
               else match r2 with
                    | EmptyString => s
                    | String e r3 =>
                        if is_space3 c d e then lstrip_space r3 else s
                    end
           end
  end.

(** [s.rstrip()]: the text is cut where only white space follows. *)
Fixpoint rstrip_space (s : string) : string :=
  match s with
  | EmptyString => EmptyString
  | String c r =>
      if String.eqb (lstrip_space s) "" then EmptyString
      else String c (rstrip_space r)
  end.

(** [s.strip()] *)
Definition strip (s : string) : string := rstrip_space (lstrip_space s).

Definition is_upper (c : ascii) : bool :=
  let n := nat_of_ascii c in ((65 <=? n) && (n <=? 90))%nat.

Definition is_lower (c : ascii) : bool :=
  let n := nat_of_ascii c in ((97 <=? n) && (n <=? 122))%nat.

Definition is_digit (c : ascii) : bool :=
  let n := nat_of_ascii c in ((48 <=? n) && (n <=? 57))%nat.

Definition is_alpha (c : ascii) : bool := is_upper c || is_lower c.

Definition lower_char (c : ascii) : ascii :=
  if is_upper c then ascii_of_nat (nat_of_ascii c + 32) else c.

(** [s.lower()] on the ASCII letters; the bytes of other characters are
    left as they are.  The scraper compares lowered text with the ASCII
    literals "basic info" and "description" only, and no character
    outside ASCII lower-cases to ASCII letters of these words (the one
    that lower-cases to ASCII at all is U+212A, to "k"), so these tests
    come out as with [str.lower]. *)
Definition lower (s : string) : string := map_chars lower_char s.

(** [s.partition(c)] on the first occurrence, [None] when [c] is absent:
    [Some (s[:i], s[i+1:])] for [i = s.find(c)]. *)
Fixpoint partition_char (c : ascii) (s : string) : option (string * string) :=
  match s with
  | EmptyString => None
  | String d r =>
      if Ascii.eqb d c then Some (EmptyString, r)
      else match partition_char c r with
           | Some (a, b) => Some (String d a, b)
           | None => None
           end
  end.

(** The same on the last occurrence: [Some (s[:i], s[i+1:])] for
    [i = s.rfind(c)]. *)
Fixpoint rpartition_char (c : ascii) (s : string) : option (string * string) :=
  match s with
  | EmptyString => None
  | String d r =>
      match rpartition_char c r with
      | Some (a, b) => Some (String d a, b)
      | None => if Ascii.eqb d c then Some (EmptyString, r) else None
      end
  end.

(** [(s[:i], s[i:])] for the first [i] whose character satisfies [p]
    (the whole string and [""] when there is none). *)
Fixpoint span_until (p : ascii -> bool) (s : string) : string * string :=
  match s with
  | EmptyString => (EmptyString, EmptyString)
  | String d r =>
      if p d then (EmptyString, s)
      else let '(a, b) := span_until p r in (String d a, b)
  end.

(** [s.split(c)] *)
Fixpoint split_char (c : ascii) (s : string) : list string :=
  match s with
  | EmptyString => [EmptyString]
  | String d r =>
      if Ascii.eqb d c then EmptyString :: split_char c r
      else match split_char c r with
           | h :: t => String d h :: t
           | [] => [String d EmptyString]
           end
  end.

(** [sep.join(l)] *)
Fixpoint join (sep : string) (l : list string) : string :=
  match l with
  | [] => EmptyString
  | [x] => x
  | x :: rest => x ++ sep ++ join sep rest
  end.

(** [needle in s] for a substring *)
Fixpoint contains (s needle : string) : bool :=
  String.prefix needle s ||
  match s with
  | EmptyString => false
  | String _ r => contains r needle
  end.

Definition mem (s : string) (l : list string) : bool :=
  existsb (String.eqb s) l.

(** [str(n)] for an [int], as an f-string formats it *)
Definition str_of_int (n : Z) : string :=
  NilZero.string_of_int (Z.to_int n).

End Py.

(** ** The URL functions of Python's [urllib.parse]

    [urlparse], [urlunparse] and [urljoin] as the standard library defines
    them, for ASCII text.  [urlsplit] raises [ValueError] on a network
    location with a lone bracket and hands one with both brackets to an
    address validator; the validator is the parameter [bracketed_netloc_ok]
    and a raise is [None]. *)

Module urllib.
Import Py.

Class NetlocCheck := bracketed_netloc_ok : string -> bool.

Definition uses_relative : list string :=
  [""; "ftp"; "http"; "gopher"; "nntp"; "imap"; "wais"; "file"; "https";
   "shttp"; "mms"; "prospero"; "rtsp"; "rtspu"; "sftp"; "svn"; "svn+ssh";
   "ws"; "wss"].

Definition uses_netloc : list string :=
  [""; "ftp"; "http"; "gopher"; "nntp"; "telnet"; "imap"; "wais"; "file";
   "mms"; "https"; "shttp"; "snews"; "prospero"; "rtsp"; "rtspu"; "rsync";
   "svn"; "svn+ssh"; "sftp"; "nfs"; "git"; "git+ssh"; "ws"; "wss"].

Definition uses_params : list string :=
  [""; "ftp"; "hdl"; "prospero"; "http"; "imap"; "https"; "shttp"; "rtsp";
   "rtspu"; "sip"; "sips"; "mms"; "sftp"; "tel"].

Definition scheme_char (c : ascii) : bool :=
  is_alpha c || is_digit c || contains_char c "+-.".

Definition is_c0_or_space (c : ascii) : bool := (nat_of_ascii c <=? 32)%nat.

Definition is_unsafe (c : ascii) : bool :=
  let n := nat_of_ascii c in ((n =? 9) || (n =? 10) || (n =? 13))%nat.

Record SplitResult := mkSplit {
  s_scheme : string; s_netloc : string; s_path : string;
  s_query : string; s_fragment : string }.

Record ParseResult := mkParse {
  scheme : string; netloc : string; path : string;
  params : string; query : string; fragment : string }.

(** The scheme test of [urlsplit]: a first colon at an index [i > 0], a
    letter first, scheme characters up to the colon. *)
Definition split_scheme (url default : string) : string * string :=
  match partition_char ":" url with
  | Some (String c0 _ as cand, rest) =>
      if is_alpha c0 && forall_chars scheme_char cand
      then (lower cand, rest) else (default, url)
  | _ => (default, url)
  end.

(** [_splitnetloc(url, 2)] under the guard [url[:2] == '//'] *)
Definition split_netloc (url : string) : string * string :=
  match url with
  | String "/" (String "/" r) =>
      span_until (fun c => contains_char c "/?#") r
  | _ => (EmptyString, url)
  end.

Definition netloc_ok `{NetlocCheck} (nl : string) : bool :=
  let o := contains_char "[" nl in
  let c := contains_char "]" nl in
  if o && c then bracketed_netloc_ok nl else negb (o || c).

Definition split_once (c : ascii) (url : string) : string * string :=
  match partition_char c url with
  | Some (a, b) => (a, b)
  | None => (url, EmptyString)
  end.

Definition urlsplit `{NetlocCheck} (url default_scheme : string)
  : option SplitResult :=
  let url := lstrip_by is_c0_or_space url in
  let default_scheme := strip_by is_c0_or_space default_scheme in
  let url := filter_chars (fun c => negb (is_unsafe c)) url in
  let default_scheme := filter_chars (fun c => negb (is_unsafe c)) default_scheme in
  let '(sch, url) := split_scheme url default_scheme in
  let '(nl, url) := split_netloc url in
  if netloc_ok nl then
    let '(url, frag) := split_once "#" url in
    let '(url, q) := split_once "?" url in
    Some (mkSplit sch nl url q frag)
  else None.

Definition _splitparams (url : string) : string * string :=
  match rpartition_char "/" url with
  | Some (head, last) =>
      match partition_char ";" last with
      | Some (a, b) => (head ++ "/" ++ a, b)
      | None => (url, EmptyString)
      end
  | None =>
      match partition_char ";" url with
      | Some (a, b) => (a, b)
      | None => (drop_last 1 url, url)
      end
  end.

Definition urlparse `{NetlocCheck} (url default_scheme : string)
  : option ParseResult :=
  match urlsplit url default_scheme with
  | None => None
  | Some r =>
      let '(p, prm) :=
        if mem (s_scheme r) uses_params && contains_char ";" (s_path r)
        then _splitparams (s_path r) else (s_path r, EmptyString) in
      Some (mkParse (s_scheme r) (s_netloc r) p prm (s_query r) (s_fragment r))
  end.

Definition urlunsplit (sch nl url q frag : string) : string :=
  let url :=
    if nonempty nl
       || (nonempty sch && mem sch uses_netloc && negb (startswith url "//"))
    then
      let url := if nonempty url && negb (startswith url "/")
                 then "/" ++ url else url in
      "//" ++ nl ++ url
    else url in
  let url := if nonempty sch then sch ++ ":" ++ url else url in
  let url := if nonempty q then url ++ "?" ++ q else url in
  if nonempty frag then url ++ "#" ++ frag else url.

Definition urlunparse (p : ParseResult) : string :=
  let url := if nonempty (params p) then path p ++ ";" ++ params p else path p in
  urlunsplit (scheme p) (netloc p) url (query p) (fragment p).

(** [segments[1:-1] = filter(None, segments[1:-1])] *)
Definition squeeze_inner (segments : list string) : list string :=
  match segments with
  | [] => []
  | h :: rest =>
      match rest with
      | [] => [h]
      | _ => h :: (List.filter nonempty (removelast rest) ++ [List.last rest EmptyString])%list
      end
  end.

(** The dot-segment loop of [urljoin]; [acc] is [resolved_path]. *)
Fixpoint resolve_dots (acc segments : list string) : list string :=
  match segments with
  | [] => acc
  | seg :: rest =>
      if String.eqb seg ".." then resolve_dots (removelast acc) rest
      else if String.eqb seg "." then resolve_dots acc rest
      else resolve_dots (acc ++ [seg])%list rest
  end.

Definition urljoin `{NetlocCheck} (base url : string) : option string :=
  if negb (nonempty base) then Some url
  else if negb (nonempty url) then Some base
  else
    match urlparse base "" with
    | None => None
    | Some b =>
        match urlparse url (scheme b) with
        | None => None
        | Some u =>
            if negb (String.eqb (scheme u) (scheme b))
               || negb (mem (scheme u) uses_relative)
            then Some url
            else if mem (scheme u) uses_netloc && nonempty (netloc u)
            then Some (urlunparse u)
            else
              let nl := if mem (scheme u) uses_netloc then netloc b else netloc u in
              if negb (nonempty (path u)) && negb (nonempty (params u))
              then
                let q := if nonempty (query u) then query u else query b in
                Some (urlunparse
                        (mkParse (scheme u) nl (path b) (params b) q (fragment u)))
              else
                let base_parts := split_char "/" (path b) in
                let base_parts :=
                  if nonempty (List.last base_parts EmptyString)
                  then removelast base_parts else base_parts in
                let segments :=
                  if startswith (path u) "/" then split_char "/" (path u)
                  else squeeze_inner (base_parts ++ split_char "/" (path u))%list in
                let resolved := resolve_dots [] segments in
                let last_seg := List.last segments EmptyString in
                let resolved :=
                  if String.eqb last_seg "." || String.eqb last_seg ".."
                  then (resolved ++ [EmptyString])%list else resolved in
                let joined := join "/" resolved in
                let new_path := if nonempty joined then joined else "/" in
                Some (urlunparse
                        (mkParse (scheme u) nl new_path (params u) (query u) (fragment u)))
        end
    end.

End urllib.

(** ** Constants of [scraper.py] *)

Definition DATA_DIR : string := "./data".
Definition WATCHES_JSON : string := DATA_DIR ++ "/rolex_watches.json".
Definition BASE_URL : string := "https://www.chrono24.com".
Definition PROGRESS_DIR : string := DATA_DIR ++ "/progress".

(** ** Pagination driver and URL absolutization *)

Section Urls.
Context `{urllib.NetlocCheck}.
Import Py.

Definition get_pagination_url (base_url : string) (page_num : Z) : option string :=
  match urllib.urlparse base_url "" with
  | None => None
  | Some parsed_url =>
      if (page_num =? 1)%Z then Some base_url
      else
        let path := urllib.path parsed_url in
        let new_path :=
          if endswith path "index.htm" then
            let base_path := drop_last 9 path in
            base_path ++ "index-" ++ str_of_int page_num ++ ".htm"
          else if endswith path "/" then
            path ++ "index-" ++ str_of_int page_num ++ ".htm"
          else
            path ++ "/index-" ++ str_of_int page_num ++ ".htm" in
        let pagination_url :=
          urllib.scheme parsed_url ++ "://" ++ urllib.netloc parsed_url ++ new_path in
        Some (if nonempty (urllib.query parsed_url)
              then pagination_url ++ "?" ++ urllib.query parsed_url
              else pagination_url)
  end.

Definition make_absolute_url (url : string) : option string :=
  if negb (startswith url "http://" || startswith url "https://")
  then urllib.urljoin BASE_URL (lstrip_chars "/" url)
  else Some url.

End Urls.

(** ** Rate controller *)

(** [random.uniform(a, b)] is [a + (b - a) * random()]; the draw [r] of
    [random()] is an argument. *)
Definition uniform (a b r : Q) : Q := a + (b - a) * r.

Definition adaptive_delay (response_time : Q) (status_code : Z) (r : Q) : Q :=
  let base_delay := Qmin (response_time * (3 # 2)) 3 in
  if (status_code >=? 429)%Z then base_delay * 5 + uniform 10 15 r
  else if (status_code >=? 500)%Z then base_delay * 3 + uniform 5 10 r
  else
    let jitter := uniform 0 (base_delay * (1 # 2)) r in
    base_delay + jitter.

(** ** Data model *)

Module Brand.
Record t := mk { name : string; url : string }.
End Brand.

Module Watch.
Record t := mk {
  url : string;
  name : string;
  price : string;
  description : string;
  specifications : gmap string string }.
End Watch.

(** The dict a progress file holds; a key can be missing, and
    [process_brand] reads both keys with [.get] and a default. *)
Module Progress.
Record t := mk {
  current_page : option Z;
  processed_urls : option (list string) }.
End Progress.

(** What [json.load] makes of a file that exists: a value, or
    [JSONDecodeError]. *)
Inductive Json (A : Type) : Type :=
| Malformed
| Parsed (value : A).
Arguments Malformed {A}.
Arguments Parsed {A} value.

Inductive LogEntry : Type :=
| LogInfo (msg : string)
| LogWarning (msg : string)
| LogError (msg : string).

(** The two kinds of JSON file the scraper keeps, by path; a path that is
    not in the map does not exist.  [writes] lists the paths the two
    stores opened for writing, oldest first.  Every file of the model
    opens and decodes as text, and every write succeeds.  (The HTML
    snapshots and screenshots under [ERRORS_DIR] are not part of the
    model.) *)
Record Disk := mkDisk {
  progress_files : gmap string (Json Progress.t);
  watch_files : gmap string (Json (list Watch.t));
  writes : list string }.

Definition os_path_join (a b : string) : string :=
  if Py.startswith b "/" then b
  else if negb (Py.nonempty a) || Py.endswith a "/" then a ++ b
  else a ++ "/" ++ b.

(** ** Progress store *)

Definition progress_path (brand_name : string) : string :=
  os_path_join PROGRESS_DIR (brand_name ++ "_progress.json").

Definition default_progress : Progress.t :=
  Progress.mk (Some 1%Z) (Some []).

(** [load_progress] on a disk whose progress files open and decode as
    text: [Json] tells [json.load] returning from [JSONDecodeError], the
    one exception line 125 catches.  A file that cannot be opened or
    whose bytes are not text is told apart by [load_progress_file]
    below. *)
Definition load_progress (brand_name : string) (d : Disk)
  : Progress.t * list LogEntry :=
  let progress_file := progress_path brand_name in
  match progress_files d !! progress_file with
  | Some (Parsed progress) => (progress, [])
  | Some Malformed =>
      (default_progress,
       [LogError ("Error reading progress file for " ++ brand_name)])
  | None => (default_progress, [])
  end.

Definition save_progress (brand_name : string) (progress : Progress.t) (d : Disk)
  : Disk :=
  let progress_file := progress_path brand_name in
  mkDisk (<[progress_file := Parsed progress]> (progress_files d))
         (watch_files d)
         (writes d ++ [progress_file]).

(** ** Dataset store *)

Definition save_watches_to_json (watches : list Watch.t) (filename : string)
  (d : Disk) : Disk * list LogEntry :=
  let '(existing_watches, log) :=
    match watch_files d !! filename with
    | Some (Parsed ws) => (ws, [])
    | Some Malformed =>
        ([], [LogError "Error reading existing watches file. Starting fresh."])
    | None => ([], [])
    end in
  let all_watches := existing_watches in
  let existing_urls : gset string := list_to_set (Watch.url <$> existing_watches) in
  let new_watches :=
    List.filter (fun w => negb (bool_decide (Watch.url w ∈ existing_urls))) watches in
  match new_watches with
  | [] => (d, (log ++ [LogInfo "No new watches to save, skipping file write"])%list)
  | _ =>
      let all_watches := (all_watches ++ new_watches)%list in
      (mkDisk (progress_files d)
              (<[filename := Parsed all_watches]> (watch_files d))
              (writes d ++ [filename]),
       (log ++ [LogInfo ("Watch data ("
                         ++ Py.str_of_int (Z.of_nat (length all_watches))
                         ++ " total watches) saved to " ++ filename)])%list)
  end.

(** The records a dataset file holds, as [save_watches_to_json] reads them
    (an absent or malformed file reads as no record). *)
Definition stored_watches (filename : string) (d : Disk) : list Watch.t :=
  match watch_files d !! filename with
  | Some (Parsed ws) => ws
  | _ => []
  end.

(** ** Specification table *)

Record Row := mkRow {
  key_cell : option string;     (* text of [th], else of [td:first-child] *)
  value_cell : option string }. (* text of [td:last-child], else of [td:nth-child(2)] *)

Definition Table : Type := list Row.

(** A query of the rendered page either raises or returns. *)
Inductive Res (A : Type) : Type :=
| Raise
| Ret (a : A).
Arguments Raise {A}.
Arguments Ret {A} a.

(** [re.sub(r'.*function docReady[\s\S]*', '', value)]: the text is cut at
    the start of the first line that holds the loader's signature ([.]
    stops at a line feed, [[\s\S]*] runs to the end).  [cut_loader] takes
    the lines of [value.split('\n')]. *)
Fixpoint cut_loader (lines : list string) : list string :=
  match lines with
  | [] => []
  | line :: rest =>
      if Py.contains line "function docReady" then [EmptyString]
      else line :: cut_loader rest
  end.

Definition strip_loader (value : string) : string :=
  Py.join (String "010" EmptyString) (cut_loader (Py.split_char "010" value)).

Definition spec_row (specs : gmap string string) (row : Row) : gmap string string :=
  match key_cell row, value_cell row with
  | Some key_text, Some value_text =>
      let key := Py.strip key_text in
      let value := Py.strip value_text in
      let value := Py.strip (strip_loader value) in
      let key_lower := Py.lower key in
      if String.eqb key_lower "basic info" then specs
      else if String.eqb key_lower "description"
              && String.eqb (Py.lower (Py.strip value)) "description" then specs
      else if Py.nonempty key then <[key := value]> specs
      else specs
  | _, _ => specs
  end.

Definition spec_rows (rows : Table) (specs : gmap string string)
  : gmap string string :=
  fold_left spec_row rows specs.

Definition spec_tables (tables : list Table) (specs : gmap string string)
  : gmap string string :=
  fold_left (fun acc table => spec_rows table acc) tables specs.

Definition SPEC_TABLES : list string :=
  ["#detail-page-dealer section.data table";
   "#detail-page-dealer section.data div table";
   "table.technical-details";
   "table"].

Definition DETAIL_DESC : list string :=
  ["#detail-page-dealer section.data .description-text";
   "#detail-page-dealer section.data .article-description";
   ".dealer-listing__description";
   ".detail-page__description"].

Definition DETAIL_NAME : string := "#detail-page-dealer section.data h1 span".
Definition DETAIL_PRICE : string := ".detail-page-price span".

(** A rendered detail page: the text of the first element a selector
    matches, and the tables ([tbody > tr] rows) a selector matches.  A
    query raises before anything is read, or not at all: an exception
    while the rows of a matched table are read (a cell that went away)
    is not modelled. *)
Record DetailDom := mkDetailDom {
  query_text : string -> Res (option string);
  query_tables : string -> Res (list Table) }.

Fixpoint extract_specs_loop (page : DetailDom) (selectors : list string)
  (specs : gmap string string) : gmap string string :=
  match selectors with
  | [] => specs
  | selector :: rest =>
      match query_tables page selector with
      | Raise => extract_specs_loop page rest specs
      | Ret [] => extract_specs_loop page rest specs
      | Ret tables =>
          let specs := spec_tables tables specs in
          if bool_decide (specs = ∅) then extract_specs_loop page rest specs
          else specs
      end
  end.

Definition extract_specs (page : DetailDom) : gmap string string :=
  extract_specs_loop page SPEC_TABLES ∅.

Fixpoint extract_description_loop (page : DetailDom) (selectors : list string)
  : string :=
  match selectors with
  | [] => EmptyString
  | selector :: rest =>
      match query_text page selector with
      | Ret (Some text) =>
          let description := Py.strip text in
          if Py.nonempty description then description
          else extract_description_loop page rest
      | _ => extract_description_loop page rest
      end
  end.

Definition extract_description (page : DetailDom) : string :=
  extract_description_loop page DETAIL_DESC.

(** ** Browser session and run state *)

(** [page.goto(url, wait_until="networkidle")] on a listing page: it
    raises, returns no response, or returns a response with its status;
    [elapsed] is the time the orchestrator measures around the call. *)
Inductive Nav : Type :=
| NavRaise
| NavNone
| NavResponse (status : Z) (elapsed : Q).

(** [page.wait_for_selector(LISTING_CONTAINER, timeout=30000)] and the
    handler of its [TimeoutError]: the container was found; the wait
    timed out and the screenshot was taken; or an exception leaves the
    attempt (one of the wait other than [TimeoutError], or one of taking
    the screenshot). *)
Inductive Wait : Type :=
| WaitFound
| WaitTimeout
| WaitRaise.

(** A rendered listing page.  [all_links] is the [href] of every anchor
    [#wt-watches a] matches (the query can raise); [nth_link] is what the
    positional query finds at child 1, 2, ...: no anchor ([Ret None]), an
    anchor with its [href], or a raise.  Past the end of [nth_link] there
    is no child. *)
Record ListingDom := mkListingDom {
  all_links : Res (list (option string));
  nth_link : list (Res (option (option string))) }.

Record Browser := mkBrowser {
  World : Type;
  goto_listing : string -> World -> World * Nav;
  wait_listing : World -> World * Wait;
  read_listing : World -> World * ListingDom;
  goto_detail : string -> World -> World * Res DetailDom;
  random : World -> World * Q }.

Inductive Event : Type :=
| ListingRequest (page_num : Z) (url : string)
| DetailRequest (url : string)
| Sleep (seconds : Q).

(** The state of a run: the browser session, the disk, the requests and
    sleeps so far (oldest first) and the log lines of the two stores (the
    orchestrator's own progress messages are left out). *)
Record Run (B : Browser) := mkRun {
  world : World B;
  disk : Disk;
  trace : list Event;
  log : list LogEntry }.
Arguments mkRun {B}.
Arguments world {B}.
Arguments disk {B}.
Arguments trace {B}.
Arguments log {B}.

Section Orchestrator.
Context `{urllib.NetlocCheck} (B : Browser).

Definition emit (e : Event) (st : Run B) : Run B :=
  mkRun (world st) (disk st) (trace st ++ [e])%list (log st).

Definition set_world (w : World B) (st : Run B) : Run B :=
  mkRun w (disk st) (trace st) (log st).

Definition on_disk (f : Disk -> Disk) (st : Run B) : Run B :=
  mkRun (world st) (f (disk st)) (trace st) (log st).

(** [time.sleep(random.uniform(a, b))] *)
Definition sleep_uniform (a b : Q) (st : Run B) : Run B :=
  let '(w, r) := random B (world st) in
  emit (Sleep (uniform a b r)) (set_world w st).

Definition polite_delay (st : Run B) : Run B := sleep_uniform 2 5 st.

(** [with_retry(max_retries, backoff_factor)]: the loop of [wrapper];
    [remaining] counts [max_retries - retries]. *)
Fixpoint retry_loop {A : Type} (backoff_factor : Z)
  (func : Run B -> Run B * Res A) (remaining : nat) (retries : Z)
  (st : Run B) : Run B * Res A :=
  match remaining with
  | O => (st, Raise)
  | S k =>
      match func st with
      | (st, Ret a) => (st, Ret a)
      | (st, Raise) =>
          let retries := (retries + 1)%Z in
          let sleep_time := (backoff_factor ^ retries)%Z in
          retry_loop backoff_factor func k retries
                     (emit (Sleep (inject_Z sleep_time)) st)
      end
  end.

Definition with_retry {A : Type} (max_retries : nat) (backoff_factor : Z)
  (func : Run B -> Run B * Res A) (st : Run B) : Run B * Res A :=
  retry_loop backoff_factor func max_retries 0 st.

(** The body of [process_brand_page], one attempt.  The screenshot that
    lines 417-424 save under [ERRORS_DIR] when the wait times out is not
    part of [Disk], which holds the progress and dataset files only. *)
Definition process_brand_page_once (brand : Brand.t) (page_num : Z)
  (st : Run B) : Run B * Res bool :=
  match get_pagination_url (Brand.url brand) page_num with
  | None => (st, Raise)
  | Some current_url =>
      let '(w, response) := goto_listing B current_url (world st) in
      let st := emit (ListingRequest page_num current_url) (set_world w st) in
      match response with
      | NavRaise => (st, Raise)
      | NavNone => (st, Ret false)
      | NavResponse status response_time =>
          if negb (status =? 200)%Z then (st, Ret false)
          else
            let '(w, found) := wait_listing B (world st) in
            let st := set_world w st in
            match found with
            | WaitRaise => (st, Raise)
            | WaitTimeout => (st, Ret false)
            | WaitFound =>
                let '(w, r) := random B (world st) in
                let delay := adaptive_delay response_time status r in
                (emit (Sleep delay) (set_world w st), Ret true)
            end
      end
  end.

Definition process_brand_page (brand : Brand.t) (page_num : Z)
  : Run B -> Run B * Res bool :=
  with_retry 3 2 (process_brand_page_once brand page_num).

(** The bulk pass of [process_listing_page] over the anchors found.  The
    flag is [false] when [make_absolute_url] raised; the list then holds
    the URLs appended before, and the incremental pass goes on from it. *)
Fixpoint collect_links (links : list (option string)) (watch_urls : list string)
  : list string * bool :=
  match links with
  | [] => (watch_urls, true)
  | href :: rest =>
      match href with
      | Some h =>
          if Py.nonempty h then
            match make_absolute_url h with
            | Some absolute_url => collect_links rest (watch_urls ++ [absolute_url])%list
            | None => (watch_urls, false)
            end
          else collect_links rest watch_urls
      | None => collect_links rest watch_urls
      end
  end.

(** The incremental pass: child 1, 2, ... until a position without
    anchor, or a raise. *)
Fixpoint probe_links (children : list (Res (option (option string))))
  (watch_urls : list string) : list string :=
  match children with
  | [] => watch_urls
  | Raise :: _ => watch_urls
  | Ret None :: _ => watch_urls
  | Ret (Some href) :: rest =>
      match href with
      | Some h =>
          if Py.nonempty h then
            match make_absolute_url h with
            | Some absolute_url => probe_links rest (watch_urls ++ [absolute_url])%list
            | None => watch_urls
            end
          else probe_links rest watch_urls
      | None => probe_links rest watch_urls
      end
  end.

Definition listing_urls (dom : ListingDom) : list string :=
  match all_links dom with
  | Raise => probe_links (nth_link dom) []
  | Ret [] => probe_links (nth_link dom) []
  | Ret links =>
      match collect_links links [] with
      | (watch_urls, true) => watch_urls
      | (watch_urls, false) => probe_links (nth_link dom) watch_urls
      end
  end.

Definition process_listing_page (st : Run B) : Run B * list string :=
  let '(w, dom) := read_listing B (world st) in
  (set_world w st, listing_urls dom).

(** The record [process_watch_detail] builds from a rendered page, or
    [None] for an empty name. *)
Definition watch_of_page (watch_url : string) (page : DetailDom)
  : Res (option Watch.t) :=
  match query_text page DETAIL_NAME with
  | Raise => Raise
  | Ret first =>
      match (match first with
             | Some t => Ret (Some t)
             | None => query_text page "h1"
             end) with
      | Raise => Raise
      | Ret name_element =>
          let watch_name :=
            match name_element with Some t => Py.strip t | None => EmptyString end in
          if negb (Py.nonempty watch_name) then Ret None
          else
            match query_text page DETAIL_PRICE with
            | Raise => Raise
            | Ret price_element =>
                let price :=
                  match price_element with Some t => Py.strip t | None => EmptyString end in
                let description := extract_description page in
                let specs := extract_specs page in
                let '(description, specs) :=
                  match specs !! "Description" with
                  | Some d =>
                      if negb (Py.nonempty description)
                      then (d, delete "Description" specs)
                      else (description, specs)
                  | None => (description, specs)
                  end in
                Ret (Some (Watch.mk watch_url watch_name price description specs))
            end
      end
  end.

(** [process_watch_detail]: every exception is caught and gives [None]. *)
Definition process_watch_detail (watch_url : string) (brand_name : string)
  (st : Run B) : Run B * option Watch.t :=
  match make_absolute_url watch_url with
  | None => (st, None)
  | Some watch_url =>
      let '(w, loaded) := goto_detail B watch_url (world st) in
      let st := emit (DetailRequest watch_url) (set_world w st) in
      match loaded with
      | Raise => (st, None)
      | Ret page =>
          match watch_of_page watch_url page with
          | Raise => (st, None)
          | Ret r => (st, r)
          end
      end
  end.

(** The local state of [process_brand]. *)
Record Acc := mkAcc {
  brand_watches : list Watch.t;
  processed : gset string }.

Definition save_watches (watches : list Watch.t) (st : Run B) : Run B :=
  let '(d, l) := save_watches_to_json watches WATCHES_JSON (disk st) in
  mkRun (world st) d (trace st) (log st ++ l)%list.

(** The loop over [new_urls] of one listing page.  The [try] of lines
    466-483 has no [except] branch here: [process_watch_detail] catches
    its own exceptions, and the two stores of this model are total, so
    nothing in the body raises.  A store that raises (a dataset file that
    does not decode, a brand name that is no file name, a disk that
    refuses the write) is outside the model: the source then logs the
    error and goes on to the next URL without [polite_delay]. *)
Fixpoint item_loop (brand : Brand.t) (page_num : Z) (new_urls : list string)
  (acc : Acc) (st : Run B) : Acc * Run B :=
  match new_urls with
  | [] => (acc, st)
  | url :: rest =>
      let '(st, watch_data) := process_watch_detail url (Brand.name brand) st in
      let '(acc, st) :=
        match watch_data with
        | Some watch_data =>
            let brand_watches := (brand_watches acc ++ [watch_data])%list in
            let st := save_watches [watch_data] st in
            let processed_urls := processed acc ∪ {[url]} in
            let st :=
              on_disk (save_progress (Brand.name brand)
                         (Progress.mk (Some page_num) (Some (elements processed_urls))))
                      st in
            (mkAcc brand_watches processed_urls, st)
        | None => (acc, st)
        end in
      item_loop brand page_num rest acc (polite_delay st)
  end.

(** [range(a, b)] *)
Definition py_range (a b : Z) : list Z :=
  List.map (fun i => (a + Z.of_nat i)%Z) (seq 0 (Z.to_nat (b - a))).

(** The [for page_num in ...] loop of [process_brand].  The third
    component is [Some page_num] when [process_brand_page] raised after
    its retries (the [except] branch of [process_brand] then saves the
    cursor at that page), and [None] when the loop ended or broke. *)
Fixpoint page_loop (brand : Brand.t) (pages : list Z) (acc : Acc) (st : Run B)
  : Acc * Run B * option Z :=
  match pages with
  | [] => (acc, st, None)
  | page_num :: rest =>
      match process_brand_page brand page_num st with
      | (st, Raise) => (acc, st, Some page_num)
      | (st, Ret false) => (acc, st, None)
      | (st, Ret true) =>
          let '(st, watch_urls) := process_listing_page st in
          match watch_urls with
          | [] => (acc, st, None)
          | _ =>
              let new_urls :=
                List.filter (fun url => negb (bool_decide (url ∈ processed acc)))
                            watch_urls in
              match new_urls with
              | [] => (acc, st, None)
              | _ =>
                  let '(acc, st) := item_loop brand page_num new_urls acc st in
                  let st :=
                    on_disk (save_progress (Brand.name brand)
                               (Progress.mk (Some (page_num + 1)%Z)
                                            (Some (elements (processed acc)))))
                            st in
                  page_loop brand rest acc st
              end
          end
      end
  end.

Definition process_brand (brand : Brand.t) (st : Run B)
  : list Watch.t * Run B :=
  let '(progress, l) := load_progress (Brand.name brand) (disk st) in
  let st := mkRun (world st) (disk st) (trace st) (log st ++ l)%list in
  let start_page := default 1%Z (Progress.current_page progress) in
  let processed_urls : gset string :=
    list_to_set (default [] (Progress.processed_urls progress)) in
  match page_loop brand (py_range start_page 100) (mkAcc [] processed_urls) st with
  | (acc, st, None) => (brand_watches acc, st)
  | (acc, st, Some page_num) =>
      (brand_watches acc,
       on_disk (save_progress (Brand.name brand)
                  (Progress.mk (Some page_num) (Some (elements (processed acc)))))
               st)
  end.

End Orchestrator.

(** ** Vocabulary of the statements *)

(** The listing URL of a page other than 1, put together as
    [get_pagination_url] does from the scheme, the network location and
    the query of the parsed base, around the new path. *)
Definition paged (parsed_url : urllib.ParseResult) (new_path : string) : string :=
  let pagination_url :=
    urllib.scheme parsed_url ++ "://" ++ urllib.netloc parsed_url ++ new_path in
  if Py.nonempty (urllib.query parsed_url)
  then pagination_url ++ "?" ++ urllib.query parsed_url
  else pagination_url.

(** What may follow an origin in a URL: nothing, a path, a query or a
    fragment. *)
Definition origin_tail (tail : string) : bool :=
  match tail with
  | EmptyString => true
  | String c _ => Py.contains_char c "/?#"
  end.

Fixpoint cut_prefix (p s : string) : option string :=
  match p, s with
  | EmptyString, _ => Some s
  | String c p', String d s' => if Ascii.eqb c d then cut_prefix p' s' else None
  | String _ _, EmptyString => None
  end.

(** [url] is on the origin [base]. *)
Definition on_origin (base url : string) : bool :=
  match cut_prefix base url with
  | Some tail => origin_tail tail
  | None => false
  end.

(** The text [urlunsplit] puts after the network location. *)
Definition after_netloc (url q frag : string) : string :=
  let url :=
    if Py.nonempty url && negb (Py.startswith url "/") then "/" ++ url else url in
  let url := if Py.nonempty q then url ++ "?" ++ q else url in
  if Py.nonempty frag then url ++ "#" ++ frag else url.

(** Character classes of the parts of a URL: no tab, line feed or
    carriage return anywhere ([urlsplit] removes them), no delimiter in a
    network location, no question mark or hash in a path, no hash in a
    query; and the characters of a printed page number. *)
Definition safe_char (c : ascii) : bool := negb (urllib.is_unsafe c).
Definition delim_char (c : ascii) : bool := Py.contains_char c "/?#".
Definition host_char (c : ascii) : bool := safe_char c && negb (delim_char c).
Definition path_char (c : ascii) : bool :=
  safe_char c && negb (Ascii.eqb c "?") && negb (Ascii.eqb c "#").
Definition query_char (c : ascii) : bool := safe_char c && negb (Ascii.eqb c "#").
Definition digit_char (c : ascii) : bool := Py.is_digit c || Ascii.eqb c "-".

(** A string that is empty or starts with a character of the class [p]. *)
Definition stops_at (p : ascii -> bool) (s : string) : Prop :=
  match s with
  | EmptyString => True
  | String c _ => p c = true
  end.

(** A scheme as [urlsplit] returns it: absent, or a letter followed by
    scheme characters, in lower case. *)
Definition scheme_ok (sch : string) : Prop :=
  sch = "" \/
  (exists c0 rest, sch = String c0 rest /\ Py.is_alpha c0 = true)
  /\ Py.forall_chars urllib.scheme_char sch = true /\ Py.lower sch = sch.

(** The parts [urlsplit] returns are made of the characters their place
    in a URL allows, and a path after a network location is empty or
    starts with a slash. *)
Record split_ok `{urllib.NetlocCheck} (r : urllib.SplitResult) : Prop := mkSplitOk {
  ok_scheme : scheme_ok (urllib.s_scheme r);
  ok_netloc : Py.forall_chars host_char (urllib.s_netloc r) = true;
  ok_check : urllib.netloc_ok (urllib.s_netloc r) = true;
  ok_path : Py.forall_chars path_char (urllib.s_path r) = true;
  ok_query : Py.forall_chars query_char (urllib.s_query r) = true;
  ok_rooted : urllib.s_netloc r <> "" -> stops_at (Ascii.eqb "/") (urllib.s_path r) }.

(** The same for the parts [urlparse] returns. *)
Record parse_ok `{urllib.NetlocCheck} (p : urllib.ParseResult) : Prop := mkParseOk {
  pok_scheme : scheme_ok (urllib.scheme p);
  pok_netloc : Py.forall_chars host_char (urllib.netloc p) = true;
  pok_check : urllib.netloc_ok (urllib.netloc p) = true;
  pok_path : Py.forall_chars path_char (urllib.path p) = true;
  pok_query : Py.forall_chars query_char (urllib.query p) = true;
  pok_rooted : urllib.netloc p <> "" -> stops_at (Ascii.eqb "/") (urllib.path p) }.

(** A URL that [make_absolute_url] returns unchanged. *)
Definition absolute `{urllib.NetlocCheck} (url : string) : Prop :=
  make_absolute_url url = Some url.

Definition stored_urls (f : string) (d : Disk) : list string :=
  Watch.url <$> stored_watches f d.

(** The test [w.get("url") not in existing_urls] of the dataset store. *)
Definition is_new (existing : list Watch.t) (w : Watch.t) : bool :=
  negb (bool_decide (Watch.url w ∈ (list_to_set (Watch.url <$> existing) : gset string))).

(** The key and the value [spec_row] computes from the two cell texts. *)
Definition row_key (key_text : string) : string := Py.strip key_text.

Definition row_value (value_text : string) : string :=
  Py.strip (strip_loader (Py.strip value_text)).

(** The entry a row adds to the table, if it adds one. *)
Definition row_entry (row : Row) : option (string * string) :=
  match key_cell row, value_cell row with
  | Some key_text, Some value_text =>
      let key := row_key key_text in
      let value := row_value value_text in
      if String.eqb (Py.lower key) "basic info" then None
      else if String.eqb (Py.lower key) "description"
              && String.eqb (Py.lower (Py.strip value)) "description" then None
      else if Py.nonempty key then Some (key, value) else None
  | _, _ => None
  end.

(** A string with no leading character of the class [p]. *)
Definition clean_head (p : ascii -> bool) (s : string) : Prop :=
  match s with
  | EmptyString => True
  | String c _ => p c = false
  end.

Definition listing_requests (t : list Event) : list Z :=
  omap (fun e => match e with ListingRequest n _ => Some n | _ => None end) t.

Definition detail_requests (t : list Event) : list string :=
  omap (fun e => match e with DetailRequest u => Some u | _ => None end) t.

Definition sleeps (t : list Event) : list Q :=
  omap (fun e => match e with Sleep s => Some s | _ => None end) t.

(** [st'] continues [st]: its trace is that of [st] followed by events
    that all satisfy [P]. *)
Definition extends {B : Browser} (P : Event -> Prop) (st st' : Run B) : Prop :=
  exists evs, trace st' = (trace st ++ evs)%list /\ Forall P evs.

Definition is_sleep (e : Event) : Prop :=
  match e with Sleep _ => True | _ => False end.

(** The events of an attempt at listing page [n]. *)
Definition page_event (n : Z) (e : Event) : Prop :=
  match e with
  | ListingRequest m _ => m = n
  | DetailRequest _ => False
  | Sleep _ => True
  end.

(** The events a brand resumed with the processed set [S0] may produce:
    listing requests of page numbers in [Pn], detail requests of URLs
    outside [S0], and sleeps. *)
Definition resume_event (Pn : Z -> Prop) (S0 : gset string) (e : Event) : Prop :=
  match e with
  | ListingRequest n _ => Pn n
  | DetailRequest u => u ∉ S0
  | Sleep _ => True
  end.

(** What one round of the item loop does to the state after the
    extraction returned [watch_data]. *)
Definition item_step {B : Browser} (brand : Brand.t) (page_num : Z) (url : string)
  (watch_data : option Watch.t) (acc : Acc) (st : Run B) : Acc * Run B :=
  match watch_data with
  | Some watch_data =>
      let processed_urls := processed acc ∪ {[url]} in
      (mkAcc (brand_watches acc ++ [watch_data])%list processed_urls,
       on_disk B (save_progress (Brand.name brand)
                    (Progress.mk (Some page_num) (Some (elements processed_urls))))
               (save_watches B [watch_data] st))
  | None => (acc, st)
  end.

Definition loop_state {B : Browser} (r : Acc * Run B * option Z) : Run B := snd (fst r).
Definition loop_acc {B : Browser} (r : Acc * Run B * option Z) : Acc := fst (fst r).

(** ** Concrete inputs *)

(** A validator that accepts no bracketed network location; the URLs
    below have none. *)
Definition no_bracketed_hosts : urllib.NetlocCheck := fun _ => false.

Definition empty_disk : Disk := mkDisk ∅ ∅ [].

Definition sub_a : Watch.t :=
  Watch.mk "https://www.chrono24.com/rolex/a.htm" "Submariner" "$9,500" "" ∅.

Definition sub_a_again : Watch.t :=
  Watch.mk "https://www.chrono24.com/rolex/a.htm" "Submariner Date" "$9,900" "" ∅.

Definition gmt_b : Watch.t :=
  Watch.mk "https://www.chrono24.com/rolex/b.htm" "GMT-Master II" "$14,000" "" ∅.

Definition disk_with_b : Disk :=
  mkDisk ∅ {[WATCHES_JSON := Parsed [gmt_b]]} [].

(** A detail page that has a heading and nothing else. *)
Definition plain_page : DetailDom :=
  mkDetailDom
    (fun selector => if String.eqb selector "h1" then Ret (Some "Submariner") else Ret None)
    (fun selector => Ret []).

(** A catalogue that never ends: every listing page loads with status
    200 and shows one item that no earlier page showed; every detail page
    is [plain_page].  The world counts the listing pages loaded. *)
Definition endless : Browser :=
  mkBrowser nat
    (fun url w => (S w, NavResponse 200 1))
    (fun w => (w, WaitFound))
    (fun w => (w, mkListingDom
                    (Ret [Some ("https://x/w" ++ Py.str_of_int (Z.of_nat w))]) []))
    (fun url w => (w, Ret plain_page))
    (fun w => (w, 0%Q)).

(** A session whose first detail navigation raises and whose later ones
    succeed.  The world counts the detail navigations. *)
Definition flaky : Browser :=
  mkBrowser nat
    (fun url w => (w, NavResponse 200 1))
    (fun w => (w, WaitFound))
    (fun w => (w, mkListingDom (Ret [Some "https://x/w1"]) []))
    (fun url w => (S w, match w with O => Raise | S _ => Ret plain_page end))
    (fun w => (w, 0%Q)).

Definition brand_x : Brand.t := Brand.mk "Rolex" "https://x/brand/index.htm".

Definition fresh_run (B : Browser) (w : World B) (d : Disk) : Run B :=
  mkRun w d [] [].

(** A disk that holds the cursor [{current_page: 3, processed_urls: [...]}]
    of [brand_x]. *)
Definition resumed_disk : Disk :=
  mkDisk {[progress_path "Rolex" :=
             Parsed (Progress.mk (Some 3%Z) (Some ["https://x/w3"; "https://x/w9"]))]}
         ∅ [].

Definition malformed_disk : Disk :=
  mkDisk {[progress_path "Rolex" := Malformed]} ∅ [].

(** ** Vocabulary of the further properties *)

(** The events of [j] attempts at a listing page that raised, as the loop
    of [with_retry] leaves them with [backoff_factor = 2]: the request,
    then the sleep of [2 ** retries] seconds, from the retry counter
    [retries] on. *)
Fixpoint backoff_events (n : Z) (url : string) (retries : Z) (j : nat) : list Event :=
  match j with
  | O => []
  | S k =>
      ListingRequest n url
        :: Sleep (inject_Z (2 ^ (retries + 1)))
        :: backoff_events n url (retries + 1) k
  end.

(** The cursor [process_brand] reads from what [load_progress] returns. *)
Definition start_page (progress : Progress.t) : Z :=
  default 1%Z (Progress.current_page progress).

Definition seen_urls (progress : Progress.t) : list string :=
  default [] (Progress.processed_urls progress).

Definition cursor (brand_name : string) (d : Disk) : Progress.t :=
  fst (load_progress brand_name d).

(** The run after [j] attempts of [func] that raised: the state each
    attempt left, then the back-off sleep of [with_retry] with
    [backoff_factor = 2], from the retry counter [retries] on. *)
Fixpoint after_raises {B : Browser} {A : Type} (func : Run B -> Run B * Res A)
  (retries : Z) (j : nat) (st : Run B) : Run B :=
  match j with
  | O => st
  | S k =>
      after_raises func (retries + 1) k
        (emit B (Sleep (inject_Z (2 ^ (retries + 1)))) (fst (func st)))
  end.

(** ** The progress file as the file system holds it *)

(** What [open(progress_file, 'r')] and the read inside [json.load] make
    of a path that exists: the file cannot be opened ([OSError]: a
    directory, no permission), its bytes are not text in the encoding of
    the locale ([UnicodeDecodeError]), or it is text, which [json.load]
    parses or rejects. *)
Inductive File (A : Type) : Type :=
| Unopenable
| Undecodable
| Text (content : Json A).
Arguments Unopenable {A}.
Arguments Undecodable {A}.
Arguments Text {A} content.

(** [load_progress] over such a file ([None]: [os.path.exists] is
    false).  The [except] clause of line 125 names
    [json.JSONDecodeError] only; the two other exceptions leave the
    function. *)
Definition load_progress_file (brand_name : string) (file : option (File Progress.t))
  : Res (Progress.t * list LogEntry) :=
  match file with
  | None => Ret (default_progress, [])
  | Some Unopenable => Raise
  | Some Undecodable => Raise
  | Some (Text (Parsed progress)) => Ret (progress, [])
  | Some (Text Malformed) =>
      Ret (default_progress,
           [LogError ("Error reading progress file for " ++ brand_name)])
  end.

(** ** Counting and first choice *)

(** The number of records a dataset file holds under a URL. *)
Definition copies (u : string) (f : string) (d : Disk) : nat :=
  count_occ string_dec (stored_urls f d) u.

(** What one selector of [SPEC_TABLES] yields on its own: the rows of
    the tables it matches, filtered and stored in order; nothing when
    the query raises. *)
Definition selector_specs (page : DetailDom) (selector : string)
  : gmap string string :=
  match query_tables page selector with
  | Raise => ∅
  | Ret tables => spec_rows (concat tables) ∅
  end.

(** The first dict of a list that is not empty, else the empty dict. *)
Fixpoint first_nonempty (l : list (gmap string string)) : gmap string string :=
  match l with
  | [] => ∅
  | m :: rest => if bool_decide (m = ∅) then first_nonempty rest else m
  end.

(** What one attempt at listing page [n] leaves behind: the disk and the
    log as they were, the request in the trace, and on success the
    adaptive delay: that of status 200, of the response time [t] the
    navigation took and of the draw [random] makes after the wait. *)
Definition attempt_ok {B : Browser} (n : Z) (u : string) (st : Run B)
  (r : Run B * Res bool) : Prop :=
  disk (fst r) = disk st /\ log (fst r) = log st /\
  match snd r with
  | Raise => trace (fst r) = (trace st ++ [ListingRequest n u])%list
  | Ret false => trace (fst r) = (trace st ++ [ListingRequest n u])%list
  | Ret true =>
      exists w1 w2 t,
        goto_listing B u (world st) = (w1, NavResponse 200 t)
        /\ wait_listing B w1 = (w2, WaitFound)
        /\ trace (fst r)
           = (trace st ++ [ListingRequest n u;
                           Sleep (adaptive_delay t 200 (snd (random B w2)))])%list
  end.

(** Page [p] listed [c] times, for each page and its count in turn. *)
Definition repeated_pages (pages : list Z) (counts : list nat) : list Z :=
  concat (zip_with (fun p c => replicate c p) pages counts).

(** ** Further concrete inputs *)

(** A site that answers every listing request with status 429. *)
Definition rate_limited : Browser :=
  mkBrowser nat
    (fun url w => (S w, NavResponse 429 1))
    (fun w => (w, WaitFound))
    (fun w => (w, mkListingDom (Ret []) []))
    (fun url w => (w, Ret plain_page))
    (fun w => (w, 0%Q)).

(** A site that cannot be reached: every listing navigation raises. *)
Definition unreachable : Browser :=
  mkBrowser nat
    (fun url w => (S w, NavRaise))
    (fun w => (w, WaitFound))
    (fun w => (w, mkListingDom (Ret []) []))
    (fun url w => (w, Raise))
    (fun w => (w, 0%Q)).

(** An entry as the specification table stores it: a key that is not
    empty, not "basic info" and stripped, a stripped value, and not the
    heading pair "Description"/"Description". *)
Definition spec_entry_ok (k v : string) : Prop :=
  k <> "" /\ Py.strip k = k /\ Py.strip v = v
  /\ Py.lower k <> "basic info"
  /\ ~ (Py.lower k = "description" /\ Py.lower v = "description").

(** A record as [process_watch_detail] builds it. *)
Definition record_ok `{urllib.NetlocCheck} (w : Watch.t) : Prop :=
  absolute (Watch.url w)
  /\ Watch.name w <> "" /\ Py.strip (Watch.name w) = Watch.name w
  /\ Py.strip (Watch.price w) = Watch.price w
  /\ Py.strip (Watch.description w) = Watch.description w
  /\ (Watch.description w = "" -> Watch.specifications w !! "Description" = None)
  /\ forall k v, Watch.specifications w !! k = Some v -> spec_entry_ok k v.

(** A brand name under which the progress store can write: the name of
    a file of [PROGRESS_DIR] itself.  [open] raises on a path that leads
    into a directory that does not exist (a name with a slash), on an
    embedded null byte, and on a file name of more than 255 bytes, of
    which "_progress.json" takes 14. *)
Definition file_name_ok (brand_name : string) : bool :=
  negb (Py.contains_char "/" brand_name)
  && negb (Py.contains_char "000" brand_name)
  && (String.length brand_name <=? 241)%nat.

(** Pacing of the requests.  [follows_ok e e'] says that [e'] may come
    right after [e]: after a listing request a sleep, after a detail
    request a sleep of 2 to 5 seconds, after a sleep anything. *)
Definition follows_ok (e e' : Event) : Prop :=
  match e with
  | Sleep _ => True
  | ListingRequest _ _ => match e' with Sleep _ => True | _ => False end
  | DetailRequest _ => match e' with Sleep q => (2 <= q <= 5)%Q | _ => False end
  end.

(** A trace in which every event is followed as [follows_ok] allows, and
    which does not end with a detail request. *)
Fixpoint paced (t : list Event) : Prop :=
  match t with
  | [] => True
  | e :: rest =>
      match rest with
      | [] => match e with DetailRequest _ => False | _ => True end
      | e' :: _ => follows_ok e e'
      end /\ paced rest
  end.

(** A trace that is empty or ends with a sleep. *)
Fixpoint ends_in_sleep (t : list Event) : Prop :=
  match t with
  | [] => True
  | e :: rest =>
      match rest with
      | [] => is_sleep e
      | _ :: _ => ends_in_sleep rest
      end
  end.

(** What the two passes of [process_listing_page] make of the [href] of
    one anchor: nothing for a missing or empty [href], else its absolute
    URL ([href_ok] says that [make_absolute_url] does not raise on it). *)
Definition href_url `{urllib.NetlocCheck} (href : option string) : option string :=
  match href with
  | Some h => if Py.nonempty h then make_absolute_url h else None
  | None => None
  end.

Definition href_ok `{urllib.NetlocCheck} (href : option string) : Prop :=
  match href with
  | Some h => Py.nonempty h = true -> make_absolute_url h <> None
  | None => True
  end.

(** A listing page whose bulk query finds nothing and whose positional
    query finds two anchors, then a gap, then a third anchor. *)
Definition gapped_listing : ListingDom :=
  mkListingDom (Ret [])
    [Ret (Some (Some "/rolex/a.htm")); Ret (Some (Some "https://x/b.htm"));
     Ret None; Ret (Some (Some "/rolex/c.htm"))].

(** A detail page whose first description block is blank (a space, a
    no-break space U+00A0 and a line feed) and whose third one holds
    text. *)
Definition described_page : DetailDom :=
  mkDetailDom
    (fun selector =>
       if String.eqb selector "#detail-page-dealer section.data .description-text"
       then Ret (Some (String " " (String "194" (String "160" (String "010" "")))))
       else if String.eqb selector "#detail-page-dealer section.data .article-description"
       then Raise
       else if String.eqb selector ".dealer-listing__description"
       then Ret (Some " Full set, unworn. ")
       else Ret None)
    (fun selector => Ret []).

(** A no-break space, U+00A0, in UTF-8. *)
Definition nbsp : string := String "194" (String "160" "").

(** A detail page whose first table selector raises and whose second one
    matches two tables: headings, a row without key (a no-break space),
    a real description, and the case material twice. *)
Definition specs_page : DetailDom :=
  mkDetailDom
    (fun selector => Ret None)
    (fun selector =>
       if String.eqb selector "#detail-page-dealer section.data table" then Raise
       else if String.eqb selector "#detail-page-dealer section.data div table"
       then Ret [[mkRow (Some "Basic Info") (Some "Listing code: X1");
                  mkRow (Some (nbsp ++ "BASIC INFO ")) (Some "Brand: Rolex");
                  mkRow (Some "Description") (Some " Description ");
                  mkRow (Some nbsp) (Some "no key");
                  mkRow (Some " Case material ") (Some "Steel")];
                 [mkRow (Some "Description") (Some "A fine chronometer");
                  mkRow None (Some "no key cell");
                  mkRow (Some "Case material") (Some (" Gold" ++ nbsp))]]
       else Ret [[mkRow (Some "Dial") (Some "Black")]]).

(** A path segment of a plain site-relative link: not empty, not a dot
    segment, and made of characters other than the URL delimiters
    [/ ? # ; :], white space and control characters. *)
Definition segment_char (c : ascii) : bool :=
  negb (Py.contains_char c "/?#;:") && negb (urllib.is_c0_or_space c).

Definition plain_segment (s : string) : Prop :=
  s <> "" /\ s <> "." /\ s <> ".." /\ Py.forall_chars segment_char s = true.

(** [n] slashes. *)
Fixpoint slashes (n : nat) : string :=
  match n with
  | O => EmptyString
  | S k => String "/" (slashes k)
  end.

(** The characters of a path of plain segments. *)
Definition rel_char (c : ascii) : bool := segment_char c || Ascii.eqb c "/".

(** * Facts about the embedding *)

(** * Facts about the string primitives *)

Section PyFacts.
Import Py.

Lemma append_cons (c : ascii) (s t : string) :
  String c s ++ t = String c (s ++ t).
Proof. reflexivity. Qed.

Lemma append_nil_l (t : string) : "" ++ t = t.
Proof. reflexivity. Qed.

Lemma append_nil_r (s : string) : s ++ "" = s.
Proof.
  induction s as [|c s IH]; [reflexivity|]. now rewrite append_cons, IH.
Qed.

Lemma append_assoc (a b c : string) : (a ++ b) ++ c = a ++ b ++ c.
Proof.
  induction a as [|x a IH]; [reflexivity|]. now rewrite !append_cons, IH.
Qed.

Lemma length_append (a b : string) :
  String.length (a ++ b) = (String.length a + String.length b)%nat.
Proof.
  induction a as [|x a IH]; [reflexivity|].
  rewrite append_cons. simpl. now rewrite IH.
Qed.

Lemma str_prefix_nil (s : string) : String.prefix "" s = true.
Proof. destruct s; reflexivity. Qed.

Lemma str_prefix_app (p a b : string) :
  String.prefix p a = true -> String.prefix p (a ++ b) = true.
Proof.
  revert a; induction p as [|c p IH]; intros a Hp.
  - apply str_prefix_nil.
  - destruct a as [|d a]; [discriminate|].
    rewrite append_cons. simpl in *.
    destruct (ascii_dec c d); [auto | discriminate].
Qed.

Lemma str_prefix_refl_app (p b : string) : String.prefix p (p ++ b) = true.
Proof.
  induction p as [|c p IH]; [apply str_prefix_nil|].
  rewrite append_cons. simpl.
  destruct (ascii_dec c c); [assumption | congruence].
Qed.

Lemma startswith_app (s p t : string) :
  startswith s p = true -> startswith (s ++ t) p = true.
Proof. apply str_prefix_app. Qed.

Lemma str_take_app (d suf : string) : take (String.length d) (d ++ suf) = d.
Proof.
  induction d as [|c d IH]; [now destruct suf|].
  rewrite append_cons. simpl. now rewrite IH.
Qed.

Lemma drop_last_app (d suf : string) :
  drop_last (String.length suf) (d ++ suf) = d.
Proof.
  unfold drop_last. rewrite length_append.
  replace (String.length d + String.length suf - String.length suf)%nat
    with (String.length d) by lia.
  apply str_take_app.
Qed.

Lemma endswith_app (d suf : string) : endswith (d ++ suf) suf = true.
Proof.
  induction d as [|c d IH].
  - rewrite append_nil_l. destruct suf; cbn [endswith]; [reflexivity|].
    now rewrite String.eqb_refl.
  - rewrite append_cons. cbn [endswith]. rewrite IH. apply orb_true_r.
Qed.

Lemma endswith_inv (s suf : string) :
  endswith s suf = true -> exists d, s = d ++ suf.
Proof.
  induction s as [|c s IH]; cbn [endswith]; intros Hs.
  - rewrite orb_false_r in Hs. apply String.eqb_eq in Hs.
    exists "". now rewrite <- Hs.
  - apply orb_true_iff in Hs as [Hs | Hs].
    + apply String.eqb_eq in Hs. exists "". now rewrite <- Hs.
    + destruct (IH Hs) as [d ->]. now exists (String c d).
Qed.

Lemma endswith_false (s suf : string) :
  endswith s suf = false -> forall d, s <> d ++ suf.
Proof.
  intros Hs d ->. rewrite endswith_app in Hs. discriminate.
Qed.

Lemma lstrip_by_idem (p : ascii -> bool) (s : string) :
  lstrip_by p (lstrip_by p s) = lstrip_by p s.
Proof.
  induction s as [|c s IH]; simpl; [reflexivity|].
  destruct (p c) eqn:Hc; [assumption|]. simpl. now rewrite Hc.
Qed.

Lemma nonempty_false (s : string) : nonempty s = false -> s = "".
Proof.
  unfold nonempty. intros Hs. apply negb_false_iff in Hs.
  now apply String.eqb_eq in Hs.
Qed.

Lemma nonempty_true (s : string) : nonempty s = true -> s <> "".
Proof.
  unfold nonempty. intros Hs. apply negb_true_iff in Hs.
  now apply String.eqb_neq in Hs.
Qed.

End PyFacts.

(** * Pagination URLs *)

Section PaginationFacts.
Context `{urllib.NetlocCheck}.
Import Py.

Lemma get_pagination_url_first (base_url : string) (p : urllib.ParseResult) :
  urllib.urlparse base_url "" = Some p ->
  get_pagination_url base_url 1 = Some base_url.
Proof. intros Hp. unfold get_pagination_url. now rewrite Hp. Qed.

Lemma get_pagination_url_index (base_url d : string) (p : urllib.ParseResult) (n : Z) :
  urllib.urlparse base_url "" = Some p -> n <> 1%Z ->
  urllib.path p = d ++ "index.htm" ->
  get_pagination_url base_url n
  = Some (paged p (d ++ "index-" ++ str_of_int n ++ ".htm")).
Proof.
  intros Hp Hn Hd. unfold get_pagination_url. rewrite Hp.
  destruct (Z.eqb_spec n 1) as [|_]; [contradiction|].
  rewrite Hd, endswith_app.
  change 9%nat with (String.length "index.htm"). rewrite drop_last_app.
  reflexivity.
Qed.

Lemma endswith_slash_not_index (d : string) :
  endswith (d ++ "/") "index.htm" = false.
Proof.
  destruct (endswith (d ++ "/") "index.htm") eqn:E; [|reflexivity].
  apply endswith_inv in E as [d' E]. exfalso.
  assert (Hrev : forall (a b : string) (c e : ascii),
             a ++ String c "" = b ++ String e "" -> c = e).
  { clear. induction a as [|x a IH]; intros [|y b] c e;
      rewrite ?append_cons, ?append_nil_l; intros Heq.
    - now inversion Heq.
    - inversion Heq as [[Hx Hr]]. destruct b; discriminate.
    - inversion Heq as [[Hx Hr]]. destruct a; discriminate.
    - inversion Heq. eauto. }
  change "index.htm" with ("index.ht" ++ "m") in E.
  rewrite <- append_assoc in E. apply Hrev in E. discriminate.
Qed.

Lemma get_pagination_url_slash (base_url d : string) (p : urllib.ParseResult) (n : Z) :
  urllib.urlparse base_url "" = Some p -> n <> 1%Z ->
  urllib.path p = d ++ "/" ->
  get_pagination_url base_url n
  = Some (paged p (urllib.path p ++ "index-" ++ str_of_int n ++ ".htm")).
Proof.
  intros Hp Hn Hd. unfold get_pagination_url. rewrite Hp.
  destruct (Z.eqb_spec n 1) as [|_]; [contradiction|].
  rewrite Hd, endswith_slash_not_index, endswith_app. reflexivity.
Qed.

Lemma get_pagination_url_other (base_url : string) (p : urllib.ParseResult) (n : Z) :
  urllib.urlparse base_url "" = Some p -> n <> 1%Z ->
  (forall d, urllib.path p <> d ++ "index.htm") ->
  (forall d, urllib.path p <> d ++ "/") ->
  get_pagination_url base_url n
  = Some (paged p (urllib.path p ++ "/index-" ++ str_of_int n ++ ".htm")).
Proof.
  intros Hp Hn Hi Hs. unfold get_pagination_url. rewrite Hp.
  destruct (Z.eqb_spec n 1) as [|_]; [contradiction|].
  destruct (endswith (urllib.path p) "index.htm") eqn:E1.
  { apply endswith_inv in E1 as [d E1]. now destruct (Hi d). }
  destruct (endswith (urllib.path p) "/") eqn:E2.
  { apply endswith_inv in E2 as [d E2]. now destruct (Hs d). }
  reflexivity.
Qed.

End PaginationFacts.

Section StripFacts.
Import Py.

Lemma lstrip_by_clean p s : clean_head p (lstrip_by p s).
Proof.
induction s as [|c s IH]; simpl; [exact I|].
destruct (p c) eqn:Hc; [exact IH | exact Hc].
Qed.

Lemma lstrip_by_clean_id p s : clean_head p s -> lstrip_by p s = s.
Proof. destruct s as [|c s]; simpl; [reflexivity|]. now intros ->. Qed.

Lemma rstrip_by_clean p s : clean_head p s -> clean_head p (rstrip_by p s).
Proof.
destruct s as [|c s]; simpl; [exact id|]. intros Hc. rewrite Hc.
now rewrite andb_false_r.
Qed.

Lemma rstrip_by_idem p s : rstrip_by p (rstrip_by p s) = rstrip_by p s.
Proof.
induction s as [|c s IH]; simpl; [reflexivity|].
destruct (String.eqb (rstrip_by p s) "" && p c) eqn:E; [reflexivity|].
simpl. now rewrite IH, E.
Qed.

Lemma lstrip_space_unfold s :
  lstrip_space s =
    match space_head s with
    | Some r => lstrip_space r
    | None => s
    end.
Proof.
destruct s as [|c [|d [|e r3]]]; cbn [lstrip_space space_head]; try reflexivity.
- destruct (is_space c); reflexivity.
- destruct (is_space c); [reflexivity|]. destruct (is_space2 c d); reflexivity.
- destruct (is_space c); [reflexivity|]. destruct (is_space2 c d); [reflexivity|].
  destruct (is_space3 c d e); reflexivity.
Qed.

Lemma space_head_length s r :
  space_head s = Some r -> (String.length r < String.length s)%nat.
Proof.
destruct s as [|c [|d [|e r3]]]; cbn [space_head]; try discriminate.
- destruct (is_space c); [|discriminate]. intros [= <-]. cbn. lia.
- destruct (is_space c); [intros [= <-]; cbn; lia|].
  destruct (is_space2 c d); [|discriminate]. intros [= <-]. cbn. lia.
- destruct (is_space c); [intros [= <-]; cbn; lia|].
  destruct (is_space2 c d); [intros [= <-]; cbn; lia|].
  destruct (is_space3 c d e); [|discriminate]. intros [= <-]. cbn. lia.
Qed.

Lemma space_head_app s r t :
  space_head s = Some r -> space_head (s ++ t) = Some (r ++ t).
Proof.
destruct s as [|c [|d [|e r3]]]; cbn [space_head]; try discriminate;
  rewrite ?append_cons, ?append_nil_l.
- destruct (is_space c) eqn:Ec; [|discriminate]. intros [= <-].
  cbn [space_head]. now rewrite Ec, append_nil_l.
- destruct (is_space c) eqn:Ec.
  + intros [= <-]. cbn [space_head]. now rewrite Ec, append_cons, append_nil_l.
  + destruct (is_space2 c d) eqn:Ed; [|discriminate]. intros [= <-].
    cbn [space_head]. now rewrite Ec, Ed, append_nil_l.
- destruct (is_space c) eqn:Ec.
  + intros [= <-]. cbn [space_head]. now rewrite Ec, !append_cons.
  + destruct (is_space2 c d) eqn:Ed.
    * intros [= <-]. cbn [space_head]. now rewrite Ec, Ed, append_cons.
    * destruct (is_space3 c d e) eqn:Ee; [|discriminate]. intros [= <-].
      cbn [space_head]. now rewrite Ec, Ed, Ee.
Qed.

(** A strict prefix of the text keeps a leading white-space character
    only if the text has it. *)
Lemma space_head_prefix p t r :
  space_head p = Some r -> space_head (p ++ t) <> None.
Proof. intros Hp. now rewrite (space_head_app p r t Hp). Qed.

Lemma lstrip_space_head s : space_head (lstrip_space s) = None.
Proof.
remember (String.length s) as n eqn:Hn. revert s Hn.
induction n as [n IH] using lt_wf_ind. intros s ->.
rewrite lstrip_space_unfold. destruct (space_head s) as [r|] eqn:Hs; [|exact Hs].
apply (IH (String.length r)); [now apply space_head_length | reflexivity].
Qed.

Lemma lstrip_space_id s : space_head s = None -> lstrip_space s = s.
Proof. intros Hs. now rewrite lstrip_space_unfold, Hs. Qed.

Lemma lstrip_space_app s t :
  lstrip_space s = "" -> lstrip_space (s ++ t) = lstrip_space t.
Proof.
remember (String.length s) as n eqn:Hn. revert s Hn.
induction n as [n IH] using lt_wf_ind. intros s -> Hs.
destruct s as [|c s']; [now rewrite append_nil_l|].
rewrite lstrip_space_unfold in Hs.
destruct (space_head (String c s')) as [r|] eqn:Hh; [|discriminate Hs].
rewrite (lstrip_space_unfold (String c s' ++ t)), (space_head_app _ r t Hh).
apply (IH (String.length r)); [now apply space_head_length | reflexivity | exact Hs].
Qed.

(** [rstrip_space] cuts a tail of white space off. *)
Lemma rstrip_space_split s :
  exists post, s = rstrip_space s ++ post /\ lstrip_space post = "".
Proof.
induction s as [|c s (post & IH & Hp)]; [now exists ""|].
cbn [rstrip_space].
destruct (String.eqb (lstrip_space (String c s)) "") eqn:E.
- exists (String c s). split; [now rewrite append_nil_l|]. now apply String.eqb_eq.
- exists post. split; [now rewrite append_cons, <- IH | exact Hp].
Qed.

Lemma rstrip_space_idem s : rstrip_space (rstrip_space s) = rstrip_space s.
Proof.
induction s as [|c s IH]; [reflexivity|]. cbn [rstrip_space].
destruct (String.eqb (lstrip_space (String c s)) "") eqn:E; [reflexivity|].
cbn [rstrip_space]. rewrite IH.
destruct (String.eqb (lstrip_space (String c (rstrip_space s))) "") eqn:E2;
  [|reflexivity].
apply String.eqb_eq in E2. destruct (rstrip_space_split s) as (post & Hs & Hp).
assert (Hall : lstrip_space (String c s) = "").
{ rewrite Hs at 1. rewrite <- append_cons.
  now rewrite (lstrip_space_app _ post E2). }
rewrite Hall in E. discriminate E.
Qed.

Lemma rstrip_space_head s : space_head s = None -> space_head (rstrip_space s) = None.
Proof.
intros Hs. destruct (rstrip_space_split s) as (post & Hsplit & _).
destruct (space_head (rstrip_space s)) as [r|] eqn:Hr; [|reflexivity].
rewrite Hsplit, (space_head_app _ r post Hr) in Hs. discriminate Hs.
Qed.

Lemma strip_idem s : strip (strip s) = strip s.
Proof.
unfold strip.
rewrite (lstrip_space_id (rstrip_space (lstrip_space s))).
- apply rstrip_space_idem.
- apply rstrip_space_head, lstrip_space_head.
Qed.

End StripFacts.

Section AbsoluteFacts.
Context `{urllib.NetlocCheck}.
Import Py urllib.

Lemma cut_prefix_app (p t : string) : cut_prefix p (p ++ t) = Some t.
Proof.
  induction p as [|c p IH]; [reflexivity|].
  rewrite append_cons. simpl. now rewrite Ascii.eqb_refl.
Qed.

Lemma on_origin_app (base tail : string) :
  on_origin base (base ++ tail) = origin_tail tail.
Proof. unfold on_origin. now rewrite cut_prefix_app. Qed.

Lemma urlparse_base :
  urlparse BASE_URL "" = Some (mkParse "https" "www.chrono24.com" "" "" "" "").
Proof. reflexivity. Qed.

Lemma origin_tail_app (a b : string) :
  origin_tail a = true -> a <> "" -> origin_tail (a ++ b) = true.
Proof. destruct a; [congruence | intros Ha _; exact Ha]. Qed.

Lemma after_netloc_tail (url q frag : string) :
  origin_tail (after_netloc url q frag) = true.
Proof.
  unfold after_netloc.
  set (u1 := if nonempty url && negb (startswith url "/") then "/" ++ url else url).
  assert (H1 : origin_tail u1 = true).
  { subst u1. destruct url as [|c url]; [reflexivity|].
    destruct (startswith (String c url) "/") eqn:E; simpl.
    - unfold startswith in E. cbn [String.prefix] in E.
      destruct (ascii_dec "/" c) as [<-|]; [reflexivity | discriminate].
    - reflexivity. }
  assert (H2 : origin_tail (if nonempty q then u1 ++ "?" ++ q else u1) = true).
  { destruct (nonempty q); [|exact H1].
    destruct u1; [reflexivity | exact H1]. }
  destruct (nonempty frag); [|exact H2].
  destruct (if nonempty q then u1 ++ "?" ++ q else u1); [reflexivity | exact H2].
Qed.

Lemma urlunsplit_netloc (sch nl url q frag : string) :
  nonempty sch = true -> nonempty nl = true ->
  urlunsplit sch nl url q frag = sch ++ "://" ++ nl ++ after_netloc url q frag.
Proof.
  intros Hs Hn. unfold urlunsplit, after_netloc. rewrite Hs, Hn. simpl orb. cbv iota.
  destruct (nonempty url && negb (startswith url "/"));
    destruct (nonempty q); destruct (nonempty frag);
    rewrite ?append_assoc; reflexivity.
Qed.

Lemma urlunparse_netloc (p : ParseResult) :
  nonempty (scheme p) = true -> nonempty (netloc p) = true ->
  exists tail, urlunparse p = scheme p ++ "://" ++ netloc p ++ tail
               /\ origin_tail tail = true.
Proof.
  intros Hs Hn. unfold urlunparse. rewrite urlunsplit_netloc by assumption.
  eexists; split; [reflexivity | apply after_netloc_tail].
Qed.

(** What [urljoin] does with the base origin, case by case. *)
Lemma urljoin_base (w v : string) :
  urljoin BASE_URL w = Some v ->
  (w = "" /\ v = BASE_URL)
  \/ exists u, urlparse w "https" = Some u
       /\ ((scheme u <> "https" /\ v = w)
           \/ (scheme u = "https" /\ netloc u <> ""
               /\ exists tail, v = "https://" ++ netloc u ++ tail
                               /\ origin_tail tail = true)
           \/ (scheme u = "https" /\ netloc u = ""
               /\ exists tail, v = BASE_URL ++ tail /\ origin_tail tail = true)).
Proof.
  unfold urljoin. change (negb (nonempty BASE_URL)) with false. cbv iota.
  destruct (nonempty w) eqn:Hw; simpl negb; cbv iota.
  2: { intros [= <-]. left. split; [now apply nonempty_false | reflexivity]. }
  rewrite urlparse_base. cbn [scheme netloc path params query fragment].
  destruct (urlparse w "https") as [u|] eqn:Hu; [|discriminate].
  intros Hv. right. exists u. split; [reflexivity|].
  destruct (String.eqb (scheme u) "https") eqn:Hs.
  2: { cbn [negb orb] in Hv. injection Hv as <-. left.
       split; [now apply String.eqb_neq | reflexivity]. }
  apply String.eqb_eq in Hs. rewrite Hs in Hv.
  change (mem "https" uses_relative) with true in Hv.
  change (mem "https" uses_netloc) with true in Hv.
  cbn [negb orb andb] in Hv.
  destruct (nonempty (netloc u)) eqn:Hn.
  - injection Hv as <-. right; left. split; [assumption|].
    split; [now apply nonempty_true|].
    destruct (urlunparse_netloc u) as (tail & -> & Ht);
      [now rewrite Hs | assumption |].
    exists tail. now rewrite Hs.
  - right; right. split; [assumption|]. split; [now apply nonempty_false|].
    assert (Hp : exists p, v = urlunparse p /\ scheme p = "https"
                           /\ netloc p = "www.chrono24.com").
    { destruct (negb (nonempty (path u)) && negb (nonempty (params u)));
        injection Hv as <-; eexists; (split; [reflexivity|]); split; reflexivity. }
    destruct Hp as (p & -> & Hps & Hpn).
    destruct (urlunparse_netloc p) as (tail & -> & Ht);
      [now rewrite Hps | now rewrite Hpn |].
    exists tail. rewrite Hps, Hpn. split; [reflexivity | assumption].
Qed.

Lemma make_absolute_url_http (url : string) :
  startswith url "http://" = true \/ startswith url "https://" = true ->
  make_absolute_url url = Some url.
Proof.
  intros Hp. unfold make_absolute_url.
  replace (startswith url "http://" || startswith url "https://") with true;
    [reflexivity|].
  symmetry. apply orb_true_iff. exact Hp.
Qed.

(** Every URL [make_absolute_url] returns is one it leaves alone. *)
Lemma make_absolute_url_fixed (url v : string) :
  make_absolute_url url = Some v -> make_absolute_url v = Some v.
Proof.
  intros Hv. pose proof Hv as Hv0. unfold make_absolute_url in Hv.
  destruct (startswith url "http://" || startswith url "https://") eqn:Hp;
    cbn [negb] in Hv; cbv iota in Hv.
  { injection Hv as <-. exact Hv0. }
  destruct (urljoin_base _ _ Hv) as [[_ ->] | (u & Hu & [[Hs ->] | [(Hs & Hn & tail & -> & Ht) | (Hs & Hn & tail & -> & Ht)]])].
  - reflexivity.
  - unfold make_absolute_url.
    destruct (startswith (lstrip_chars "/" url) "http://"
              || startswith (lstrip_chars "/" url) "https://") eqn:Hq;
      cbn [negb]; cbv iota; [reflexivity|].
    unfold lstrip_chars in *. rewrite lstrip_by_idem. exact Hv.
  - apply make_absolute_url_http. right. apply str_prefix_refl_app.
  - apply make_absolute_url_http. right.
    unfold startswith. apply str_prefix_app. reflexivity.
Qed.

End AbsoluteFacts.

(** * Parsing a pagination URL back *)

Section CharFacts.
Import Py urllib.

Lemma forall_chars_app p (a b : string) :
  forall_chars p (a ++ b) = forall_chars p a && forall_chars p b.
Proof.
  induction a as [|c a IH]; [reflexivity|].
  rewrite append_cons. cbn [forall_chars]. now rewrite IH, andb_assoc.
Qed.

Lemma contains_char_app c (a b : string) :
  contains_char c (a ++ b) = contains_char c a || contains_char c b.
Proof.
  induction a as [|d a IH]; [reflexivity|].
  rewrite append_cons. cbn [contains_char]. now rewrite IH, orb_assoc.
Qed.

Lemma forall_chars_impl (p q : ascii -> bool) (s : string) :
  (forall c, p c = true -> q c = true) ->
  forall_chars p s = true -> forall_chars q s = true.
Proof.
  intros Hpq. induction s as [|c s IH]; [reflexivity|]. cbn [forall_chars].
  rewrite !andb_true_iff. intros [Hc Hs]. split; auto.
Qed.

Lemma forall_chars_not_contains (p : ascii -> bool) (c : ascii) (s : string) :
  p c = false -> forall_chars p s = true -> contains_char c s = false.
Proof.
  intros Hc. induction s as [|d s IH]; [reflexivity|]. cbn [forall_chars contains_char].
  rewrite andb_true_iff. intros [Hd Hs]. rewrite (IH Hs), orb_false_r.
  destruct (Ascii.eqb_spec c d) as [->|]; [congruence | reflexivity].
Qed.

Lemma filter_chars_all p (s : string) : forall_chars p (filter_chars p s) = true.
Proof.
  induction s as [|c s IH]; [reflexivity|]. cbn [filter_chars].
  destruct (p c) eqn:Hc; [|exact IH]. cbn [forall_chars]. now rewrite Hc, IH.
Qed.

Lemma filter_chars_id p (s : string) :
  forall_chars p s = true -> filter_chars p s = s.
Proof.
  induction s as [|c s IH]; [reflexivity|]. cbn [forall_chars filter_chars].
  rewrite andb_true_iff. intros [-> Hs]. now rewrite IH.
Qed.

Lemma partition_char_spec c (s a b : string) :
  partition_char c s = Some (a, b) ->
  s = a ++ String c b /\ contains_char c a = false.
Proof.
  revert a. induction s as [|d s IH]; intros a; cbn [partition_char]; [discriminate|].
  destruct (Ascii.eqb_spec d c) as [->|Hne].
  - intros [= <- <-]. now split.
  - destruct (partition_char c s) as [[a' b']|]; [|discriminate].
    intros [= <- <-]. destruct (IH a' eq_refl) as [-> Ha]. split; [reflexivity|].
    cbn [contains_char]. rewrite Ha, orb_false_r.
    destruct (Ascii.eqb_spec c d); congruence.
Qed.

Lemma partition_char_app c (a b : string) :
  contains_char c a = false -> partition_char c (a ++ String c b) = Some (a, b).
Proof.
  induction a as [|d a IH]; intros Ha.
  - rewrite append_nil_l. cbn [partition_char]. now rewrite Ascii.eqb_refl.
  - rewrite append_cons. cbn [partition_char contains_char] in *.
    apply orb_false_iff in Ha as [Hd Ha]. rewrite Ascii.eqb_sym, Hd.
    now rewrite (IH Ha).
Qed.

Lemma partition_char_none c (s : string) :
  contains_char c s = false -> partition_char c s = None.
Proof.
  induction s as [|d s IH]; [reflexivity|]. cbn [partition_char contains_char].
  intros Hs. apply orb_false_iff in Hs as [Hd Hs].
  rewrite Ascii.eqb_sym, Hd. now rewrite (IH Hs).
Qed.

Lemma span_until_spec p (s : string) :
  s = fst (span_until p s) ++ snd (span_until p s)
  /\ forall_chars (fun c => negb (p c)) (fst (span_until p s)) = true
  /\ stops_at p (snd (span_until p s)).
Proof.
  induction s as [|c s IH]; [now repeat split|]. cbn [span_until].
  destruct (p c) eqn:Hc; [now repeat split|].
  destruct (span_until p s) as [a b]. cbn [fst snd] in *.
  destruct IH as (Hs & Ha & Hb). repeat split; [|now cbn; rewrite Hc, Ha | exact Hb].
  rewrite append_cons. now f_equal.
Qed.

Lemma span_until_app p (a b : string) :
  forall_chars (fun c => negb (p c)) a = true -> stops_at p b ->
  span_until p (a ++ b) = (a, b).
Proof.
  intros Ha Hb. induction a as [|c a IH].
  - rewrite append_nil_l. destruct b as [|d b]; [reflexivity|].
    cbn [span_until]. cbn in Hb. now rewrite Hb.
  - rewrite append_cons. cbn [forall_chars span_until] in *.
    apply andb_true_iff in Ha as [Hc Ha]. apply negb_true_iff in Hc.
    rewrite Hc. now rewrite (IH Ha).
Qed.

Lemma lstrip_by_head p c (s : string) :
  p c = false -> lstrip_by p (String c s) = String c s.
Proof. intros Hc. cbn. now rewrite Hc. Qed.

End CharFacts.

Section UrlsplitFacts.
Context `{urllib.NetlocCheck}.
Import Py urllib.

Ltac all_chars c :=
  destruct c as [b0 b1 b2 b3 b4 b5 b6 b7];
  destruct b0, b1, b2, b3, b4, b5, b6, b7.

Lemma scheme_char_facts c :
  scheme_char c = true ->
  safe_char c = true /\ Ascii.eqb ":" c = false /\ delim_char c = false
  /\ scheme_char (lower_char c) = true
  /\ lower_char (lower_char c) = lower_char c.
Proof.
  all_chars c; intros Hc; vm_compute in Hc; try discriminate Hc;
    repeat split; reflexivity.
Qed.

Lemma alpha_lower_char c : is_alpha c = true -> is_alpha (lower_char c) = true.
Proof. all_chars c; intros Hc; vm_compute in Hc; try discriminate Hc; reflexivity. Qed.

Lemma alpha_not_space c : is_alpha c = true -> is_c0_or_space c = false.
Proof. all_chars c; intros Hc; vm_compute in Hc; try discriminate Hc; reflexivity. Qed.

Lemma digit_path_char c :
  is_digit c || Ascii.eqb c "-" = true -> path_char c = true.
Proof. all_chars c; intros Hc; vm_compute in Hc; try discriminate Hc; reflexivity. Qed.

Lemma lower_scheme (s : string) :
  forall_chars scheme_char s = true ->
  forall_chars scheme_char (lower s) = true /\ lower (lower s) = lower s.
Proof.
  induction s as [|c s IH]; [now split|]. cbn [forall_chars lower map_chars].
  rewrite andb_true_iff. intros [Hc Hs]. destruct (IH Hs) as [IH1 IH2].
  destruct (scheme_char_facts c Hc) as (_ & _ & _ & Hl & Hi).
  unfold lower in *. rewrite Hl, IH1, Hi, IH2. now split.
Qed.

Lemma split_scheme_spec (s sch rest : string) :
  split_scheme s "" = (sch, rest) ->
  scheme_ok sch /\ exists pre, s = pre ++ rest.
Proof.
  unfold split_scheme.
  destruct (partition_char ":" s) as [[[|c0 cand] rest']|] eqn:Hp.
  - intros [= <- <-]. split; [now left | now exists ""].
  - destruct (is_alpha c0 && forall_chars scheme_char (String c0 cand)) eqn:Hc.
    + intros [= <- <-]. apply andb_true_iff in Hc as [Ha Hc].
      destruct (lower_scheme _ Hc) as [Hl Hi]. split.
      * right. split; [|split; assumption].
        exists (lower_char c0), (map_chars lower_char cand).
        split; [reflexivity | now apply alpha_lower_char].
      * apply partition_char_spec in Hp as [-> _].
        exists (String c0 cand ++ ":"). now rewrite append_assoc.
    + intros [= <- <-]. split; [now left | now exists ""].
  - intros [= <- <-]. split; [now left | now exists ""].
Qed.

Lemma split_netloc_spec (s nl rest : string) :
  split_netloc s = (nl, rest) ->
  forall_chars (fun c => negb (delim_char c)) nl = true
  /\ (exists pre, s = pre ++ nl ++ rest)
  /\ (nl <> "" -> stops_at delim_char rest).
Proof.
  unfold split_netloc.
  assert (Hdef : (EmptyString, s) = (nl, rest) ->
            forall_chars (fun c => negb (delim_char c)) nl = true
            /\ (exists pre, s = pre ++ nl ++ rest)
            /\ (nl <> "" -> stops_at delim_char rest)).
  { intros [= <- <-]. split; [reflexivity|]. split; [now exists ""|]. congruence. }
  destruct s as [|c1 s]; [exact Hdef|].
  all_chars c1; try exact Hdef.
  destruct s as [|c2 r]; [exact Hdef|].
  all_chars c2; try exact Hdef.
  intros Hs. destruct (span_until_spec (fun c => contains_char c "/?#") r) as (Hr & Ha & Hb).
  rewrite Hs in Hr, Ha, Hb. cbn [fst snd] in *.
  split; [exact Ha|]. split; [exists "//"; now rewrite Hr | intros _; exact Hb].
Qed.

Lemma partition_char_none_inv c (s : string) :
  partition_char c s = None -> contains_char c s = false.
Proof.
  induction s as [|d s IH]; [reflexivity|]. cbn [partition_char contains_char].
  destruct (Ascii.eqb_spec d c) as [->|Hne]; [discriminate|].
  destruct (partition_char c s) as [[a b]|]; [discriminate|].
  intros _. rewrite IH by reflexivity. rewrite orb_false_r.
  destruct (Ascii.eqb_spec c d); congruence.
Qed.

Lemma split_once_spec c (s a b : string) :
  split_once c s = (a, b) ->
  contains_char c a = false /\ (exists post, s = a ++ post) /\ (exists pre, s = pre ++ b).
Proof.
  unfold split_once. destruct (partition_char c s) as [[a' b']|] eqn:Hp.
  - intros [= <- <-]. apply partition_char_spec in Hp as [-> Ha].
    split; [exact Ha|]. split; [now eexists|].
    exists (a' ++ String c ""). now rewrite append_assoc.
  - intros [= <- <-]. apply partition_char_none_inv in Hp.
    split; [exact Hp|].
    split; [exists "" | exists s]; now rewrite append_nil_r.
Qed.

Lemma safe_parts (a b : string) :
  forall_chars safe_char (a ++ b) = true ->
  forall_chars safe_char a = true /\ forall_chars safe_char b = true.
Proof. rewrite forall_chars_app. apply andb_true_iff. Qed.

Lemma forall_chars_and (p q : ascii -> bool) (s : string) :
  forall_chars p s = true -> forall_chars q s = true ->
  forall_chars (fun c => p c && q c) s = true.
Proof.
  induction s as [|c s IH]; [reflexivity|]. cbn [forall_chars].
  rewrite !andb_true_iff. intros [-> Hp] [-> Hq]. split; [now split | auto].
Qed.

Lemma not_contains_forall c (s : string) :
  contains_char c s = false -> forall_chars (fun d => negb (Ascii.eqb d c)) s = true.
Proof.
  induction s as [|d s IH]; [reflexivity|]. cbn [forall_chars contains_char].
  intros Hs. apply orb_false_iff in Hs as [Hd Hs].
  rewrite Ascii.eqb_sym, Hd. now rewrite (IH Hs).
Qed.

Lemma stops_at_prefix (p : ascii -> bool) (a post : string) :
  stops_at p (a ++ post) -> a <> "" -> stops_at p a.
Proof. destruct a; [congruence | intros Hs _; exact Hs]. Qed.

Lemma urlsplit_ok (url : string) (r : SplitResult) :
  urlsplit url "" = Some r -> split_ok r.
Proof.
  unfold urlsplit.
  change (filter_chars (fun c => negb (is_unsafe c)) (strip_by is_c0_or_space "")) with "".
  set (s0 := filter_chars (fun c => negb (is_unsafe c)) (lstrip_by is_c0_or_space url)).
  assert (Hs0 : forall_chars safe_char s0 = true) by apply filter_chars_all.
  clearbody s0.
  destruct (split_scheme s0 "") as [sch rest1] eqn:E1.
  destruct (split_netloc rest1) as [nl rest2] eqn:E2.
  destruct (netloc_ok nl) eqn:Hok; [|discriminate].
  destruct (split_once "#" rest2) as [p1 frag] eqn:E3.
  destruct (split_once "?" p1) as [pth q] eqn:E4.
  intros [= <-].
  apply split_scheme_spec in E1 as (Hsch & pre1 & ->).
  apply safe_parts in Hs0 as [_ Hrest1].
  apply split_netloc_spec in E2 as (Hnl & (pre2 & ->) & Hstop).
  apply safe_parts in Hrest1 as [_ Hrest1].
  apply safe_parts in Hrest1 as [Hnl' Hrest2].
  apply split_once_spec in E3 as (Hp1 & (post3 & Hpost3) & (pre3 & Hpre3)).
  pose proof Hrest2 as Hp1s. rewrite Hpost3 in Hp1s. apply safe_parts in Hp1s as [Hp1s _].
  apply split_once_spec in E4 as (Hpth & (post4 & Hpost4) & (pre4 & Hpre4)).
  pose proof Hp1s as Hpths. rewrite Hpost4 in Hpths. apply safe_parts in Hpths as [Hpths _].
  pose proof Hp1s as Hqs. rewrite Hpre4 in Hqs. apply safe_parts in Hqs as [_ Hqs].
  assert (Hp1' : contains_char "#" pth = false /\ contains_char "#" q = false).
  { rewrite Hpost4 in Hp1.
    assert (Hq : contains_char "#" q = false).
    { apply (forall_chars_not_contains (fun d => negb (Ascii.eqb d "#"))); [reflexivity|].
      pose proof (not_contains_forall _ _ Hp1) as Hf. rewrite <- Hpost4 in Hf.
      rewrite Hpre4, forall_chars_app in Hf. now apply andb_true_iff in Hf. }
    split; [|exact Hq].
    apply (forall_chars_not_contains (fun d => negb (Ascii.eqb d "#"))); [reflexivity|].
    pose proof (not_contains_forall _ _ Hp1) as Hf.
    rewrite forall_chars_app in Hf. now apply andb_true_iff in Hf. }
  destruct Hp1' as [Hpth' Hq'].
  constructor; cbn [s_scheme s_netloc s_path s_query s_fragment].
  - exact Hsch.
  - unfold host_char. now apply forall_chars_and.
  - exact Hok.
  - unfold path_char.
    apply forall_chars_and; [apply forall_chars_and; [exact Hpths|]|];
      now apply not_contains_forall.
  - unfold query_char. apply forall_chars_and; [exact Hqs|].
    now apply not_contains_forall.
  - intros Hne. specialize (Hstop Hne).
    destruct pth as [|c pth]; [exact I|].
    rewrite Hpost3, Hpost4 in Hstop. rewrite !append_cons in Hstop. cbn in Hstop.
    cbn [contains_char] in Hpth, Hpth'. apply orb_false_iff in Hpth as [Hc1 _].
    apply orb_false_iff in Hpth' as [Hc2 _].
    change (Ascii.eqb "/" c = true).
    unfold delim_char in Hstop. cbn [contains_char] in Hstop.
    rewrite (Ascii.eqb_sym c "?"), Hc1, (Ascii.eqb_sym c "#"), Hc2 in Hstop.
    rewrite !orb_false_r in Hstop. now rewrite Ascii.eqb_sym.
Qed.

End UrlsplitFacts.

Section ParseBack.
Context `{urllib.NetlocCheck}.
Import Py urllib.

Lemma rpartition_char_spec c (s a b : string) :
  rpartition_char c s = Some (a, b) -> s = a ++ String c b.
Proof.
  revert a. induction s as [|d s IH]; intros a; cbn [rpartition_char]; [discriminate|].
  destruct (rpartition_char c s) as [[a' b']|].
  - intros [= <- <-]. now rewrite (IH a' eq_refl).
  - destruct (Ascii.eqb_spec d c) as [->|]; [|discriminate].
    now intros [= <- <-].
Qed.

Lemma take_prefix n (s : string) : exists t, s = take n s ++ t.
Proof.
  revert s. induction n as [|n IH]; intros s; [now exists s|].
  destruct s as [|c s]; [now exists ""|].
  destruct (IH s) as [t Ht]. exists t. cbn [take]. rewrite append_cons. now f_equal.
Qed.

Lemma splitparams_prefix (url : string) :
  exists t, url = fst (_splitparams url) ++ t.
Proof.
  unfold _splitparams.
  destruct (rpartition_char "/" url) as [[head last]|] eqn:Hr.
  - apply rpartition_char_spec in Hr as ->.
    destruct (partition_char ";" last) as [[a b]|] eqn:Hp; cbn [fst].
    + apply partition_char_spec in Hp as [-> _]. exists (String ";" b).
      now rewrite !append_assoc.
    + exists "". now rewrite append_nil_r.
  - destruct (partition_char ";" url) as [[a b]|] eqn:Hp; cbn [fst].
    + apply partition_char_spec in Hp as [-> _]. now eexists.
    + apply take_prefix.
Qed.

Lemma urlparse_ok (url : string) (p : ParseResult) :
  urlparse url "" = Some p -> parse_ok p.
Proof.
  unfold urlparse. destruct (urlsplit url "") as [r|] eqn:Hr; [|discriminate].
  apply urlsplit_ok in Hr. destruct Hr as [Hs Hn Hc Hp Hq Hroot].
  assert (Hpre : forall pth, (exists t, s_path r = pth ++ t) ->
            forall_chars path_char pth = true
            /\ (s_netloc r <> "" -> stops_at (Ascii.eqb "/") pth)).
  { intros pth [t Ht]. rewrite Ht, forall_chars_app in Hp.
    apply andb_true_iff in Hp as [Hp _]. split; [exact Hp|].
    intros Hne. specialize (Hroot Hne). rewrite Ht in Hroot.
    destruct pth; [exact I | exact Hroot]. }
  destruct (mem (s_scheme r) uses_params && contains_char ";" (s_path r)).
  - pose proof (splitparams_prefix (s_path r)) as Hsp.
    destruct (_splitparams (s_path r)) as [pth prm]. cbn [fst] in Hsp.
    intros [= <-]. destruct (Hpre pth Hsp) as [H1 H2].
    now constructor.
  - intros [= <-]. now constructor.
Qed.

(** ** The digits of a page number *)

Lemma string_of_uint_digits (d : Decimal.uint) :
  forall_chars digit_char (NilEmpty.string_of_uint d) = true.
Proof. induction d; cbn; auto. Qed.

Lemma str_of_int_digits (n : Z) : forall_chars digit_char (str_of_int n) = true.
Proof.
  unfold str_of_int, NilZero.string_of_int, NilZero.string_of_uint.
  destruct (Z.to_int n) as [d|d]; destruct d; try reflexivity;
    cbn [forall_chars]; try (rewrite string_of_uint_digits; reflexivity);
    apply (string_of_uint_digits (_ _)).
Qed.

End ParseBack.

Section ParseBack2.
Context `{urllib.NetlocCheck}.
Import Py urllib.

Lemma scheme_ok_parts (sch : string) :
  scheme_ok sch -> sch <> "" ->
  (exists c0 rest, sch = String c0 rest /\ is_alpha c0 = true)
  /\ forall_chars scheme_char sch = true /\ lower sch = sch
  /\ forall_chars safe_char sch = true /\ contains_char ":" sch = false.
Proof.
  intros [->|(Hhead & Hall & Hlow)] Hne; [congruence|].
  split; [exact Hhead|]. split; [exact Hall|]. split; [exact Hlow|]. split.
  - eapply forall_chars_impl; [|exact Hall]. intros c Hc.
    now destruct (scheme_char_facts c Hc).
  - apply (forall_chars_not_contains scheme_char); [reflexivity | exact Hall].
Qed.

Lemma split_scheme_assembled (sch rest : string) :
  scheme_ok sch -> sch <> "" ->
  split_scheme (sch ++ String ":" rest) "" = (sch, rest).
Proof.
  intros Hok Hne.
  destruct (scheme_ok_parts sch Hok Hne) as ((c0 & r0 & Hs & Ha) & Hall & Hlow & _ & Hcolon).
  unfold split_scheme. rewrite (partition_char_app ":" sch rest Hcolon).
  rewrite Hs in *. now rewrite Ha, Hall, Hlow.
Qed.

Lemma split_netloc_assembled (nl tail : string) :
  forall_chars host_char nl = true -> stops_at delim_char tail ->
  split_netloc ("//" ++ nl ++ tail) = (nl, tail).
Proof.
  intros Hnl Htail. change (split_netloc ("//" ++ nl ++ tail))
    with (span_until (fun c => contains_char c "/?#") (nl ++ tail)).
  apply span_until_app; [|exact Htail].
  eapply forall_chars_impl; [|exact Hnl]. intros c Hc.
  unfold host_char in Hc. now apply andb_true_iff in Hc as [_ Hc].
Qed.

(** [urlsplit] on a URL put together from a scheme, a network location
    and a tail that is a rooted path with, maybe, a query. *)
Lemma urlsplit_assembled (sch nl tail : string) :
  scheme_ok sch -> sch <> "" ->
  forall_chars host_char nl = true -> netloc_ok nl = true ->
  forall_chars safe_char tail = true -> contains_char "#" tail = false ->
  stops_at delim_char tail ->
  urlsplit (sch ++ "://" ++ nl ++ tail) "" =
    Some (mkSplit sch nl (fst (split_once "?" tail)) (snd (split_once "?" tail)) "").
Proof.
  intros Hok Hne Hnl Hcheck Htail Hfrag Hstop.
  destruct (scheme_ok_parts sch Hok Hne) as ((c0 & r0 & Hs & Ha) & Hall & Hlow & Hsafe & Hcolon).
  set (u := sch ++ "://" ++ nl ++ tail).
  assert (Hu1 : lstrip_by is_c0_or_space u = u).
  { subst u. rewrite Hs, append_cons. apply lstrip_by_head. now apply alpha_not_space. }
  assert (Hu2 : filter_chars (fun c => negb (is_unsafe c)) u = u).
  { apply filter_chars_id. change (forall_chars safe_char u = true). subst u.
    rewrite !forall_chars_app, Hsafe, Htail, andb_true_r.
    change (forall_chars safe_char "://") with true. cbn [andb].
    eapply forall_chars_impl; [|exact Hnl]. intros c Hc.
    unfold host_char in Hc. now apply andb_true_iff in Hc as [Hc _]. }
  unfold urlsplit.
  change (filter_chars (fun c => negb (is_unsafe c)) (strip_by is_c0_or_space "")) with "".
  rewrite Hu1, Hu2. subst u.
  change (sch ++ "://" ++ nl ++ tail) with (sch ++ String ":" ("//" ++ nl ++ tail)).
  rewrite (split_scheme_assembled sch _ Hok Hne).
  rewrite (split_netloc_assembled nl tail Hnl Hstop), Hcheck.
  unfold split_once at 1. rewrite (partition_char_none "#" tail Hfrag).
  destruct (split_once "?" tail) as [p q]. reflexivity.
Qed.

Lemma path_char_facts c :
  path_char c = true ->
  safe_char c = true /\ Ascii.eqb "?" c = false /\ Ascii.eqb "#" c = false.
Proof.
  unfold path_char. rewrite !andb_true_iff, !negb_true_iff.
  intros [[Hs Hq] Hh]. rewrite (Ascii.eqb_sym "?"), (Ascii.eqb_sym "#"). now repeat split.
Qed.

Lemma query_char_facts c :
  query_char c = true -> safe_char c = true /\ Ascii.eqb "#" c = false.
Proof.
  unfold query_char. rewrite !andb_true_iff, !negb_true_iff.
  intros [Hs Hh]. rewrite (Ascii.eqb_sym "#"). now split.
Qed.

(** Parsing [paged p new_path] gives back the scheme, the network
    location and the query of [p], and [new_path] as the split path. *)
Lemma urlsplit_paged (p : ParseResult) (new_path : string) :
  parse_ok p -> scheme p <> "" ->
  forall_chars path_char new_path = true ->
  (exists rest, new_path = String "/" rest) ->
  urlsplit (paged p new_path) "" =
    Some (mkSplit (scheme p) (netloc p) new_path (query p) "").
Proof.
  intros [Hs Hn Hc Hp Hq Hroot] Hne Hpath (rest & Hrest).
  assert (Hpsafe : forall_chars safe_char new_path = true).
  { eapply forall_chars_impl; [|exact Hpath]. intros c Hc'.
    now destruct (path_char_facts c Hc'). }
  assert (Hpq : contains_char "?" new_path = false).
  { apply (forall_chars_not_contains path_char); [reflexivity | exact Hpath]. }
  assert (Hph : contains_char "#" new_path = false).
  { apply (forall_chars_not_contains path_char); [reflexivity | exact Hpath]. }
  assert (Hstop : forall t, stops_at delim_char (new_path ++ t)).
  { intros t. rewrite Hrest, append_cons. reflexivity. }
  unfold paged. destruct (nonempty (query p)) eqn:Hqe.
  - rewrite !append_assoc.
    change (scheme p ++ "://" ++ netloc p ++ new_path ++ "?" ++ query p)
      with (scheme p ++ "://" ++ netloc p ++ (new_path ++ String "?" (query p))).
    rewrite urlsplit_assembled; try assumption.
    + unfold split_once. now rewrite (partition_char_app "?" new_path (query p) Hpq).
    + rewrite forall_chars_app, Hpsafe. cbn [andb forall_chars].
      change (safe_char "?") with true. cbn [andb].
      eapply forall_chars_impl; [|exact Hq]. intros c Hc'.
      now destruct (query_char_facts c Hc').
    + rewrite contains_char_app, Hph. cbn [contains_char orb].
      apply (forall_chars_not_contains query_char); [reflexivity | exact Hq].
    + apply Hstop.
  - apply nonempty_false in Hqe. rewrite Hqe.
    rewrite urlsplit_assembled; try assumption.
    + unfold split_once. now rewrite (partition_char_none "?" new_path Hpq).
    + specialize (Hstop ""). now rewrite append_nil_r in Hstop.
Qed.

End ParseBack2.

Section ParseBack3.
Context `{urllib.NetlocCheck}.
Import Py urllib.

Lemma rooted_head (s : string) :
  stops_at (Ascii.eqb "/") s -> s <> "" -> exists rest, s = String "/" rest.
Proof.
  destruct s as [|c s]; [congruence|]. intros Hc _.
  change (Ascii.eqb "/" c = true) in Hc.
  apply Ascii.eqb_eq in Hc. subst c. now exists s.
Qed.

Lemma rooted_app (s t : string) :
  (exists rest, s = String "/" rest) -> exists rest, s ++ t = String "/" rest.
Proof. intros [rest ->]. exists (rest ++ t). now rewrite append_cons. Qed.

Lemma page_suffix_chars (pre : string) (n : Z) :
  forall_chars path_char pre = true ->
  forall_chars path_char (pre ++ str_of_int n ++ ".htm") = true.
Proof.
  intros Hpre. rewrite !forall_chars_app, Hpre. cbn [andb].
  rewrite (forall_chars_impl digit_char path_char _ digit_path_char (str_of_int_digits n)).
  reflexivity.
Qed.

(** The new path of a page other than 1, for a base with a network
    location: made of path characters, and rooted. *)
Lemma new_path_ok (p : ParseResult) (n : Z) :
  parse_ok p -> netloc p <> "" ->
  let path := urllib.path p in
  let new_path :=
    if endswith path "index.htm" then
      drop_last 9 path ++ "index-" ++ str_of_int n ++ ".htm"
    else if endswith path "/" then path ++ "index-" ++ str_of_int n ++ ".htm"
    else path ++ "/index-" ++ str_of_int n ++ ".htm" in
  forall_chars path_char new_path = true /\ exists rest, new_path = String "/" rest.
Proof.
  intros [Hs Hn Hc Hp Hq Hroot] Hne path new_path. specialize (Hroot Hne).
  fold path in Hp, Hroot. subst new_path.
  destruct (endswith path "index.htm") eqn:E1.
  - apply endswith_inv in E1 as [d Hd]. rewrite Hd.
    change 9%nat with (String.length "index.htm"). rewrite drop_last_app.
    rewrite Hd, forall_chars_app in Hp. apply andb_true_iff in Hp as [Hp _].
    split.
    + rewrite <- append_assoc. apply page_suffix_chars.
      rewrite forall_chars_app, Hp. reflexivity.
    + apply rooted_app. destruct d as [|c d].
      * rewrite Hd in Hroot. discriminate Hroot.
      * rewrite Hd, append_cons in Hroot.
        change (Ascii.eqb "/" c = true) in Hroot.
        apply Ascii.eqb_eq in Hroot. subst c. now exists d.
  - destruct (endswith path "/") eqn:E2.
    + split.
      * rewrite <- append_assoc. apply page_suffix_chars.
        rewrite forall_chars_app, Hp. reflexivity.
      * apply rooted_app, (rooted_head _ Hroot).
        apply endswith_inv in E2 as [d ->]. destruct d; discriminate.
    + split.
      * rewrite <- append_assoc. apply page_suffix_chars.
        rewrite forall_chars_app, Hp. reflexivity.
      * destruct path as [|c path'] eqn:Epath; [now eexists|].
        apply rooted_app, (rooted_head _ Hroot). discriminate.
Qed.

(** Scheme, host and query survive: parsing the URL of a page other
    than 1 of an absolute base URL gives the scheme, the network location
    and the query that parsing the base gives. *)
Lemma get_pagination_url_parses_back (base_url u : string) (p : ParseResult) (n : Z) :
  urlparse base_url "" = Some p -> scheme p <> "" -> netloc p <> "" ->
  n <> 1%Z -> get_pagination_url base_url n = Some u ->
  exists p', urlparse u "" = Some p'
             /\ scheme p' = scheme p /\ netloc p' = netloc p /\ query p' = query p.
Proof.
  intros Hp Hsch Hnl Hn. unfold get_pagination_url. rewrite Hp.
  destruct (Z.eqb_spec n 1) as [|_]; [contradiction|].
  pose proof (urlparse_ok _ _ Hp) as Hok.
  destruct (new_path_ok p n Hok Hnl) as [Hchars Hrooted].
  cbv zeta in Hchars, Hrooted.
  match type of Hchars with
  | forall_chars _ ?np = _ => set (new_path := np) in *
  end.
  intros [= <-].
  unfold urlparse.
  change (urlsplit _ "") with (urlsplit (paged p new_path) "").
  rewrite (urlsplit_paged p new_path Hok Hsch Hchars Hrooted).
  cbn [s_scheme s_netloc s_path s_query s_fragment].
  destruct (if mem (scheme p) uses_params && contains_char ";" new_path
            then _splitparams new_path else (new_path, "")) as [p0 prm].
  eexists. split; [reflexivity|]. now repeat split.
Qed.

End ParseBack3.

(** * Rate controller *)

Section RateFacts.
Local Open Scope Q_scope.

Lemma uniform_bounds (a b r : Q) :
  a <= b -> 0 <= r <= 1 -> a <= uniform a b r <= b.
Proof. unfold uniform. intros Hab [H0 H1]. split; nra. Qed.

Lemma base_delay_bounds (t : Q) :
  0 <= t -> 0 <= Qmin (t * (3 # 2)) 3 <= 3.
Proof.
  intros Ht. split; [apply Q.min_glb; lra | apply Q.le_min_r].
Qed.

Lemma adaptive_delay_500 (t r : Q) :
  adaptive_delay t 500 r == Qmin (t * (3 # 2)) 3 * 5 + uniform 10 15 r.
Proof. reflexivity. Qed.

End RateFacts.

(** * Progress store *)

Lemma load_progress_parsed (brand_name : string) (d : Disk) (p : Progress.t) :
  progress_files d !! progress_path brand_name = Some (Parsed p) ->
  load_progress brand_name d = (p, []).
Proof. intros Hf. unfold load_progress. now rewrite Hf. Qed.

Lemma load_save_progress (brand_name : string) (p : Progress.t) (d : Disk) :
  load_progress brand_name (save_progress brand_name p d) = (p, []).
Proof.
  apply load_progress_parsed. unfold save_progress. simpl.
  apply lookup_insert_eq.
Qed.

(** * Dataset store *)

Section DatasetFacts.
Implicit Types (d : Disk) (ws : list Watch.t) (f : string).

Lemma is_new_false existing w :
  is_new existing w = false <-> Watch.url w ∈ Watch.url <$> existing.
Proof.
  unfold is_new. rewrite negb_false_iff, bool_decide_eq_true.
  apply elem_of_list_to_set.
Qed.

Lemma is_new_true existing w :
  is_new existing w = true <-> Watch.url w ∉ Watch.url <$> existing.
Proof.
  unfold is_new. rewrite negb_true_iff, bool_decide_eq_false.
  now rewrite elem_of_list_to_set.
Qed.

(** [save_watches_to_json] in terms of the records the file holds. *)
Lemma save_watches_to_json_unfold ws f d :
  fst (save_watches_to_json ws f d) =
    match List.filter (is_new (stored_watches f d)) ws with
    | [] => d
    | new_watches =>
        mkDisk (progress_files d)
               (<[f := Parsed (stored_watches f d ++ new_watches)%list]> (watch_files d))
               (writes d ++ [f])%list
    end.
Proof.
  unfold save_watches_to_json, stored_watches, is_new.
  destruct (watch_files d !! f) as [[|existing]|]; simpl;
    match goal with |- context [List.filter ?g ws] => destruct (List.filter g ws) end;
    reflexivity.
Qed.

Lemma stored_after_write f d (content : list Watch.t) pf wr :
  stored_watches f (mkDisk pf (<[f := Parsed content]> (watch_files d)) wr) = content.
Proof. unfold stored_watches. simpl. now rewrite lookup_insert_eq. Qed.

(** Appended, never rewritten: the records stored before are a prefix
    of the records stored after. *)
Lemma save_watches_to_json_stored ws f d :
  stored_watches f (fst (save_watches_to_json ws f d))
  = (stored_watches f d ++ List.filter (is_new (stored_watches f d)) ws)%list.
Proof.
  rewrite save_watches_to_json_unfold.
  destruct (List.filter _ ws) eqn:E.
  - now rewrite app_nil_r.
  - now rewrite stored_after_write.
Qed.

(** No new URL, no write: the disk is left as it was. *)
Lemma save_watches_to_json_present ws f d :
  (forall w, w ∈ ws -> Watch.url w ∈ stored_urls f d) ->
  fst (save_watches_to_json ws f d) = d.
Proof.
  intros Hall. rewrite save_watches_to_json_unfold.
  replace (List.filter (is_new (stored_watches f d)) ws) with (@nil Watch.t);
    [reflexivity|].
  symmetry. induction ws as [|w ws IH]; [reflexivity|]. simpl.
  assert (Hw : is_new (stored_watches f d) w = false).
  { apply is_new_false. apply Hall. left. }
  rewrite Hw. apply IH. intros w' Hw'. apply Hall. now right.
Qed.

Lemma filter_elem (g : Watch.t -> bool) ws w :
  w ∈ List.filter g ws <-> w ∈ ws /\ g w = true.
Proof.
  rewrite !list_elem_of_In. apply filter_In.
Qed.


(** One record per URL is kept by a batch that itself names each URL once. *)
Lemma save_watches_to_json_unique ws f d :
  NoDup (stored_urls f d) -> NoDup (Watch.url <$> ws) ->
  NoDup (stored_urls f (fst (save_watches_to_json ws f d))).
Proof.
  intros Hd Hws. unfold stored_urls.
  rewrite save_watches_to_json_stored, fmap_app.
  apply NoDup_app. split; [exact Hd|]. split.
  - intros u Hu Hu'. apply list_elem_of_fmap in Hu' as (w & -> & Hw).
    apply filter_elem in Hw as [_ Hw]. apply is_new_true in Hw. now apply Hw.
  - clear Hd. induction ws as [|w ws IH]; simpl; [constructor|].
    apply NoDup_cons in Hws as [Hw Hws].
    destruct (is_new (stored_watches f d) w); [|now apply IH].
    rewrite fmap_cons. apply NoDup_cons. split; [|now apply IH].
    intros Hin. apply Hw. apply list_elem_of_fmap in Hin as (w' & -> & Hw').
    apply list_elem_of_fmap. exists w'. split; [reflexivity|].
    apply filter_elem in Hw'. tauto.
Qed.

End DatasetFacts.

(** * Specification table *)

Section SpecFacts.
Import Py.

Lemma spec_row_entry (specs : gmap string string) (row : Row) :
  spec_row specs row =
    match row_entry row with
    | Some (k, v) => <[k := v]> specs
    | None => specs
    end.
Proof.
  unfold spec_row, row_entry, row_key, row_value.
  destruct (key_cell row) as [kt|], (value_cell row) as [vt|]; try reflexivity.
  destruct (String.eqb (lower (strip kt)) "basic info"); [reflexivity|].
  destruct (String.eqb (lower (strip kt)) "description"
            && String.eqb (lower (strip (strip (strip_loader (strip vt))))) "description");
    [reflexivity|].
  destruct (nonempty (strip kt)); reflexivity.
Qed.

(** Last write wins: the value under [k] after a run of rows is that of
    the last row that stores under [k]. *)
Lemma spec_rows_last (before after : Table) (row : Row) (k v : string)
  (specs : gmap string string) :
  row_entry row = Some (k, v) ->
  (forall r v', r ∈ after -> row_entry r <> Some (k, v')) ->
  spec_rows (before ++ row :: after)%list specs !! k = Some v.
Proof.
  intros Hrow Hafter. unfold spec_rows. rewrite fold_left_app. simpl.
  set (s0 := spec_row (fold_left spec_row before specs) row).
  assert (H0 : s0 !! k = Some v).
  { subst s0. rewrite spec_row_entry, Hrow. apply lookup_insert_eq. }
  clearbody s0. revert s0 H0.
  induction after as [|r after IH]; intros s0 H0; simpl; [exact H0|].
  apply IH.
  - intros r' v' Hr'. apply Hafter. now right.
  - rewrite spec_row_entry. destruct (row_entry r) as [[k' v']|] eqn:Er; [|exact H0].
    rewrite lookup_insert_ne; [exact H0|].
    intros ->. apply (Hafter r v'); [left | exact Er].
Qed.

End SpecFacts.

Section SpecFacts2.
Import Py.

Lemma row_value_stripped vt : strip (row_value vt) = row_value vt.
Proof. unfold row_value. apply strip_idem. Qed.

Lemma row_entry_cells kt vt :
row_entry (mkRow (Some kt) (Some vt)) =
  if String.eqb (lower (row_key kt)) "basic info" then None
  else if String.eqb (lower (row_key kt)) "description"
          && String.eqb (lower (row_value vt)) "description" then None
  else if nonempty (row_key kt) then Some (row_key kt, row_value vt) else None.
Proof. unfold row_entry. simpl. now rewrite row_value_stripped. Qed.

Lemma spec_row_lookup (specs : gmap string string) (row : Row) (k : string) :
spec_row specs row !! k =
  match spec_row ∅ row !! k with
  | Some v => Some v
  | None => specs !! k
  end.
Proof.
rewrite !spec_row_entry. destruct (row_entry row) as [[k' v']|].
- destruct (decide (k' = k)) as [->|Hne].
  + now rewrite !lookup_insert_eq.
  + rewrite !lookup_insert_ne by assumption. now rewrite lookup_empty.
- now rewrite lookup_empty.
Qed.

Lemma spec_rows_keep (rows : Table) (k : string) (s : gmap string string) :
(forall r, r ∈ rows -> spec_row ∅ r !! k = None) ->
spec_rows rows s !! k = s !! k.
Proof.
revert s. induction rows as [|r rows IH]; intros s Hrows; [reflexivity|].
unfold spec_rows in *. simpl. rewrite IH.
- rewrite spec_row_lookup, Hrows; [reflexivity | left].
- intros r' Hr'. apply Hrows. now right.
Qed.

Lemma spec_rows_overwrite (before after : Table) (row : Row) (k v : string)
(specs : gmap string string) :
spec_row ∅ row !! k = Some v ->
(forall r, r ∈ after -> spec_row ∅ r !! k = None) ->
spec_rows (before ++ row :: after)%list specs !! k = Some v.
Proof.
intros Hrow Hafter. unfold spec_rows. rewrite fold_left_app. simpl.
fold (spec_rows after (spec_row (fold_left spec_row before specs) row)).
rewrite spec_rows_keep by assumption.
now rewrite spec_row_lookup, Hrow.
Qed.

End SpecFacts2.

(** * Traces of the orchestrator *)

Section TraceFacts.
Context `{urllib.NetlocCheck} (B : Browser).
Implicit Types (st : Run B) (P : Event -> Prop).

Lemma extends_refl P st : extends P st st.
Proof. exists []. split; [now rewrite app_nil_r | constructor]. Qed.

Lemma extends_trans P st1 st2 st3 :
  extends P st1 st2 -> extends P st2 st3 -> extends P st1 st3.
Proof.
  intros (e1 & H1 & F1) (e2 & H2 & F2). exists (e1 ++ e2)%list.
  split; [now rewrite H2, H1, app_assoc | now apply Forall_app].
Qed.

Lemma extends_same P st st' : trace st' = trace st -> extends P st st'.
Proof. intros Ht. exists []. split; [now rewrite app_nil_r | constructor]. Qed.

Lemma extends_emit P e st : P e -> extends P st (emit B e st).
Proof. intros He. exists [e]. split; [reflexivity | now repeat constructor]. Qed.

Lemma extends_weaken (P Q : Event -> Prop) st st' :
  (forall e, P e -> Q e) -> extends P st st' -> extends Q st st'.
Proof.
  intros HPQ (evs & Ht & HF). exists evs. split; [exact Ht|].
  eapply Forall_impl; eauto.
Qed.

Lemma sleep_uniform_extends a b st : extends is_sleep st (sleep_uniform B a b st).
Proof.
  unfold sleep_uniform. destruct (random B (world st)) as [w r].
  apply (extends_emit is_sleep (Sleep (uniform a b r)) (set_world B w st)). exact I.
Qed.

Lemma save_watches_trace ws st : trace (save_watches B ws st) = trace st.
Proof.
  unfold save_watches. now destruct (save_watches_to_json ws WATCHES_JSON (disk st)).
Qed.

(** ** Page attempts *)

(** One attempt at a listing page requests that page, once, and may
    sleep afterwards. *)
Lemma process_brand_page_once_trace brand n st u :
  get_pagination_url (Brand.url brand) n = Some u ->
  exists evs,
    trace (fst (process_brand_page_once B brand n st))
    = (trace st ++ ListingRequest n u :: evs)%list
    /\ Forall is_sleep evs.
Proof.
  intros Hu. unfold process_brand_page_once. rewrite Hu.
  destruct (goto_listing B u (world st)) as [w [| |status elapsed]];
    try (exists []; split; [reflexivity | constructor]).
  destruct (negb (status =? 200)%Z);
    [exists []; split; [reflexivity | constructor]|].
  cbn [world emit set_world].
  destruct (wait_listing B w) as [w' [| |]];
    try (exists []; split; [reflexivity | constructor]).
  cbn [world emit set_world].
  destruct (random B w') as [w'' r].
  exists [Sleep (adaptive_delay elapsed status r)].
  split; [|repeat constructor].
  cbn [fst trace emit set_world]. now rewrite <- app_assoc.
Qed.

Lemma process_brand_page_once_extends brand n st :
  extends (page_event n) st (fst (process_brand_page_once B brand n st)).
Proof.
  destruct (get_pagination_url (Brand.url brand) n) as [u|] eqn:Hu.
  - destruct (process_brand_page_once_trace brand n st u Hu) as (evs & Ht & HF).
    exists (ListingRequest n u :: evs). split; [exact Ht|].
    constructor; [reflexivity|].
    eapply Forall_impl; [exact HF|]. now intros [].
  - unfold process_brand_page_once. rewrite Hu. apply extends_refl.
Qed.

Lemma retry_loop_extends {A} P backoff (func : Run B -> Run B * Res A)
  remaining retries st :
  (forall s, extends P s (fst (func s))) -> (forall q, P (Sleep q)) ->
  extends P st (fst (retry_loop B backoff func remaining retries st)).
Proof.
  intros Hf Hs. revert retries st.
  induction remaining as [|k IH]; intros retries st; simpl; [apply extends_refl|].
  specialize (Hf st). destruct (func st) as [st1 [|a]]; simpl in *; [|exact Hf].
  eapply extends_trans; [exact Hf|].
  eapply extends_trans; [|apply IH]. apply extends_emit, Hs.
Qed.

Lemma retry_loop_step {A} backoff (func : Run B -> Run B * Res A) k retries st :
  retry_loop B backoff func (S k) retries st =
    match func st with
    | (st, Ret a) => (st, Ret a)
    | (st, Raise) =>
        retry_loop B backoff func k (retries + 1)
          (emit B (Sleep (inject_Z (backoff ^ (retries + 1)))) st)
    end.
Proof. reflexivity. Qed.

Lemma process_brand_page_extends brand n st :
  extends (page_event n) st (fst (process_brand_page B brand n st)).
Proof.
  apply retry_loop_extends; [|intros; exact I].
  intros s. apply process_brand_page_once_extends.
Qed.

(** The first event of a page attempt is the request of that page. *)
Lemma process_brand_page_first brand n st u :
  get_pagination_url (Brand.url brand) n = Some u ->
  exists evs,
    trace (fst (process_brand_page B brand n st))
    = (trace st ++ ListingRequest n u :: evs)%list
    /\ Forall (page_event n) evs.
Proof.
  intros Hu. unfold process_brand_page, with_retry. rewrite retry_loop_step.
  destruct (process_brand_page_once_trace brand n st u Hu) as (evs & Ht & HF).
  assert (HF' : Forall (page_event n) evs).
  { eapply Forall_impl; [exact HF|]. now intros []. }
  destruct (process_brand_page_once B brand n st) as [st1 [|a]]; simpl in Ht.
  - match goal with
    | |- context [retry_loop B ?b ?f ?k ?r ?s] =>
        destruct (retry_loop_extends (page_event n) b f k r s) as (evs' & Ht' & HF'')
    end.
    + intros s. apply process_brand_page_once_extends.
    + intros; exact I.
    + exists (evs ++ Sleep (inject_Z (2 ^ (0 + 1))) :: evs')%list. split.
      * rewrite Ht'. cbn [trace emit]. rewrite Ht.
        rewrite <- !app_assoc. reflexivity.
      * apply Forall_app. split; [exact HF'|]. constructor; [exact I | exact HF''].
  - exists evs. split; [exact Ht | exact HF'].
Qed.

(** ** Listing pages *)

Lemma collect_links_absolute links acc :
  Forall absolute acc -> Forall absolute (fst (collect_links links acc)).
Proof.
  revert acc. induction links as [|[h|] links IH]; intros acc Hacc; simpl; auto.
  destruct (Py.nonempty h); [|auto].
  destruct (make_absolute_url h) as [a|] eqn:Ha; [|exact Hacc].
  apply IH. apply Forall_app. split; [exact Hacc|].
  repeat constructor. exact (make_absolute_url_fixed _ _ Ha).
Qed.

Lemma probe_links_absolute children acc :
  Forall absolute acc -> Forall absolute (probe_links children acc).
Proof.
  revert acc.
  induction children as [|[|[[h|]|]] children IH]; intros acc Hacc; simpl; auto.
  destruct (Py.nonempty h); [|auto].
  destruct (make_absolute_url h) as [a|] eqn:Ha; [|exact Hacc].
  apply IH. apply Forall_app. split; [exact Hacc|].
  repeat constructor. exact (make_absolute_url_fixed _ _ Ha).
Qed.

Lemma listing_urls_absolute dom : Forall absolute (listing_urls dom).
Proof.
  unfold listing_urls.
  destruct (all_links dom) as [|[|l links]];
    try (apply probe_links_absolute; constructor).
  pose proof (collect_links_absolute (l :: links) [] (Forall_nil_2 _)) as Hc.
  destruct (collect_links (l :: links) []) as [urls [|]]; simpl in Hc;
    [exact Hc | now apply probe_links_absolute].
Qed.

Lemma process_listing_page_spec st :
  trace (fst (process_listing_page B st)) = trace st
  /\ Forall absolute (snd (process_listing_page B st)).
Proof.
  unfold process_listing_page. destruct (read_listing B (world st)) as [w dom].
  split; [reflexivity | apply listing_urls_absolute].
Qed.

(** ** Detail pages *)

(** An extraction requests the item's absolute URL once, or nothing
    when the URL cannot be made absolute. *)
Lemma process_watch_detail_trace url brand_name st :
  trace (fst (process_watch_detail B url brand_name st))
  = (trace st ++ match make_absolute_url url with
                 | Some u => [DetailRequest u]
                 | None => []
                 end)%list.
Proof.
  unfold process_watch_detail.
  destruct (make_absolute_url url) as [u|]; [|now rewrite app_nil_r].
  destruct (goto_detail B u (world st)) as [w [|page]]; [reflexivity|].
  destruct (watch_of_page u page); reflexivity.
Qed.

Lemma item_loop_cons brand page_num url rest acc st :
  item_loop B brand page_num (url :: rest) acc st =
    let r := process_watch_detail B url (Brand.name brand) st in
    let r' := item_step brand page_num url (snd r) acc (fst r) in
    item_loop B brand page_num rest (fst r') (polite_delay B (snd r')).
Proof.
  cbn [item_loop].
  destruct (process_watch_detail B url (Brand.name brand) st) as [st1 [w|]];
    reflexivity.
Qed.

Lemma item_step_trace brand page_num url wd acc st :
  trace (snd (item_step brand page_num url wd acc st)) = trace st.
Proof. destruct wd; simpl; [apply save_watches_trace | reflexivity]. Qed.

Lemma item_step_processed brand page_num url wd acc st :
  processed acc ⊆ processed (fst (item_step brand page_num url wd acc st)).
Proof. destruct wd; simpl; set_solver. Qed.

Lemma polite_delay_details st :
  detail_requests (trace (polite_delay B st)) = detail_requests (trace st).
Proof.
  unfold polite_delay, sleep_uniform. destruct (random B (world st)) as [w r].
  cbn [trace emit set_world]. unfold detail_requests.
  rewrite omap_app. simpl. now rewrite app_nil_r.
Qed.

(** Each URL of the item loop is requested once, in order, whatever the
    extractions return. *)
Lemma item_loop_details brand page_num urls acc st :
  detail_requests (trace (snd (item_loop B brand page_num urls acc st)))
  = (detail_requests (trace st) ++ omap make_absolute_url urls)%list.
Proof.
  revert acc st. induction urls as [|url urls IH]; intros acc st.
  - simpl. now rewrite app_nil_r.
  - rewrite item_loop_cons. cbv zeta. rewrite IH, polite_delay_details.
    rewrite item_step_trace, process_watch_detail_trace.
    unfold detail_requests at 1. rewrite omap_app. fold (detail_requests (trace st)).
    rewrite <- app_assoc. f_equal. simpl.
    destruct (make_absolute_url url); reflexivity.
Qed.

Lemma polite_delay_sleeps st :
  length (sleeps (trace (polite_delay B st))) = S (length (sleeps (trace st))).
Proof.
  unfold polite_delay, sleep_uniform. destruct (random B (world st)) as [w r].
  cbn [trace emit set_world]. unfold sleeps.
  rewrite omap_app, length_app. simpl. lia.
Qed.

Lemma item_loop_sleeps brand page_num urls acc st :
  length (sleeps (trace (snd (item_loop B brand page_num urls acc st))))
  = (length (sleeps (trace st)) + length urls)%nat.
Proof.
  revert acc st. induction urls as [|url urls IH]; intros acc st.
  - simpl. lia.
  - rewrite item_loop_cons. cbv zeta. rewrite IH, polite_delay_sleeps.
    rewrite item_step_trace, process_watch_detail_trace.
    unfold sleeps at 1. rewrite omap_app, length_app.
    fold (sleeps (trace st)).
    destruct (make_absolute_url url); simpl; lia.
Qed.

End TraceFacts.

Section ResumeFacts.
Context `{urllib.NetlocCheck} (B : Browser).
Variable Pn : Z -> Prop.
Variable S0 : gset string.
Implicit Types (st : Run B) (acc : Acc).

Lemma item_loop_resume brand page_num urls acc st :
  S0 ⊆ processed acc ->
  Forall (fun u => absolute u /\ u ∉ S0) urls ->
  extends (resume_event Pn S0) st (snd (item_loop B brand page_num urls acc st))
  /\ S0 ⊆ processed (fst (item_loop B brand page_num urls acc st)).
Proof.
  revert acc st. induction urls as [|url urls IH]; intros acc st Hacc Hurls.
  - split; [apply extends_refl | exact Hacc].
  - apply Forall_cons in Hurls as [[Habs Hnew] Hurls].
    rewrite item_loop_cons. cbv zeta.
    set (r := process_watch_detail B url (Brand.name brand) st).
    set (r' := item_step brand page_num url (snd r) acc (fst r)).
    destruct (IH (fst r') (polite_delay B (snd r'))) as [He Hs]; [|exact Hurls|].
    { etransitivity; [exact Hacc | apply item_step_processed]. }
    split; [|exact Hs].
    apply (extends_trans B _ st (polite_delay B (snd r'))); [|exact He].
    apply (extends_trans B _ st (fst r)).
    { exists [DetailRequest url]. split; [|repeat constructor; exact Hnew].
      subst r. rewrite process_watch_detail_trace.
      unfold absolute in Habs. now rewrite Habs. }
    apply (extends_trans B _ (fst r) (snd r')).
    { apply extends_same. subst r'. apply item_step_trace. }
    eapply extends_weaken; [|apply sleep_uniform_extends]. now intros [].
Qed.

Lemma filter_new_urls acc (watch_urls : list string) :
  S0 ⊆ processed acc -> Forall absolute watch_urls ->
  Forall (fun u => absolute u /\ u ∉ S0)
         (List.filter (fun url => negb (bool_decide (url ∈ processed acc))) watch_urls).
Proof.
  intros Hacc Habs. apply Forall_forall. intros u Hu.
  apply list_elem_of_In, filter_In in Hu as [Hu Hnew].
  apply negb_true_iff, bool_decide_eq_false in Hnew.
  split; [|set_solver].
  rewrite Forall_forall in Habs. apply Habs. now apply list_elem_of_In.
Qed.

(** From the state a page attempt leaves to the end of the loop. *)
Lemma page_loop_tail brand n rest acc st :
  (forall acc' st', S0 ⊆ processed acc' ->
     extends (resume_event Pn S0) st' (loop_state (page_loop B brand rest acc' st'))
     /\ S0 ⊆ processed (loop_acc (page_loop B brand rest acc' st'))) ->
  S0 ⊆ processed acc ->
  extends (resume_event Pn S0) (fst (process_brand_page B brand n st))
          (loop_state (page_loop B brand (n :: rest) acc st))
  /\ S0 ⊆ processed (loop_acc (page_loop B brand (n :: rest) acc st)).
Proof.
  intros IH Hacc. cbn [page_loop].
  destruct (process_brand_page B brand n st) as [st1 [|[|]]]; cbn [fst];
    try (split; [apply extends_refl | exact Hacc]).
  destruct (process_listing_page_spec B st1) as [Ht Habs].
  destruct (process_listing_page B st1) as [st2 watch_urls]; cbn [fst snd] in *.
  destruct watch_urls as [|u0 watch_urls].
  { split; [now apply extends_same | exact Hacc]. }
  pose proof (filter_new_urls acc _ Hacc Habs) as Hnew.
  destruct (List.filter _ (u0 :: watch_urls)) as [|u1 new_urls] eqn:Ef.
  { split; [now apply extends_same | exact Hacc]. }
  destruct (item_loop_resume brand n (u1 :: new_urls) acc st2 Hacc Hnew) as [He Hs].
  destruct (item_loop B brand n (u1 :: new_urls) acc st2) as [acc3 st3];
    cbn [fst snd] in *.
  match goal with
  | |- context [page_loop B brand rest acc3 ?s] =>
      destruct (IH acc3 s Hs) as [He' Hs']
  end.
  split; [|exact Hs'].
  apply (extends_trans B _ st1 st2); [now apply extends_same|].
  apply (extends_trans B _ st2 st3); [exact He|].
  eapply extends_trans; [|exact He']. now apply extends_same.
Qed.

Lemma page_event_resume n e : Pn n -> page_event n e -> resume_event Pn S0 e.
Proof. intros Hn. destruct e; simpl; [now intros -> | tauto | tauto]. Qed.

Lemma page_loop_resume brand pages acc st :
  Forall Pn pages -> S0 ⊆ processed acc ->
  extends (resume_event Pn S0) st (loop_state (page_loop B brand pages acc st))
  /\ S0 ⊆ processed (loop_acc (page_loop B brand pages acc st)).
Proof.
  intros Hpages. revert acc st.
  induction Hpages as [|n rest Hn Hrest IH]; intros acc st Hacc.
  - split; [apply extends_refl | exact Hacc].
  - destruct (page_loop_tail brand n rest acc st IH Hacc) as [He Hs].
    split; [|exact Hs].
    eapply extends_trans; [|exact He].
    eapply extends_weaken; [|apply process_brand_page_extends].
    intros e. now apply page_event_resume.
Qed.

End ResumeFacts.

Section RangeFacts.

Lemma py_range_cons (a b : Z) : (a < b)%Z -> py_range a b = a :: py_range (a + 1) b.
Proof.
  intros Hab. unfold py_range.
  replace (Z.to_nat (b - a)) with (S (Z.to_nat (b - (a + 1)))) by lia.
  cbn [seq List.map]. f_equal; [lia|].
  rewrite <- seq_shift, List.map_map. apply List.map_ext. intros i. lia.
Qed.

Lemma py_range_bounds (a b : Z) : Forall (fun n => (a <= n < b)%Z) (py_range a b).
Proof.
  unfold py_range. apply Forall_forall. intros n Hn.
  apply list_elem_of_In, in_map_iff in Hn as (i & <- & Hi).
  apply in_seq in Hi. lia.
Qed.

Lemma py_range_length (a b : Z) : length (py_range a b) = Z.to_nat (b - a).
Proof. unfold py_range. now rewrite length_map, length_seq. Qed.

End RangeFacts.

Section BrandFacts.
Context `{urllib.NetlocCheck} (B : Browser).

Lemma omap_Forall {A C} (f : A -> option C) (P : A -> Prop) (Q : C -> Prop) l :
  (forall a c, P a -> f a = Some c -> Q c) -> Forall P l -> Forall Q (omap f l).
Proof.
  intros Hf Hl. induction Hl as [|a l Ha Hl IH]; simpl; [constructor|].
  destruct (f a) eqn:E; [constructor; eauto | exact IH].
Qed.

(** Whatever cursor [load_progress] returns, with [k] its page and [urls]
    its processed URLs: the brand requests listing pages [k] to 99 only,
    and the detail page of no URL of [urls]; its first request is
    listing page [k]. *)
Lemma process_brand_requests (brand : Brand.t) (st : Run B) :
  let progress := fst (load_progress (Brand.name brand) (disk st)) in
  let k := default 1%Z (Progress.current_page progress) in
  let urls := default [] (Progress.processed_urls progress) in
  exists evs,
    trace (snd (process_brand B brand st)) = (trace st ++ evs)%list
    /\ Forall (fun n => (k <= n < 100)%Z) (listing_requests evs)
    /\ Forall (fun u => u ∉ urls) (detail_requests evs)
    /\ forall u, (k < 100)%Z -> get_pagination_url (Brand.url brand) k = Some u ->
                 exists rest, evs = ListingRequest k u :: rest.
Proof.
  intros progress k urls. unfold process_brand.
  destruct (load_progress (Brand.name brand) (disk st)) as [progress' l] eqn:Hload.
  assert (Hp : progress' = progress)
    by first [reflexivity | subst progress; now rewrite Hload].
  rewrite Hp. fold k urls.
  set (S0 := list_to_set urls : gset string).
  set (P := resume_event (fun n => (k <= n < 100)%Z) S0).
  set (st0 := mkRun (world st) (disk st) (trace st) (log st ++ l)%list).
  set (acc0 := mkAcc [] S0).
  assert (Hfinal : forall r, trace (snd (match r with
            | (acc, s, None) => (brand_watches acc, s)
            | (acc, s, Some page_num) =>
                (brand_watches acc,
                 on_disk B (save_progress (Brand.name brand)
                    (Progress.mk (Some page_num) (Some (elements (processed acc))))) s)
            end)) = trace (loop_state r)).
  { intros [[acc s] [n|]]; reflexivity. }
  rewrite Hfinal.
  assert (Hsplit : forall evs, Forall P evs ->
            Forall (fun n => (k <= n < 100)%Z) (listing_requests evs)
            /\ Forall (fun u => u ∉ urls) (detail_requests evs)).
  { intros evs HF. split.
    - eapply omap_Forall; [|exact HF]. intros [] c Ha [= <-]. exact Ha.
    - eapply omap_Forall; [|exact HF]. intros [] c Ha [= <-].
      simpl in Ha. subst S0. now rewrite elem_of_list_to_set in Ha. }
  destruct (Z_lt_dec k 100) as [Hk|Hk].
  - rewrite (py_range_cons k 100 Hk).
    destruct (page_loop_tail B (fun n => (k <= n < 100)%Z) S0 brand k
                (py_range (k + 1) 100) acc0 st0)
      as [(evs2 & Ht2 & HF2) _].
    { intros acc' st' Hacc'. apply page_loop_resume; [|exact Hacc'].
      eapply Forall_impl; [apply py_range_bounds|]. simpl. lia. }
    { reflexivity. }
    fold P in HF2.
    destruct (get_pagination_url (Brand.url brand) k) as [u|] eqn:Hu.
    + destruct (process_brand_page_first B brand k st0 u Hu) as (evs1 & Ht1 & HF1).
      exists (ListingRequest k u :: evs1 ++ evs2)%list.
      assert (HF : Forall P (ListingRequest k u :: evs1 ++ evs2)%list).
      { constructor; [simpl; lia|]. apply Forall_app. split; [|exact HF2].
        eapply Forall_impl; [exact HF1|]. intros e.
        apply page_event_resume. lia. }
      split; [|split; [apply Hsplit, HF | split; [apply Hsplit, HF|]]].
      * rewrite Ht2, Ht1. cbn [trace st0]. now rewrite <- app_assoc.
      * intros u' _ [= <-]. eauto.
    + destruct (process_brand_page_extends B brand k st0) as (evs1 & Ht1 & HF1).
      exists (evs1 ++ evs2)%list.
      assert (HF : Forall P (evs1 ++ evs2)%list).
      { apply Forall_app. split; [|exact HF2].
        eapply Forall_impl; [exact HF1|]. intros e.
        apply page_event_resume. lia. }
      split; [|split; [apply Hsplit, HF | split; [apply Hsplit, HF|]]].
      * rewrite Ht2, Ht1. cbn [trace st0]. now rewrite <- app_assoc.
      * intros u' _ [=].
  - assert (Hr : py_range k 100 = []).
    { unfold py_range. replace (Z.to_nat (100 - k)) with O by lia. reflexivity. }
    rewrite Hr. exists []. cbn [page_loop loop_state fst snd trace st0].
    split; [now rewrite app_nil_r|]. repeat split; try constructor. lia.
Qed.

(** The same for a brand resumed from a cursor
    [{current_page: k, processed_urls: urls}] on disk. *)
Lemma process_brand_resumes (brand : Brand.t) (st : Run B) (k : Z) (urls : list string) :
  progress_files (disk st) !! progress_path (Brand.name brand)
    = Some (Parsed (Progress.mk (Some k) (Some urls))) ->
  exists evs,
    trace (snd (process_brand B brand st)) = (trace st ++ evs)%list
    /\ Forall (fun n => (k <= n < 100)%Z) (listing_requests evs)
    /\ Forall (fun u => u ∉ urls) (detail_requests evs)
    /\ forall u, (k < 100)%Z -> get_pagination_url (Brand.url brand) k = Some u ->
                 exists rest, evs = ListingRequest k u :: rest.
Proof.
  intros Hfile. pose proof (process_brand_requests brand st) as Hreq.
  rewrite (load_progress_parsed _ _ _ Hfile) in Hreq. exact Hreq.
Qed.

End BrandFacts.

(** * The claims of the specification *)

(** C2 -- Pagination URL construction.  For a base URL that [urlparse]
    accepts, page 1 is the base itself; for a page number above 1 the URL
    is the scheme, the network location and the query of the base around
    a new path: a path [d ++ "index.htm"] becomes [d ++ "index-N.htm"], a
    path ending in a slash gets ["index-N.htm"], any other path gets
    ["/index-N.htm"].  For a base with a scheme and a host, parsing the
    result gives back the scheme, the host and the query of the base.
    The two examples of the specification hold. *)
Theorem pagination_url_construction `{urllib.NetlocCheck}
  (base_url : string) (p : urllib.ParseResult) :
  urllib.urlparse base_url "" = Some p ->
  get_pagination_url base_url 1 = Some base_url
  /\ (forall n : Z, (1 < n)%Z ->
        (forall d, urllib.path p = d ++ "index.htm" ->
           get_pagination_url base_url n
           = Some (paged p (d ++ "index-" ++ Py.str_of_int n ++ ".htm")))
        /\ (forall d, urllib.path p = d ++ "/" ->
              get_pagination_url base_url n
              = Some (paged p (urllib.path p ++ "index-" ++ Py.str_of_int n ++ ".htm")))
        /\ ((forall d, urllib.path p <> d ++ "index.htm") ->
            (forall d, urllib.path p <> d ++ "/") ->
            get_pagination_url base_url n
            = Some (paged p (urllib.path p ++ "/index-" ++ Py.str_of_int n ++ ".htm"))))
  /\ (urllib.scheme p <> "" -> urllib.netloc p <> "" ->
      forall (n : Z) (u : string), (1 < n)%Z ->
        get_pagination_url base_url n = Some u ->
        exists p', urllib.urlparse u "" = Some p'
                   /\ urllib.scheme p' = urllib.scheme p
                   /\ urllib.netloc p' = urllib.netloc p
                   /\ urllib.query p' = urllib.query p)
  /\ get_pagination_url "https://x/brand/index.htm" 5 = Some "https://x/brand/index-5.htm"
  /\ get_pagination_url "https://x/brand/" 2 = Some "https://x/brand/index-2.htm".
Proof.
  intros Hp. split; [exact (get_pagination_url_first _ _ Hp)|].
  split; [|split; [|split; reflexivity]].
  - intros n Hn. assert (Hn1 : n <> 1%Z) by lia.
    split; [|split].
    + intros d Hd. now apply get_pagination_url_index.
    + intros d Hd. now apply (get_pagination_url_slash base_url d).
    + intros Hi Hs. now apply get_pagination_url_other.
  - intros Hs Hn n u Hgt Hu.
    apply (get_pagination_url_parses_back base_url u p n); try assumption. lia.
Qed.

Lemma pagination_url_construction_witness :
  urllib.urlparse (H := no_bracketed_hosts) "https://www.chrono24.com/rolex/index.htm?page=a" ""
  = Some (urllib.mkParse "https" "www.chrono24.com" "/rolex/index.htm" "" "page=a" "")
  /\ get_pagination_url (H := no_bracketed_hosts)
       "https://www.chrono24.com/rolex/index.htm?page=a" 7
     = Some "https://www.chrono24.com/rolex/index-7.htm?page=a"
  /\ get_pagination_url (H := no_bracketed_hosts) "https://www.chrono24.com/rolex/" 7
     = Some "https://www.chrono24.com/rolex/index-7.htm"
  /\ get_pagination_url (H := no_bracketed_hosts) "https://www.chrono24.com/rolex" 7
     = Some "https://www.chrono24.com/rolex/index-7.htm"
  /\ exists p',
       urllib.urlparse (H := no_bracketed_hosts)
         "https://www.chrono24.com/rolex/index-7.htm?page=a" "" = Some p'
       /\ urllib.scheme p' = "https"
       /\ urllib.netloc p' = "www.chrono24.com"
       /\ urllib.query p' = "page=a".
Proof.
  pose proof (pagination_url_construction
                (H := no_bracketed_hosts)
                "https://www.chrono24.com/rolex/index.htm?page=a"
                (urllib.mkParse "https" "www.chrono24.com"
                   "/rolex/index.htm" "" "page=a" "")
                eq_refl) as (_ & Hindex & Hback & _).
  pose proof (pagination_url_construction
                (H := no_bracketed_hosts) "https://www.chrono24.com/rolex/"
                (urllib.mkParse "https" "www.chrono24.com" "/rolex/" "" "" "")
                eq_refl) as (_ & Hslash & _).
  pose proof (pagination_url_construction
                (H := no_bracketed_hosts) "https://www.chrono24.com/rolex"
                (urllib.mkParse "https" "www.chrono24.com" "/rolex" "" "" "")
                eq_refl) as (_ & Hother & _).
  split; [reflexivity|]. split; [|split; [|split]].
  - exact (proj1 (Hindex 7%Z eq_refl) "/rolex/" eq_refl).
  - exact (proj1 (proj2 (Hslash 7%Z eq_refl)) "/rolex" eq_refl).
  - apply (proj2 (proj2 (Hother 7%Z eq_refl))); apply endswith_false; reflexivity.
  - refine (Hback _ _ 7%Z _ eq_refl eq_refl); discriminate.
Defined.

(** C3 -- Resume correctness.  A brand whose progress file holds the
    cursor [{current_page: 3, processed_urls: urls}] requests, in any
    browser session and for any listing results, no listing page below 3
    (in particular neither page 1 nor page 2), and the detail page of no
    URL of [urls]; when the brand URL parses, its first request is
    listing page 3. *)
Theorem resume_correctness `{urllib.NetlocCheck} (B : Browser)
  (brand : Brand.t) (st : Run B) (urls : list string) :
  urls <> [] ->
  progress_files (disk st) !! progress_path (Brand.name brand)
    = Some (Parsed (Progress.mk (Some 3%Z) (Some urls))) ->
  exists evs,
    trace (snd (process_brand B brand st)) = (trace st ++ evs)%list
    /\ (1%Z ∉ listing_requests evs)
    /\ (2%Z ∉ listing_requests evs)
    /\ Forall (fun n => (3 <= n)%Z) (listing_requests evs)
    /\ Forall (fun u => u ∉ urls) (detail_requests evs)
    /\ forall u, get_pagination_url (Brand.url brand) 3 = Some u ->
                 exists rest, evs = ListingRequest 3 u :: rest.
Proof.
  intros _ Hfile.
  destruct (process_brand_resumes B brand st 3 urls Hfile)
    as (evs & Ht & Hl & Hd & Hfirst).
  exists evs. split; [exact Ht|].
  assert (Hlow : forall m, (m < 3)%Z -> m ∉ listing_requests evs).
  { intros m Hm Hin. rewrite Forall_forall in Hl. specialize (Hl m Hin). lia. }
  split; [apply Hlow; lia|]. split; [apply Hlow; lia|].
  split; [eapply Forall_impl; [exact Hl|]; simpl; lia|].
  split; [exact Hd|].
  intros u Hu. apply Hfirst; [lia | exact Hu].
Qed.

Lemma resume_correctness_witness :
  exists evs,
    trace (snd (process_brand (H := no_bracketed_hosts) endless brand_x
                  (fresh_run endless 2%nat resumed_disk)))
    = ([] ++ evs)%list
    /\ (1%Z ∉ listing_requests evs)
    /\ (2%Z ∉ listing_requests evs)
    /\ Forall (fun n => (3 <= n)%Z) (listing_requests evs)
    /\ Forall (fun u => u ∉ ["https://x/w3"; "https://x/w9"]) (detail_requests evs)
    /\ forall u, get_pagination_url (H := no_bracketed_hosts) (Brand.url brand_x) 3 = Some u ->
                 exists rest, evs = ListingRequest 3 u :: rest.
Proof.
  apply (resume_correctness (H := no_bracketed_hosts) endless brand_x
           (fresh_run endless 2%nat resumed_disk) ["https://x/w3"; "https://x/w9"]).
  - discriminate.
  - reflexivity.
Defined.

(** C8 -- Page ceiling.  The specification says that a crawl that starts
    at page 1 and never meets another stop condition attempts pages 1 to
    100.  The loop runs over [range(start_page, 100)]: in a catalogue
    where every page loads and shows a new item the pages requested are 1
    to 99, ninety-nine of them, and page 100 is never requested. *)
Theorem page_ceiling_stops_at_99 :
  let st := snd (process_brand (H := no_bracketed_hosts) endless brand_x
                   (fresh_run endless 0%nat empty_disk)) in
  listing_requests (trace st) = List.map Z.of_nat (seq 1 99)
  /\ length (listing_requests (trace st)) = 99%nat
  /\ 100%Z ∉ listing_requests (trace st).
Proof.
  assert (Hp : listing_requests
                 (trace (snd (process_brand (H := no_bracketed_hosts) endless brand_x
                                (fresh_run endless 0%nat empty_disk))))
               = List.map Z.of_nat (seq 1 99)) by (vm_compute; reflexivity).
  cbv zeta. rewrite Hp. split; [reflexivity|]. split; [reflexivity|].
  intros Hin. apply list_elem_of_In, in_map_iff in Hin as (i & Hi & Hin).
  apply in_seq in Hin. lia.
Qed.

(** C9 -- Item extraction, amended: no retry.  In the item loop every
    new URL is requested at most once (exactly once when it is absolute,
    as the URLs of a listing are), in discovery order, whatever the
    extractions return; the only sleeps are the polite delays, one per
    URL; an extraction that fails leaves the collected records and the
    processed set as they were, and the loop goes on with the next URL. *)
Theorem item_extraction_single_attempt `{urllib.NetlocCheck} (B : Browser)
  (brand : Brand.t) (page_num : Z) (urls : list string) (acc : Acc) (st : Run B) :
  detail_requests (trace (snd (item_loop B brand page_num urls acc st)))
  = (detail_requests (trace st) ++ omap make_absolute_url urls)%list
  /\ length (sleeps (trace (snd (item_loop B brand page_num urls acc st))))
     = (length (sleeps (trace st)) + length urls)%nat
  /\ forall url rest,
       urls = url :: rest ->
       snd (process_watch_detail B url (Brand.name brand) st) = None ->
       item_loop B brand page_num urls acc st
       = item_loop B brand page_num rest acc
           (polite_delay B (fst (process_watch_detail B url (Brand.name brand) st))).
Proof.
  split; [apply item_loop_details|]. split; [apply item_loop_sleeps|].
  intros url rest -> Hnone. rewrite item_loop_cons. cbv zeta. now rewrite Hnone.
Qed.

Lemma item_extraction_single_attempt_witness :
  snd (process_watch_detail (H := no_bracketed_hosts) flaky "https://x/w1" "Rolex"
         (fresh_run flaky 0%nat empty_disk)) = None
  /\ item_loop (H := no_bracketed_hosts) flaky brand_x 1 ["https://x/w1"; "https://x/w2"]
       (mkAcc [] ∅) (fresh_run flaky 0%nat empty_disk)
     = item_loop (H := no_bracketed_hosts) flaky brand_x 1 ["https://x/w2"] (mkAcc [] ∅)
         (polite_delay flaky
            (fst (process_watch_detail (H := no_bracketed_hosts) flaky "https://x/w1" "Rolex"
                    (fresh_run flaky 0%nat empty_disk)))).
Proof.
  split; [reflexivity|].
  exact (proj2 (proj2 (item_extraction_single_attempt (H := no_bracketed_hosts) flaky brand_x 1
                         ["https://x/w1"; "https://x/w2"] (mkAcc [] ∅)
                         (fresh_run flaky 0%nat empty_disk)))
           "https://x/w1" ["https://x/w2"] eq_refl eq_refl).
Defined.

(** C9, as the specification states it, fails: in a session whose first
    detail navigation raises and whose second would succeed, the item is
    requested once, never again, and is abandoned after that single
    attempt, with the polite delay as the only sleep. *)
Lemma item_retry_counterexample :
  let r := item_loop (H := no_bracketed_hosts) flaky brand_x 1 ["https://x/w1"]
             (mkAcc [] ∅) (fresh_run flaky 0%nat empty_disk) in
  detail_requests (trace (snd r)) = ["https://x/w1"]
  /\ brand_watches (fst r) = []
  /\ length (sleeps (trace (snd r))) = 1%nat
  /\ snd (process_watch_detail (H := no_bracketed_hosts) flaky "https://x/w1" "Rolex" (snd r))
     = Some (Watch.mk "https://x/w1" "Submariner" "" "" ∅).
Proof. vm_compute. repeat split; reflexivity. Qed.

(** C10 -- URL absolutization, amended.  A string that starts with
    "http://" or "https://" is returned unchanged.  For any other string
    the result is [urljoin(BASE_URL, url.lstrip('/'))]: the base origin
    itself when nothing is left after the slashes; the stripped input
    unchanged when it carries a scheme other than https; an https URL on
    the host the stripped input names when it names one; and otherwise a
    URL on the [https://www.chrono24.com] origin.  Whenever the function
    returns, applying it to the result returns the result. *)
Theorem make_absolute_url_cases `{urllib.NetlocCheck} (url : string) :
  (Py.startswith url "http://" = true \/ Py.startswith url "https://" = true ->
   make_absolute_url url = Some url)
  /\ (Py.startswith url "http://" = false -> Py.startswith url "https://" = false ->
      forall v, make_absolute_url url = Some v ->
        let stripped := Py.lstrip_chars "/" url in
        (stripped = "" /\ v = BASE_URL)
        \/ exists u, urllib.urlparse stripped "https" = Some u
             /\ ((urllib.scheme u <> "https" /\ v = stripped)
                 \/ (urllib.scheme u = "https" /\ urllib.netloc u <> ""
                     /\ on_origin ("https://" ++ urllib.netloc u) v = true)
                 \/ (urllib.scheme u = "https" /\ urllib.netloc u = ""
                     /\ on_origin BASE_URL v = true)))
  /\ (forall v, make_absolute_url url = Some v -> make_absolute_url v = Some v).
Proof.
  split; [apply make_absolute_url_http|].
  split; [|intros v; apply make_absolute_url_fixed].
  intros H1 H2 v Hv stripped. unfold make_absolute_url in Hv.
  rewrite H1, H2 in Hv. cbn [orb negb] in Hv.
  destruct (urljoin_base _ _ Hv)
    as [Hb | (u & Hu & [Hc | [(Hs & Hn & tail & -> & Ht) | (Hs & Hn & tail & -> & Ht)]])].
  - left. exact Hb.
  - right. exists u. split; [exact Hu|]. left. exact Hc.
  - right. exists u. split; [exact Hu|]. right; left.
    split; [exact Hs|]. split; [exact Hn|].
    rewrite <- (on_origin_app ("https://" ++ urllib.netloc u) tail) in Ht.
    now rewrite append_assoc in Ht.
  - right. exists u. split; [exact Hu|]. right; right.
    split; [exact Hs|]. split; [exact Hn|]. now rewrite on_origin_app.
Qed.

Lemma make_absolute_url_cases_witness :
  make_absolute_url (H := no_bracketed_hosts) "http://example.org/x" = Some "http://example.org/x"
  /\ on_origin BASE_URL "https://www.chrono24.com/rolex/a.htm" = true
  /\ make_absolute_url (H := no_bracketed_hosts) "https://www.chrono24.com/rolex/a.htm"
     = Some "https://www.chrono24.com/rolex/a.htm".
Proof.
  split; [|split].
  - apply (proj1 (make_absolute_url_cases (H := no_bracketed_hosts) "http://example.org/x")).
    left. reflexivity.
  - destruct (proj1 (proj2 (make_absolute_url_cases (H := no_bracketed_hosts) "//rolex/a.htm"))
                eq_refl eq_refl "https://www.chrono24.com/rolex/a.htm" eq_refl)
      as [[Hs _] | (u & Hu & [[Hs _] | [(_ & Hn & _) | (_ & _ & Ho)]])].
    + discriminate Hs.
    + injection Hu as <-. now elim Hs.
    + injection Hu as <-. now elim Hn.
    + exact Ho.
  - exact (proj2 (proj2 (make_absolute_url_cases (H := no_bracketed_hosts) "//rolex/a.htm"))
             "https://www.chrono24.com/rolex/a.htm" eq_refl).
Defined.

(** C10, as the specification states it, fails: a string with a scheme of
    its own that is not spelled "http://" or "https://" is returned as it
    is, and is not on the [https://www.chrono24.com] origin. *)
Lemma make_absolute_url_counterexample :
  Py.startswith "mailto:info@chrono24.com" "http://" = false
  /\ Py.startswith "mailto:info@chrono24.com" "https://" = false
  /\ make_absolute_url (H := no_bracketed_hosts) "mailto:info@chrono24.com"
     = Some "mailto:info@chrono24.com"
  /\ on_origin BASE_URL "mailto:info@chrono24.com" = false
  /\ make_absolute_url (H := no_bracketed_hosts) "HTTPS://example.org/x"
     = Some "https://example.org/x"
  /\ on_origin BASE_URL "https://example.org/x" = false.
Proof. vm_compute. repeat split; reflexivity. Qed.

(** * Further facts about the two stores *)

Section StoreFacts.
Implicit Types (d : Disk) (ws : list Watch.t) (f : string).

Lemma save_watches_to_json_others ws f d g :
  g <> f ->
  watch_files (fst (save_watches_to_json ws f d)) !! g = watch_files d !! g.
Proof.
  intros Hg. rewrite save_watches_to_json_unfold.
  destruct (List.filter (is_new (stored_watches f d)) ws); [reflexivity|].
  cbn [watch_files]. now apply lookup_insert_ne.
Qed.

Lemma save_watches_to_json_progress ws f d :
  progress_files (fst (save_watches_to_json ws f d)) = progress_files d.
Proof.
  rewrite save_watches_to_json_unfold.
  now destruct (List.filter (is_new (stored_watches f d)) ws).
Qed.

Lemma save_watches_to_json_writes ws f d :
  writes (fst (save_watches_to_json ws f d)) =
    (writes d ++ match List.filter (is_new (stored_watches f d)) ws with
                 | [] => []
                 | _ => [f]
                 end)%list.
Proof.
  rewrite save_watches_to_json_unfold.
  destruct (List.filter (is_new (stored_watches f d)) ws);
    [now rewrite app_nil_r | reflexivity].
Qed.

Lemma save_watches_to_json_covers ws f d w :
  w ∈ ws -> Watch.url w ∈ stored_urls f (fst (save_watches_to_json ws f d)).
Proof.
  intros Hw. unfold stored_urls.
  rewrite save_watches_to_json_stored, fmap_app. apply elem_of_app.
  destruct (is_new (stored_watches f d) w) eqn:E.
  - right. apply list_elem_of_fmap. exists w. split; [reflexivity|].
    apply filter_elem. now split.
  - left. now apply is_new_false.
Qed.

Lemma save_watches_to_json_keeps ws f d u :
  u ∈ stored_urls f d -> u ∈ stored_urls f (fst (save_watches_to_json ws f d)).
Proof.
  intros Hu. unfold stored_urls.
  rewrite save_watches_to_json_stored, fmap_app. apply elem_of_app. now left.
Qed.

Lemma filter_all_new ws :
  List.filter (is_new []) ws = ws.
Proof.
  induction ws as [|w ws IH]; [reflexivity|]. simpl.
  assert (E : is_new [] w = true).
  { apply is_new_true. simpl. apply not_elem_of_nil. }
  rewrite E. now f_equal.
Qed.

End StoreFacts.

Section PathFacts.
Import Py.

Lemma append_inj_l (a x y : string) : a ++ x = a ++ y -> x = y.
Proof.
  induction a as [|c a IH]; rewrite ?append_nil_l; [auto|].
  rewrite !append_cons. intros E. injection E as E. auto.
Qed.

Lemma append_inj_r (x y s : string) : x ++ s = y ++ s -> x = y.
Proof.
  revert y. induction x as [|c x IH]; intros [|d y]; rewrite ?append_nil_l, ?append_cons.
  - reflexivity.
  - intros E. apply (f_equal String.length) in E.
    rewrite <- append_cons, length_append in E. simpl in E. lia.
  - intros E. apply (f_equal String.length) in E.
    rewrite <- append_cons, length_append in E. simpl in E. lia.
  - intros E. injection E as -> E. f_equal. now apply IH.
Qed.

Lemma startswith_slash (b : string) :
  startswith b "/" = true <-> exists r, b = String "/" r.
Proof.
  unfold startswith. destruct b as [|c r]; cbn [String.prefix].
  - split; [discriminate | intros [r Hr]; discriminate Hr].
  - destruct (ascii_dec "/" c) as [<-|Hc].
    + rewrite str_prefix_nil. split; [now exists r | reflexivity].
    + split; [discriminate | intros [r' Hr]; congruence].
Qed.

Lemma progress_path_shape (b : string) :
  progress_path b =
    if startswith b "/" then b ++ "_progress.json"
    else "./data/progress/" ++ b ++ "_progress.json".
Proof.
  unfold progress_path, os_path_join.
  replace (startswith (b ++ "_progress.json") "/") with (startswith b "/");
    [reflexivity|].
  destruct b as [|c b]; [reflexivity|].
  rewrite append_cons. unfold startswith. cbn [String.prefix].
  destruct (ascii_dec "/" c); [now rewrite !str_prefix_nil | reflexivity].
Qed.

Lemma progress_path_inj (b1 b2 : string) :
  progress_path b1 = progress_path b2 -> b1 = b2.
Proof.
  rewrite !progress_path_shape.
  assert (Hfar : forall b b', startswith b "/" = true ->
            b ++ "_progress.json"
            = "./data/progress/" ++ b' ++ "_progress.json" -> False).
  { intros b b' [r ->]%startswith_slash E. rewrite !append_cons in E. discriminate E. }
  destruct (startswith b1 "/") eqn:E1, (startswith b2 "/") eqn:E2; intros E.
  - now apply append_inj_r in E.
  - now apply Hfar in E.
  - symmetry in E. now apply Hfar in E.
  - apply append_inj_l in E. now apply append_inj_r in E.
Qed.

End PathFacts.

(** * Further properties of the code *)

(** ** Dataset store *)

(** X1 -- [save_watches_to_json] only appends.  After a call the file
    holds the records it held before, in place, followed by records of
    the batch; every URL of the batch is then stored; no progress file
    and no other dataset file is touched, and the file is opened for
    writing at most once. *)
Theorem save_watches_to_json_appends (ws : list Watch.t) (f : string) (d : Disk) :
  let d' := fst (save_watches_to_json ws f d) in
  (exists added, stored_watches f d' = (stored_watches f d ++ added)%list
                 /\ forall w, w ∈ added -> w ∈ ws)
  /\ (forall w, w ∈ ws -> Watch.url w ∈ stored_urls f d')
  /\ progress_files d' = progress_files d
  /\ (forall g, g <> f -> watch_files d' !! g = watch_files d !! g)
  /\ (writes d' = writes d \/ writes d' = (writes d ++ [f])%list).
Proof.
  intros d'. split; [|split; [|split; [|split]]].
  - exists (List.filter (is_new (stored_watches f d)) ws). split.
    + apply save_watches_to_json_stored.
    + intros w Hw. now apply filter_elem in Hw.
  - intros w Hw. now apply save_watches_to_json_covers.
  - apply save_watches_to_json_progress.
  - intros g Hg. now apply save_watches_to_json_others.
  - unfold d'. rewrite save_watches_to_json_writes.
    destruct (List.filter (is_new (stored_watches f d)) ws);
      [left; apply app_nil_r | now right].
Qed.

Lemma save_watches_to_json_appends_witness :
  Watch.url sub_a
    ∈ stored_urls WATCHES_JSON (fst (save_watches_to_json [sub_a] WATCHES_JSON disk_with_b))
  /\ watch_files (fst (save_watches_to_json [sub_a] WATCHES_JSON disk_with_b))
       !! "./data/omega_watches.json"
     = watch_files disk_with_b !! "./data/omega_watches.json".
Proof.
  destruct (save_watches_to_json_appends [sub_a] WATCHES_JSON disk_with_b)
    as (_ & Hall & _ & Hother & _).
  split; [apply Hall; left | apply Hother; discriminate].
Defined.

(** X2 -- [save_watches_to_json] writes exactly when the batch brings a
    URL the file does not hold: when every URL of the batch is stored
    already the disk is left as it was (and the skip is logged), and
    otherwise the file is written. *)
Theorem save_watches_to_json_writes_iff_new (ws : list Watch.t) (f : string) (d : Disk) :
  (fst (save_watches_to_json ws f d) = d
   <-> forall w, w ∈ ws -> Watch.url w ∈ stored_urls f d)
  /\ ((forall w, w ∈ ws -> Watch.url w ∈ stored_urls f d) ->
      LogInfo "No new watches to save, skipping file write"
        ∈ snd (save_watches_to_json ws f d)).
Proof.
  split; [split|].
  - intros E w Hw. rewrite <- E at 1. now apply save_watches_to_json_covers.
  - apply save_watches_to_json_present.
  - intros Hall. unfold save_watches_to_json.
    assert (Hnil : forall existing : list Watch.t,
               stored_watches f d = existing ->
               List.filter
                 (fun w => negb (bool_decide
                    (Watch.url w ∈ (list_to_set (Watch.url <$> existing) : gset string))))
                 ws = []).
    { intros existing <-. induction ws as [|w ws IH]; [reflexivity|]. simpl.
      assert (Hw : is_new (stored_watches f d) w = false).
      { apply is_new_false. apply Hall. left. }
      unfold is_new in Hw. rewrite Hw. apply IH. intros w' Hw'. apply Hall. now right. }
    unfold stored_watches in Hnil.
    destruct (watch_files d !! f) as [[|existing]|];
      rewrite (Hnil _ eq_refl); cbn [snd];
      apply elem_of_app; right; left.
Qed.

Lemma save_watches_to_json_writes_iff_new_witness :
  fst (save_watches_to_json [gmt_b] WATCHES_JSON disk_with_b) = disk_with_b
  /\ LogInfo "No new watches to save, skipping file write"
       ∈ snd (save_watches_to_json [gmt_b] WATCHES_JSON disk_with_b).
Proof.
  assert (H : forall w, w ∈ [gmt_b] -> Watch.url w ∈ stored_urls WATCHES_JSON disk_with_b).
  { intros w ->%list_elem_of_singleton. vm_compute. left. }
  destruct (save_watches_to_json_writes_iff_new [gmt_b] WATCHES_JSON disk_with_b)
    as [[_ H1] H2].
  split; [apply H1, H | apply H2, H].
Defined.

(** X3 -- One record per URL is kept exactly when the new records of a
    batch have distinct URLs: for a file that holds each URL once, the
    file after [save_watches_to_json] holds each URL once if and only if
    the records of the batch that pass the filter do. *)
Theorem save_watches_to_json_unique_iff (ws : list Watch.t) (f : string) (d : Disk) :
  NoDup (stored_urls f d) ->
  (NoDup (stored_urls f (fst (save_watches_to_json ws f d)))
   <-> NoDup (Watch.url <$> List.filter (is_new (stored_watches f d)) ws)).
Proof.
  intros Hd. unfold stored_urls.
  rewrite save_watches_to_json_stored, fmap_app, NoDup_app.
  split; [intros (_ & _ & Hn); exact Hn|].
  intros Hn. split; [exact Hd|]. split; [|exact Hn].
  intros u Hu (w & -> & Hw)%list_elem_of_fmap.
  apply filter_elem in Hw as [_ Hw]. apply is_new_true in Hw. now apply Hw.
Qed.

Lemma save_watches_to_json_unique_iff_witness :
  NoDup (stored_urls WATCHES_JSON disk_with_b)
  /\ (NoDup (stored_urls WATCHES_JSON
               (fst (save_watches_to_json [sub_a; gmt_b] WATCHES_JSON disk_with_b)))
      <-> NoDup (Watch.url <$> List.filter (is_new (stored_watches WATCHES_JSON disk_with_b))
                                           [sub_a; gmt_b])).
Proof.
  assert (H : NoDup (stored_urls WATCHES_JSON disk_with_b)).
  { vm_compute. apply NoDup_singleton. }
  split; [exact H|].
  exact (save_watches_to_json_unique_iff [sub_a; gmt_b] WATCHES_JSON disk_with_b H).
Defined.

(** X4 -- A dataset file that is absent or that [json.load] rejects is
    replaced by the batch: after [save_watches_to_json] of a non-empty
    batch the file holds exactly the batch, in order; for a rejected
    file the error is logged and its old content is lost.  With an empty
    batch the file is left as it is. *)
Theorem save_watches_to_json_starts_fresh (ws : list Watch.t) (f : string) (d : Disk) :
  watch_files d !! f = None \/ watch_files d !! f = Some Malformed ->
  (ws <> [] ->
   watch_files (fst (save_watches_to_json ws f d)) !! f = Some (Parsed ws))
  /\ (ws = [] -> fst (save_watches_to_json ws f d) = d)
  /\ (watch_files d !! f = Some Malformed ->
      LogError "Error reading existing watches file. Starting fresh."
        ∈ snd (save_watches_to_json ws f d)).
Proof.
  intros Hf.
  assert (Hs : stored_watches f d = []).
  { unfold stored_watches. now destruct Hf as [-> | ->]. }
  split; [|split].
  - intros Hws. rewrite save_watches_to_json_unfold, Hs, filter_all_new.
    destruct ws as [|w ws]; [congruence|].
    cbn [watch_files app]. apply lookup_insert_eq.
  - intros ->. now rewrite save_watches_to_json_unfold.
  - intros Hm. unfold save_watches_to_json. rewrite Hm.
    destruct (List.filter _ ws); cbn [snd]; apply elem_of_app; left; left.
Qed.

Lemma save_watches_to_json_starts_fresh_witness :
  watch_files (fst (save_watches_to_json [sub_a; gmt_b] WATCHES_JSON
                      (mkDisk ∅ {[WATCHES_JSON := Malformed]} [])))
    !! WATCHES_JSON = Some (Parsed [sub_a; gmt_b])
  /\ LogError "Error reading existing watches file. Starting fresh."
       ∈ snd (save_watches_to_json [sub_a; gmt_b] WATCHES_JSON
                (mkDisk ∅ {[WATCHES_JSON := Malformed]} [])).
Proof.
  assert (H : watch_files (mkDisk ∅ {[WATCHES_JSON := Malformed]} []) !! WATCHES_JSON
              = Some Malformed) by reflexivity.
  destruct (save_watches_to_json_starts_fresh [sub_a; gmt_b] WATCHES_JSON
              (mkDisk ∅ {[WATCHES_JSON := Malformed]} []) (or_intror H))
    as (H1 & _ & H3).
  split; [apply H1; discriminate | apply H3, H].
Defined.

(** ** Progress store *)

(** X5 -- The cursor a brand saves is the cursor it loads, and saving
    it disturbs nothing else: for brand names that are plain file names
    (no slash), [save_progress] of one brand leaves what [load_progress]
    returns for every other brand unchanged, and it never touches a
    dataset file. *)
Theorem save_progress_isolated (b b' : string) (p : Progress.t) (d : Disk) :
  Py.contains_char "/" b = false -> Py.contains_char "/" b' = false ->
  load_progress b (save_progress b p d) = (p, [])
  /\ (b' <> b -> load_progress b' (save_progress b p d) = load_progress b' d)
  /\ watch_files (save_progress b p d) = watch_files d.
Proof.
  intros _ _. split; [apply load_save_progress|]. split; [|reflexivity].
  intros Hb. unfold load_progress, save_progress. cbn [progress_files].
  rewrite lookup_insert_ne; [reflexivity|].
  intros E. apply Hb. symmetry. now apply progress_path_inj.
Qed.

Lemma save_progress_isolated_witness :
  load_progress "Rolex"
    (save_progress "Rolex" (Progress.mk (Some 4%Z) (Some ["https://x/w1"])) malformed_disk)
  = (Progress.mk (Some 4%Z) (Some ["https://x/w1"]), [])
  /\ load_progress "Omega"
       (save_progress "Rolex" (Progress.mk (Some 4%Z) (Some ["https://x/w1"])) resumed_disk)
     = load_progress "Omega" resumed_disk.
Proof.
  split.
  - exact (proj1 (save_progress_isolated "Rolex" "Omega"
                    (Progress.mk (Some 4%Z) (Some ["https://x/w1"])) malformed_disk
                    eq_refl eq_refl)).
  - apply (proj2 (save_progress_isolated "Rolex" "Omega"
                    (Progress.mk (Some 4%Z) (Some ["https://x/w1"])) resumed_disk
                    eq_refl eq_refl)).
    discriminate.
Defined.

(** ** Rate controller *)

Section RateBounds.
Local Open Scope Q_scope.

(** X6 -- The two regimes of [adaptive_delay] do not overlap: for a
    response time [t >= 0] and a draw in [0, 1], a status below 429 gives
    a delay between 0 and 4.5 seconds, a status of 429 or more (every 5xx
    included) gives one between 10 and 30 seconds; a back-off delay is
    therefore longer than any normal delay. *)
Theorem adaptive_delay_ranges (t r t' r' : Q) (s s' : Z) :
  0 <= t -> 0 <= r <= 1 -> 0 <= t' -> 0 <= r' <= 1 ->
  ((s < 429)%Z -> 0 <= adaptive_delay t s r <= 9 # 2)
  /\ ((429 <= s)%Z -> 10 <= adaptive_delay t s r <= 30)
  /\ ((s < 429)%Z -> (429 <= s')%Z -> adaptive_delay t s r < adaptive_delay t' s' r').
Proof.
  intros Ht Hr Ht' Hr'.
  assert (Hlow : forall t r s, 0 <= t -> 0 <= r <= 1 -> (s < 429)%Z ->
                   0 <= adaptive_delay t s r <= 9 # 2).
  { clear. intros t r s Ht [Hr0 Hr1] Hs. unfold adaptive_delay, uniform.
    destruct (base_delay_bounds t Ht) as [Hb0 Hb3].
    assert (E1 : (s >=? 429)%Z = false) by lia.
    assert (E2 : (s >=? 500)%Z = false) by lia.
    rewrite E1, E2. set (b := Qmin (t * (3 # 2)) 3) in *. split; nra. }
  assert (Hhigh : forall t r s, 0 <= t -> 0 <= r <= 1 -> (429 <= s)%Z ->
                    10 <= adaptive_delay t s r <= 30).
  { clear. intros t r s Ht [Hr0 Hr1] Hs. unfold adaptive_delay, uniform.
    destruct (base_delay_bounds t Ht) as [Hb0 Hb3].
    assert (E1 : (s >=? 429)%Z = true) by lia.
    rewrite E1. set (b := Qmin (t * (3 # 2)) 3) in *. split; nra. }
  split; [|split].
  - intros Hs. now apply Hlow.
  - intros Hs. now apply Hhigh.
  - intros Hs Hs'.
    destruct (Hlow t r s Ht Hr Hs) as [_ H1].
    destruct (Hhigh t' r' s' Ht' Hr' Hs') as [H2 _]. lra.
Qed.

Lemma adaptive_delay_ranges_witness :
  0 <= adaptive_delay 1 200 (1 # 2) <= 9 # 2
  /\ 10 <= adaptive_delay 4 503 (1 # 2) <= 30
  /\ adaptive_delay 1 200 (1 # 2) < adaptive_delay 4 503 (1 # 2).
Proof.
  assert (H0 : 0 <= 1) by lra. assert (H4 : 0 <= 4) by lra.
  assert (Hr : 0 <= 1 # 2 <= 1) by (split; lra).
  destruct (adaptive_delay_ranges 1 (1 # 2) 4 (1 # 2) 200 503 H0 Hr H4 Hr)
    as (H1 & _ & H3).
  destruct (adaptive_delay_ranges 4 (1 # 2) 4 (1 # 2) 503 503 H4 Hr H4 Hr)
    as (_ & H2 & _).
  split; [apply H1; lia | split; [apply H2; lia | apply H3; lia]].
Defined.

(** X7 -- [adaptive_delay] grows with the response time and saturates:
    for one status and one draw in [0, 1] a slower response never gives a
    shorter delay, and every response time of 2 seconds or more gives the
    delay of 2 seconds (the base is capped at 3 seconds). *)
Theorem adaptive_delay_monotone (t1 t2 r : Q) (s : Z) :
  0 <= r <= 1 ->
  (t1 <= t2 -> adaptive_delay t1 s r <= adaptive_delay t2 s r)
  /\ (2 <= t1 -> adaptive_delay t1 s r == adaptive_delay 2 s r).
Proof.
  intros [Hr0 Hr1]. split.
  - intros Ht.
    assert (Hb : Qmin (t1 * (3 # 2)) 3 <= Qmin (t2 * (3 # 2)) 3).
    { apply Q.min_le_compat_r. lra. }
    unfold adaptive_delay, uniform.
    set (b1 := Qmin (t1 * (3 # 2)) 3) in *. set (b2 := Qmin (t2 * (3 # 2)) 3) in *.
    destruct (s >=? 429)%Z; [lra|]. destruct (s >=? 500)%Z; [lra|]. nra.
  - intros Ht.
    assert (Hb : Qmin (t1 * (3 # 2)) 3 == 3) by (apply Q.min_r; lra).
    assert (Hb2 : Qmin (2 * (3 # 2)) 3 == 3) by (apply Q.min_r; lra).
    unfold adaptive_delay, uniform.
    set (b1 := Qmin (t1 * (3 # 2)) 3) in *. set (b2 := Qmin (2 * (3 # 2)) 3) in *.
    destruct (s >=? 429)%Z; [lra|]. destruct (s >=? 500)%Z; [lra|]. nra.
Qed.

Lemma adaptive_delay_monotone_witness :
  adaptive_delay (1 # 2) 200 (1 # 3) <= adaptive_delay 1 200 (1 # 3)
  /\ adaptive_delay 7 200 (1 # 3) == adaptive_delay 2 200 (1 # 3).
Proof.
  assert (Hr : 0 <= 1 # 3 <= 1) by (split; lra).
  split.
  - apply (adaptive_delay_monotone (1 # 2) 1 (1 # 3) 200 Hr). lra.
  - apply (adaptive_delay_monotone 7 1 (1 # 3) 200 Hr). lra.
Defined.

End RateBounds.

(** * Facts about the attempts at a listing page *)

Section AttemptFacts.
Context `{urllib.NetlocCheck} (B : Browser).
Implicit Types (st : Run B).

Lemma process_brand_page_once_cases brand n st u :
  get_pagination_url (Brand.url brand) n = Some u ->
  attempt_ok n u st (process_brand_page_once B brand n st).
Proof.
  intros Hu. unfold attempt_ok, process_brand_page_once. rewrite Hu.
  destruct (goto_listing B u (world st)) as [w [| |s e]]; cbn; [auto..|].
  destruct (s =? 200)%Z eqn:Es; cbn; [|auto].
  apply Z.eqb_eq in Es. subst s.
  destruct (wait_listing B w) as [w' [| |]] eqn:Ew; cbn; [|auto..].
  destruct (random B w') as [w'' q] eqn:Er; cbn.
  split; [reflexivity|]. split; [reflexivity|]. exists w, w', e.
  split; [reflexivity|]. split; [exact Ew|].
  rewrite Er. cbn [snd]. now rewrite <- app_assoc.
Qed.

Lemma process_brand_page_once_unparsed brand n st :
  get_pagination_url (Brand.url brand) n = None ->
  process_brand_page_once B brand n st = (st, Raise).
Proof. intros Hu. unfold process_brand_page_once. now rewrite Hu. Qed.

Lemma retry_loop_shape n u (func : Run B -> Run B * Res bool) :
  (forall s, attempt_ok n u s (func s)) ->
  forall k retries st,
    let r := retry_loop B 2 func k retries st in
    disk (fst r) = disk st /\ log (fst r) = log st /\
    exists j tail,
      (j <= k)%nat
      /\ trace (fst r) = (trace st ++ backoff_events n u retries j ++ tail)%list
      /\ match snd r with
         | Raise => j = k /\ tail = []
         | Ret false => (j < k)%nat /\ tail = [ListingRequest n u]
         | Ret true =>
             (j < k)%nat
             /\ exists w1 w2 t,
                  goto_listing B u (world (after_raises func retries j st))
                  = (w1, NavResponse 200 t)
                  /\ wait_listing B w1 = (w2, WaitFound)
                  /\ tail = [ListingRequest n u;
                             Sleep (adaptive_delay t 200 (snd (random B w2)))]
         end.
Proof.
  intros Hf k. induction k as [|k IH]; intros retries st.
  - cbn. split; [reflexivity|]. split; [reflexivity|].
    exists 0%nat, []. cbn. rewrite app_nil_r. auto.
  - cbv zeta. rewrite (retry_loop_step B).
    pose proof (Hf st) as (Hd & Hl & Ht).
    destruct (func st) as [st1 [|[|]]] eqn:Ef; cbn [fst snd] in *.
    + specialize (IH (retries + 1)%Z
                     (emit B (Sleep (inject_Z (2 ^ (retries + 1)))) st1)).
      cbv zeta in IH. destruct IH as (IHd & IHl & j & tail & Hj & IHt & IHr).
      split; [now rewrite IHd|]. split; [now rewrite IHl|].
      exists (S j), tail. split; [lia|]. split.
      * rewrite IHt. cbn [emit trace backoff_events]. rewrite Ht.
        rewrite <- !app_assoc. reflexivity.
      * destruct (snd (retry_loop B 2 func k (retries + 1) _)) as [|[|]].
        -- destruct IHr as [-> ->]. auto.
        -- destruct IHr as [Hlt Hex]. split; [lia|].
           cbn [after_raises]. rewrite Ef. exact Hex.
        -- destruct IHr as [Hlt ->]. split; [lia|reflexivity].
    + split; [exact Hd|]. split; [exact Hl|].
      destruct Ht as (w1 & w2 & t & Hgo & Hwait & Ht).
      exists 0%nat. eexists. split; [lia|]. split; [exact Ht|].
      split; [lia|]. now exists w1, w2, t.
    + split; [exact Hd|]. split; [exact Hl|].
      exists 0%nat, [ListingRequest n u]. split; [lia|]. split; [exact Ht|].
      split; [lia|reflexivity].
Qed.

End AttemptFacts.

(** * Invariants of the brand loop *)

Section DiskFacts.
Context `{urllib.NetlocCheck} (B : Browser).
Implicit Types (st : Run B).

Lemma process_brand_page_parsed brand n st u :
  get_pagination_url (Brand.url brand) n = Some u ->
  let r := process_brand_page B brand n st in
  disk (fst r) = disk st /\ log (fst r) = log st /\
  exists j tail,
    (j <= 3)%nat
    /\ trace (fst r) = (trace st ++ backoff_events n u 0 j ++ tail)%list
    /\ match snd r with
       | Raise => j = 3%nat /\ tail = []
       | Ret false => (j < 3)%nat /\ tail = [ListingRequest n u]
       | Ret true =>
           (j < 3)%nat
           /\ exists w1 w2 t,
                goto_listing B u
                  (world (after_raises (process_brand_page_once B brand n) 0 j st))
                = (w1, NavResponse 200 t)
                /\ wait_listing B w1 = (w2, WaitFound)
                /\ tail = [ListingRequest n u;
                           Sleep (adaptive_delay t 200 (snd (random B w2)))]
       end.
Proof.
  intros Hu. unfold process_brand_page, with_retry.
  apply (retry_loop_shape B n u). intros s. now apply process_brand_page_once_cases.
Qed.

Lemma process_brand_page_unparsed brand n st :
  get_pagination_url (Brand.url brand) n = None ->
  process_brand_page B brand n st
  = (mkRun (world st) (disk st)
           (trace st ++ [Sleep (inject_Z 2); Sleep (inject_Z 4); Sleep (inject_Z 8)])%list
           (log st),
     Raise).
Proof.
  intros Hu. unfold process_brand_page, with_retry.
  do 3 (rewrite retry_loop_step, process_brand_page_once_unparsed by exact Hu).
  unfold retry_loop, emit. cbn [world disk trace log].
  rewrite <- !app_assoc. reflexivity.
Qed.

Lemma process_brand_page_disk brand n st :
  disk (fst (process_brand_page B brand n st)) = disk st.
Proof.
  destruct (get_pagination_url (Brand.url brand) n) as [u|] eqn:Hu.
  - now destruct (process_brand_page_parsed brand n st u Hu) as [Hd _].
  - now rewrite process_brand_page_unparsed.
Qed.

Lemma process_listing_page_disk st :
  disk (fst (process_listing_page B st)) = disk st.
Proof.
  unfold process_listing_page. now destruct (read_listing B (world st)).
Qed.

Lemma polite_delay_disk st : disk (polite_delay B st) = disk st.
Proof.
  unfold polite_delay, sleep_uniform. now destruct (random B (world st)).
Qed.

Lemma save_watches_disk ws st :
  disk (save_watches B ws st) = fst (save_watches_to_json ws WATCHES_JSON (disk st)).
Proof.
  unfold save_watches. now destruct (save_watches_to_json ws WATCHES_JSON (disk st)).
Qed.

Lemma process_watch_detail_cases url brand_name st :
  let r := process_watch_detail B url brand_name st in
  disk (fst r) = disk st
  /\ forall w, snd r = Some w ->
       exists u page, make_absolute_url url = Some u
                      /\ watch_of_page u page = Ret (Some w).
Proof.
  unfold process_watch_detail.
  destruct (make_absolute_url url) as [u|]; [|split; [reflexivity|discriminate]].
  destruct (goto_detail B u (world st)) as [w [|page]]; cbn;
    [split; [reflexivity|discriminate]|].
  destruct (watch_of_page u page) as [|r] eqn:Hp; cbn;
    [split; [reflexivity|discriminate]|].
  split; [reflexivity|]. intros w' ->. now exists u, page.
Qed.

End DiskFacts.

Section LoopInvariant.
Context `{urllib.NetlocCheck} (B : Browser).
Variable brand : Brand.t.
Variable I : Acc -> Disk -> Prop.
Variable Pg : Z -> Prop.
Implicit Types (st : Run B) (acc : Acc).

Hypothesis Hitem : forall acc d n url w page,
  Pg n -> I acc d -> absolute url -> watch_of_page url page = Ret (Some w) ->
  I (mkAcc (brand_watches acc ++ [w])%list (processed acc ∪ {[url]}))
    (save_progress (Brand.name brand)
       (Progress.mk (Some n) (Some (elements (processed acc ∪ {[url]}))))
       (fst (save_watches_to_json [w] WATCHES_JSON d))).

Hypothesis Hpage : forall acc d n,
  Pg n -> I acc d ->
  I acc (save_progress (Brand.name brand)
           (Progress.mk (Some (n + 1)%Z) (Some (elements (processed acc)))) d).

Lemma item_loop_inv n urls acc st :
  Pg n -> Forall absolute urls -> I acc (disk st) ->
  I (fst (item_loop B brand n urls acc st))
    (disk (snd (item_loop B brand n urls acc st))).
Proof.
  intros Hn Hurls. revert acc st.
  induction Hurls as [|url urls Hurl Hurls IH]; intros acc st HI; [exact HI|].
  rewrite item_loop_cons. cbv zeta.
  destruct (process_watch_detail_cases B url (Brand.name brand) st) as [Hd Hw].
  destruct (process_watch_detail B url (Brand.name brand) st) as [st1 [w|]];
    cbn [fst snd item_step] in *.
  - apply IH. rewrite polite_delay_disk. cbn [on_disk disk].
    rewrite save_watches_disk, Hd.
    destruct (Hw w eq_refl) as (u & page & Hu & Hp).
    assert (u = url) as -> by (unfold absolute in Hurl; congruence).
    now apply (Hitem acc (disk st) n url w page).
  - apply IH. now rewrite polite_delay_disk, Hd.
Qed.

Lemma filter_new_absolute acc (watch_urls : list string) :
  Forall absolute watch_urls ->
  Forall absolute
    (List.filter (fun url => negb (bool_decide (url ∈ processed acc))) watch_urls).
Proof.
  intros Ha. apply Forall_forall. intros u Hu.
  apply list_elem_of_In, filter_In in Hu as [Hu _].
  apply list_elem_of_In in Hu. revert u Hu. now apply Forall_forall.
Qed.

Lemma page_loop_inv pages acc st :
  Forall Pg pages -> I acc (disk st) ->
  I (loop_acc (page_loop B brand pages acc st))
    (disk (loop_state (page_loop B brand pages acc st))).
Proof.
  intros Hpages. revert acc st.
  induction Hpages as [|n pages Hn Hpages IH]; intros acc st HI; [exact HI|].
  cbn [page_loop].
  pose proof (process_brand_page_disk B brand n st) as Hd.
  destruct (process_brand_page B brand n st) as [st1 [|[|]]]; cbn [fst] in Hd;
    [now rewrite <- Hd in HI | | now rewrite <- Hd in HI].
  pose proof (process_listing_page_disk B st1) as Hd2.
  destruct (process_listing_page_spec B st1) as [_ Habs].
  destruct (process_listing_page B st1) as [st2 watch_urls]; cbn [fst snd] in *.
  assert (HI2 : I acc (disk st2)) by (rewrite Hd2, Hd; exact HI).
  destruct watch_urls as [|u0 rest]; [exact HI2|].
  pose proof (filter_new_absolute acc (u0 :: rest) Habs) as Hnew.
  destruct (List.filter _ (u0 :: rest)) as [|v0 new_rest] eqn:Ef; [exact HI2|].
  pose proof (item_loop_inv n (v0 :: new_rest) acc st2 Hn Hnew HI2) as HI3.
  destruct (item_loop B brand n (v0 :: new_rest) acc st2) as [acc3 st3];
    cbn [fst snd] in HI3.
  apply IH. cbn [on_disk disk]. now apply Hpage.
Qed.

Lemma page_loop_raised pages acc st n :
  snd (page_loop B brand pages acc st) = Some n -> n ∈ pages.
Proof.
  revert acc st. induction pages as [|m pages IH]; intros acc st; [discriminate|].
  cbn [page_loop].
  destruct (process_brand_page B brand m st) as [st1 [|[|]]]; cbn [snd];
    [intros [= ->]; left | | discriminate].
  destruct (process_listing_page B st1) as [st2 watch_urls].
  destruct watch_urls as [|u0 rest]; [discriminate|].
  destruct (List.filter _ (u0 :: rest)) as [|v0 new_rest]; [discriminate|].
  destruct (item_loop B brand m (v0 :: new_rest) acc st2) as [acc3 st3].
  intros Hr. right. now apply IH in Hr.
Qed.

Hypothesis Hraise : forall acc d n,
  Pg n -> I acc d ->
  I acc (save_progress (Brand.name brand)
           (Progress.mk (Some n) (Some (elements (processed acc)))) d).

Lemma process_brand_inv st :
  let c := cursor (Brand.name brand) (disk st) in
  (forall n, (start_page c <= n < 100)%Z -> Pg n) ->
  I (mkAcc [] (list_to_set (seen_urls c))) (disk st) ->
  exists acc,
    fst (process_brand B brand st) = brand_watches acc
    /\ I acc (disk (snd (process_brand B brand st))).
Proof.
  intros c Hpg HI. unfold process_brand. subst c. unfold cursor, start_page, seen_urls in *.
  destruct (load_progress (Brand.name brand) (disk st)) as [progress l];
    cbn [fst] in *.
  set (st0 := mkRun (world st) (disk st) (trace st) (log st ++ l)%list).
  set (acc0 := mkAcc [] _) in *.
  assert (Hpages : Forall Pg (py_range (default 1%Z (Progress.current_page progress)) 100)).
  { eapply Forall_impl; [apply py_range_bounds|]. exact Hpg. }
  pose proof (page_loop_inv _ acc0 st0 Hpages HI) as Hinv.
  pose proof (page_loop_raised (py_range (default 1%Z (Progress.current_page progress)) 100)
                acc0 st0) as Hr.
  destruct (page_loop B brand _ acc0 st0) as [[acc1 st1] [n|]];
    cbn [loop_acc loop_state fst snd] in *.
  - exists acc1. split; [reflexivity|]. cbn [on_disk disk].
    apply Hraise; [|exact Hinv].
    specialize (Hr n eq_refl). revert n Hr. now apply Forall_forall.
  - exists acc1. now split.
Qed.

End LoopInvariant.

(** * The order of the listing requests *)

Section OrderFacts.
Context `{urllib.NetlocCheck} (B : Browser).
Implicit Types (st : Run B).

Lemma listing_requests_app (t1 t2 : list Event) :
  listing_requests (t1 ++ t2) = (listing_requests t1 ++ listing_requests t2)%list.
Proof. apply omap_app. Qed.

Lemma backoff_events_listing n u retries j :
  listing_requests (backoff_events n u retries j) = replicate j n.
Proof.
  revert retries. induction j as [|j IH]; intros retries; [reflexivity|].
  cbn [backoff_events]. change (listing_requests (?a :: ?b :: ?l))
    with (n :: listing_requests l). now rewrite IH.
Qed.

Lemma replicate_snoc {A} (k : nat) (x : A) :
  (replicate k x ++ [x])%list = replicate (S k) x.
Proof. induction k as [|k IH]; [reflexivity|]. cbn. now rewrite IH. Qed.

Lemma process_brand_page_listing brand n st :
  let r := process_brand_page B brand n st in
  exists reqs,
    listing_requests (trace (fst r)) = (listing_requests (trace st) ++ reqs)%list
    /\ ((reqs = [] /\ snd r = Raise)
        \/ exists c, (1 <= c <= 3)%nat /\ reqs = replicate c n).
Proof.
  destruct (get_pagination_url (Brand.url brand) n) as [u|] eqn:Hu.
  - destruct (process_brand_page_parsed B brand n st u Hu)
      as (_ & _ & j & tail & Hj & Ht & Hr).
    cbv zeta. exists (listing_requests (backoff_events n u 0 j ++ tail)).
    split; [now rewrite Ht, listing_requests_app|].
    right. rewrite listing_requests_app, backoff_events_listing.
    destruct (snd (process_brand_page B brand n st)) as [|[|]].
    + destruct Hr as [-> ->]. exists 3%nat. split; [lia|]. now rewrite app_nil_r.
    + destruct Hr as [Hlt (w1 & w2 & t & _ & _ & ->)]. exists (S j). split; [lia|].
      change (listing_requests [ListingRequest n u; Sleep _]) with [n].
      apply replicate_snoc.
    + destruct Hr as [Hlt ->]. exists (S j). split; [lia|].
      change (listing_requests [ListingRequest n u]) with [n].
      apply replicate_snoc.
  - cbv zeta. rewrite process_brand_page_unparsed by exact Hu. cbn [fst snd trace].
    exists []. split; [now rewrite listing_requests_app|]. left. split; reflexivity.
Qed.

Lemma polite_delay_listing st :
  listing_requests (trace (polite_delay B st)) = listing_requests (trace st).
Proof.
  unfold polite_delay, sleep_uniform. destruct (random B (world st)) as [w r].
  cbn [emit trace set_world]. rewrite listing_requests_app. cbn. apply app_nil_r.
Qed.

Lemma item_loop_listing brand page_num urls acc st :
  listing_requests (trace (snd (item_loop B brand page_num urls acc st)))
  = listing_requests (trace st).
Proof.
  revert acc st. induction urls as [|url urls IH]; intros acc st; [reflexivity|].
  rewrite item_loop_cons. cbv zeta. rewrite IH, polite_delay_listing, item_step_trace.
  rewrite process_watch_detail_trace, listing_requests_app.
  destruct (make_absolute_url url); cbn; apply app_nil_r.
Qed.

Lemma repeated_pages_cons n pages c counts :
  repeated_pages (n :: pages) (c :: counts)
  = (replicate c n ++ repeated_pages pages counts)%list.
Proof. reflexivity. Qed.

Lemma page_loop_order brand pages acc st :
  exists counts,
    listing_requests (trace (loop_state (page_loop B brand pages acc st)))
    = (listing_requests (trace st) ++ repeated_pages pages counts)%list
    /\ Forall (fun c => (1 <= c <= 3)%nat) counts
    /\ (length counts <= length pages)%nat.
Proof.
  revert acc st. induction pages as [|n pages IH]; intros acc st.
  - exists []. cbn. rewrite app_nil_r. auto.
  - cbn [page_loop].
    destruct (process_brand_page_listing brand n st) as (reqs & Ht & Hl).
    assert (Hone : forall st' : Run B,
               listing_requests (trace st') = (listing_requests (trace st) ++ reqs)%list ->
               (exists c, (1 <= c <= 3)%nat /\ reqs = replicate c n) ->
               exists counts,
                 listing_requests (trace st')
                 = (listing_requests (trace st) ++ repeated_pages (n :: pages) counts)%list
                 /\ Forall (fun c => (1 <= c <= 3)%nat) counts
                 /\ (length counts <= length (n :: pages))%nat).
    { intros st' Hst' (c & Hc & ->). exists [c]. split; [|split].
      - rewrite Hst', repeated_pages_cons. unfold repeated_pages at 1.
        destruct pages; cbn; now rewrite app_nil_r.
      - now constructor.
      - cbn. lia. }
    destruct (process_brand_page B brand n st) as [st1 [|[|]]];
      cbn [fst snd loop_state] in *.
    + destruct Hl as [[-> _] | Hc]; [|now apply Hone].
      exists []. split; [exact Ht|]. split; [constructor | cbn; lia].
    + destruct Hl as [[_ Hr] | Hc]; [discriminate Hr|].
      destruct (process_listing_page_spec B st1) as [Ht2 _].
      destruct (process_listing_page B st1) as [st2 watch_urls]; cbn [fst snd] in *.
      assert (Hst2 : listing_requests (trace st2)
                     = (listing_requests (trace st) ++ reqs)%list) by congruence.
      destruct watch_urls as [|u0 rest]; [now apply Hone|].
      destruct (List.filter _ (u0 :: rest)) as [|v0 new_rest]; [now apply Hone|].
      pose proof (item_loop_listing brand n (v0 :: new_rest) acc st2) as Hl3.
      destruct (item_loop B brand n (v0 :: new_rest) acc st2) as [acc3 st3];
        cbn [fst snd] in Hl3.
      destruct Hc as (c & Hc & ->).
      match goal with
      | |- context [page_loop B brand pages acc3 ?s] =>
          destruct (IH acc3 s) as (counts & Hreq & Hall & Hlen)
      end.
      exists (c :: counts). split; [|split].
      * rewrite Hreq. cbn [on_disk trace]. rewrite Hl3, Hst2, repeated_pages_cons.
        now rewrite app_assoc.
      * constructor; [lia | exact Hall].
      * cbn. lia.
    + destruct Hl as [[_ Hr] | Hc]; [discriminate Hr|]. now apply Hone.
Qed.

End OrderFacts.

(** ** Listing pages: attempts, back-off and stop conditions *)

(** X8 -- The retry contract of [process_brand_page].  A listing page
    is attempted at most three times, each attempt being one request for
    the same URL; an attempt is repeated only after it raised, and after
    the raise number i the loop sleeps 2^i seconds (2, 4, 8).  A result
    of [False] (no response, a status other than 200, no listing
    container) is returned at once, with no sleep.  On success the one
    further sleep is [adaptive_delay t 200 r], where the last attempt,
    made in the session the [j] raised attempts left, was answered with
    status 200 after [t] seconds, found the listing container, and [r]
    is the draw made then.  After three raises the exception is passed
    on.  The progress and dataset files are left as they were (the
    screenshot of a wait that timed out is no part of [Disk]). *)
Theorem process_brand_page_attempts `{urllib.NetlocCheck} (B : Browser)
  (brand : Brand.t) (n : Z) (st : Run B) (u : string) :
  get_pagination_url (Brand.url brand) n = Some u ->
  let r := process_brand_page B brand n st in
  backoff_events n u 0 3
  = [ListingRequest n u; Sleep 2; ListingRequest n u; Sleep 4;
     ListingRequest n u; Sleep 8]
  /\ disk (fst r) = disk st
  /\ exists j tail,
       (j <= 3)%nat
       /\ trace (fst r) = (trace st ++ backoff_events n u 0 j ++ tail)%list
       /\ match snd r with
          | Raise => j = 3%nat /\ tail = []
          | Ret false => (j < 3)%nat /\ tail = [ListingRequest n u]
          | Ret true =>
              (j < 3)%nat
              /\ exists w1 w2 t,
                   goto_listing B u
                     (world (after_raises (process_brand_page_once B brand n) 0 j st))
                   = (w1, NavResponse 200 t)
                   /\ wait_listing B w1 = (w2, WaitFound)
                   /\ tail = [ListingRequest n u;
                              Sleep (adaptive_delay t 200 (snd (random B w2)))]
          end.
Proof.
  intros Hu r. split; [reflexivity|].
  destruct (process_brand_page_parsed B brand n st u Hu) as (Hd & _ & Hshape).
  split; [exact Hd | exact Hshape].
Qed.

Lemma process_brand_page_attempts_witness :
  let r := process_brand_page (H := no_bracketed_hosts) flaky brand_x 2
             (fresh_run flaky 0%nat empty_disk) in
  get_pagination_url (H := no_bracketed_hosts) (Brand.url brand_x) 2
  = Some "https://x/brand/index-2.htm"
  /\ disk (fst r) = empty_disk
  /\ exists j tail,
       (j <= 3)%nat
       /\ trace (fst r)
          = ([] ++ backoff_events 2 "https://x/brand/index-2.htm" 0 j ++ tail)%list
       /\ match snd r with
          | Raise => j = 3%nat /\ tail = []
          | Ret false =>
              (j < 3)%nat /\ tail = [ListingRequest 2 "https://x/brand/index-2.htm"]
          | Ret true =>
              (j < 3)%nat
              /\ exists w1 w2 t,
                   goto_listing flaky "https://x/brand/index-2.htm"
                     (world (after_raises
                               (process_brand_page_once (H := no_bracketed_hosts)
                                  flaky brand_x 2)
                               0 j (fresh_run flaky 0%nat empty_disk)))
                   = (w1, NavResponse 200 t)
                   /\ wait_listing flaky w1 = (w2, WaitFound)
                   /\ tail = [ListingRequest 2 "https://x/brand/index-2.htm";
                              Sleep (adaptive_delay t 200 (snd (random flaky w2)))]
          end.
Proof.
  assert (Hu : get_pagination_url (H := no_bracketed_hosts) (Brand.url brand_x) 2
               = Some "https://x/brand/index-2.htm") by reflexivity.
  split; [exact Hu|].
  exact (proj2 (process_brand_page_attempts (H := no_bracketed_hosts) flaky brand_x 2
                  (fresh_run flaky 0%nat empty_disk) _ Hu)).
Defined.

Section StopFacts.
Context `{urllib.NetlocCheck} (B : Browser).
Implicit Types (st : Run B).

Lemma process_brand_page_once_raises brand n st u :
  get_pagination_url (Brand.url brand) n = Some u ->
  snd (goto_listing B u (world st)) = NavRaise ->
  process_brand_page_once B brand n st
  = (emit B (ListingRequest n u) (set_world B (fst (goto_listing B u (world st))) st),
     Raise).
Proof.
  intros Hu Hnav. unfold process_brand_page_once. rewrite Hu.
  destruct (goto_listing B u (world st)) as [w nav]. cbn in Hnav. now subst nav.
Qed.

Lemma process_brand_page_refused brand n st u w nav :
  get_pagination_url (Brand.url brand) n = Some u ->
  goto_listing B u (world st) = (w, nav) ->
  nav = NavNone \/ (exists s t, nav = NavResponse s t /\ s <> 200%Z) ->
  process_brand_page B brand n st
  = (emit B (ListingRequest n u) (set_world B w st), Ret false).
Proof.
  intros Hu Hgo Hnav. unfold process_brand_page, with_retry.
  rewrite retry_loop_step. unfold process_brand_page_once. rewrite Hu, Hgo.
  destruct Hnav as [-> | (s & t & -> & Hs)]; [reflexivity|].
  apply Z.eqb_neq in Hs. now rewrite Hs.
Qed.

End StopFacts.

(** X9 -- A refused listing page ends the brand at once, without
    back-off.  When the first navigation of a brand returns no response
    or a response whose status is not 200 (a 429 or a 5xx included),
    [process_brand] makes that one request and stops: no retry, no sleep,
    no record, and nothing is written, so the cursor stays where it was. *)
Theorem process_brand_stops_when_refused `{urllib.NetlocCheck} (B : Browser)
  (brand : Brand.t) (st : Run B) (u : string) (w : World B) (nav : Nav) :
  let c := cursor (Brand.name brand) (disk st) in
  (start_page c < 100)%Z ->
  get_pagination_url (Brand.url brand) (start_page c) = Some u ->
  goto_listing B u (world st) = (w, nav) ->
  nav = NavNone \/ (exists s t, nav = NavResponse s t /\ s <> 200%Z) ->
  process_brand B brand st
  = ([], mkRun w (disk st)
               (trace st ++ [ListingRequest (start_page c) u])%list
               (log st ++ snd (load_progress (Brand.name brand) (disk st)))%list).
Proof.
  intros c Hk Hu Hgo Hnav. subst c. unfold process_brand, cursor, start_page in *.
  destruct (load_progress (Brand.name brand) (disk st)) as [progress l]; cbn [fst snd] in *.
  rewrite py_range_cons by exact Hk. cbn [page_loop].
  match goal with
  | |- context [process_brand_page B brand _ ?s] =>
      rewrite (process_brand_page_refused B brand _ s u w nav Hu Hgo Hnav)
  end.
  reflexivity.
Qed.

Lemma process_brand_stops_when_refused_witness :
  process_brand (H := no_bracketed_hosts) rate_limited brand_x
    (fresh_run rate_limited 0%nat resumed_disk)
  = ([], mkRun (B := rate_limited) 1%nat resumed_disk
               [ListingRequest 3 "https://x/brand/index-3.htm"] []).
Proof.
  apply (process_brand_stops_when_refused (H := no_bracketed_hosts) rate_limited brand_x
           (fresh_run rate_limited 0%nat resumed_disk)
           "https://x/brand/index-3.htm" 1%nat (NavResponse 429 1)).
  - reflexivity.
  - reflexivity.
  - reflexivity.
  - right. exists 429%Z, 1%Q. split; [reflexivity | discriminate].
Defined.

(** X10 -- A listing page that cannot be loaded costs three requests and
    the back-off sleeps of 2, 4 and 8 seconds; [process_brand] then gives
    up the brand and saves the cursor at that very page with the URLs
    processed so far, so that the next run starts by trying the same page
    again.  No dataset file is touched. *)
Theorem process_brand_gives_up_after_three_raises `{urllib.NetlocCheck} (B : Browser)
  (brand : Brand.t) (st : Run B) (u : string) :
  let c := cursor (Brand.name brand) (disk st) in
  (start_page c < 100)%Z ->
  get_pagination_url (Brand.url brand) (start_page c) = Some u ->
  (forall url w, snd (goto_listing B url w) = NavRaise) ->
  let r := process_brand B brand st in
  fst r = []
  /\ trace (snd r)
     = (trace st ++ [ListingRequest (start_page c) u; Sleep 2;
                     ListingRequest (start_page c) u; Sleep 4;
                     ListingRequest (start_page c) u; Sleep 8])%list
  /\ disk (snd r)
     = save_progress (Brand.name brand)
         (Progress.mk (Some (start_page c))
                      (Some (elements (list_to_set (seen_urls c) : gset string))))
         (disk st)
  /\ start_page (cursor (Brand.name brand) (disk (snd r))) = start_page c.
Proof.
  intros c Hk Hu Hnav r. subst c r.
  assert (Hpage : forall st' : Run B,
             let k := start_page (cursor (Brand.name brand) (disk st)) in
             exists w,
               process_brand_page B brand k st'
               = (mkRun w (disk st')
                    (trace st' ++ [ListingRequest k u; Sleep 2;
                                   ListingRequest k u; Sleep 4;
                                   ListingRequest k u; Sleep 8])%list
                    (log st'), Raise)).
  { intros st' k. unfold process_brand_page, with_retry.
    do 3 (rewrite retry_loop_step, (process_brand_page_once_raises B brand k _ u Hu)
            by apply Hnav).
    unfold retry_loop, emit, set_world. cbn [world disk trace log].
    rewrite <- !app_assoc. eexists. reflexivity. }
  unfold process_brand, cursor, start_page, seen_urls in *.
  destruct (load_progress (Brand.name brand) (disk st)) as [progress l] eqn:Hload;
    cbn [fst snd] in *.
  rewrite py_range_cons by exact Hk. cbn [page_loop].
  match goal with
  | |- context [process_brand_page B brand _ ?s] => destruct (Hpage s) as [w Hw]
  end.
  cbv zeta in Hw. rewrite Hw. cbn [fst snd on_disk disk trace brand_watches processed].
  split; [reflexivity|]. split; [reflexivity|]. split; [reflexivity|].
  now rewrite load_save_progress.
Qed.

Lemma process_brand_gives_up_after_three_raises_witness :
  let r := process_brand (H := no_bracketed_hosts) unreachable brand_x
             (fresh_run unreachable 0%nat empty_disk) in
  fst r = []
  /\ trace (snd r)
     = [ListingRequest 1 "https://x/brand/index.htm"; Sleep 2;
        ListingRequest 1 "https://x/brand/index.htm"; Sleep 4;
        ListingRequest 1 "https://x/brand/index.htm"; Sleep 8]
  /\ start_page (cursor "Rolex" (disk (snd r))) = 1%Z.
Proof.
  destruct (process_brand_gives_up_after_three_raises (H := no_bracketed_hosts)
              unreachable brand_x (fresh_run unreachable 0%nat empty_disk)
              "https://x/brand/index.htm")
    as (H1 & H2 & _ & H4).
  - reflexivity.
  - reflexivity.
  - reflexivity.
  - split; [exact H1|]. split; [exact H2 | exact H4].
Defined.

(** X11 -- Listing pages are requested in order, without a gap.  The
    listing requests of [process_brand] are those of the pages
    [start_page], [start_page + 1], ... of [range(start_page, 100)], in
    that order, each page requested between one and three times in a row
    (the repeats are the retries); a page is never requested again after
    a later page, and no page is skipped. *)
Theorem process_brand_page_order `{urllib.NetlocCheck} (B : Browser)
  (brand : Brand.t) (st : Run B) :
  let c := cursor (Brand.name brand) (disk st) in
  exists counts,
    listing_requests (trace (snd (process_brand B brand st)))
    = (listing_requests (trace st)
       ++ repeated_pages (py_range (start_page c) 100) counts)%list
    /\ Forall (fun k => (1 <= k <= 3)%nat) counts
    /\ (length counts <= length (py_range (start_page c) 100))%nat.
Proof.
  intros c. subst c. unfold process_brand, cursor, start_page.
  destruct (load_progress (Brand.name brand) (disk st)) as [progress l]; cbn [fst].
  match goal with
  | |- context [page_loop B brand ?pages ?a ?s] =>
      destruct (page_loop_order B brand pages a s) as (counts & Hreq & Hall & Hlen);
      destruct (page_loop B brand pages a s) as [[acc1 st1] [n|]]
  end; cbn [loop_state fst snd] in *; exists counts; auto.
Qed.

(** * Facts about the records *)

Section RecordFacts.
Import Py.

Lemma row_entry_ok row k v : row_entry row = Some (k, v) -> spec_entry_ok k v.
Proof.
  destruct row as [[kt|] [vt|]]; try discriminate.
  rewrite row_entry_cells.
  destruct (String.eqb (lower (row_key kt)) "basic info") eqn:E1; [discriminate|].
  destruct (String.eqb (lower (row_key kt)) "description"
            && String.eqb (lower (row_value vt)) "description") eqn:E2; [discriminate|].
  destruct (nonempty (row_key kt)) eqn:E3; [|discriminate].
  intros [= <- <-]. unfold spec_entry_ok.
  split; [now apply nonempty_true|].
  split; [apply strip_idem|]. split; [apply row_value_stripped|].
  split; [now apply String.eqb_neq|].
  intros [Hk Hv]. rewrite Hk, Hv in E2. discriminate E2.
Qed.

Lemma spec_rows_ok rows (specs : gmap string string) :
  (forall k v, specs !! k = Some v -> spec_entry_ok k v) ->
  forall k v, spec_rows rows specs !! k = Some v -> spec_entry_ok k v.
Proof.
  revert specs. induction rows as [|row rows IH]; intros specs Hs; [exact Hs|].
  unfold spec_rows. cbn [fold_left]. apply IH.
  rewrite spec_row_entry. destruct (row_entry row) as [[k0 v0]|] eqn:Er; [|exact Hs].
  intros k v. destruct (decide (k = k0)) as [->|Hne].
  - rewrite lookup_insert_eq. intros [= <-]. now apply (row_entry_ok row).
  - rewrite lookup_insert_ne by congruence. apply Hs.
Qed.

Lemma spec_tables_ok tables (specs : gmap string string) :
  (forall k v, specs !! k = Some v -> spec_entry_ok k v) ->
  forall k v, spec_tables tables specs !! k = Some v -> spec_entry_ok k v.
Proof.
  revert specs. induction tables as [|t tables IH]; intros specs Hs; [exact Hs|].
  unfold spec_tables. cbn [fold_left]. apply IH. now apply spec_rows_ok.
Qed.

Lemma extract_specs_loop_ok page selectors (specs : gmap string string) :
  (forall k v, specs !! k = Some v -> spec_entry_ok k v) ->
  forall k v, extract_specs_loop page selectors specs !! k = Some v -> spec_entry_ok k v.
Proof.
  revert specs. induction selectors as [|sel rest IH]; intros specs Hs; [exact Hs|].
  cbn [extract_specs_loop].
  destruct (query_tables page sel) as [|[|t tables]]; [now apply IH..|].
  pose proof (spec_tables_ok (t :: tables) specs Hs) as Ht.
  destruct (bool_decide (spec_tables (t :: tables) specs = ∅)); [now apply IH | exact Ht].
Qed.

Lemma extract_specs_ok page k v :
  extract_specs page !! k = Some v -> spec_entry_ok k v.
Proof.
  apply extract_specs_loop_ok. intros k' v'. now rewrite lookup_empty.
Qed.

Lemma strip_empty : strip "" = "".
Proof. reflexivity. Qed.

Lemma extract_description_loop_stripped page selectors :
  strip (extract_description_loop page selectors) = extract_description_loop page selectors.
Proof.
  induction selectors as [|sel rest IH]; [reflexivity|].
  cbn [extract_description_loop].
  destruct (query_text page sel) as [|[text|]]; [exact IH | | exact IH].
  destruct (nonempty (strip text)); [apply strip_idem | exact IH].
Qed.

End RecordFacts.

Section PageFacts.
Context `{urllib.NetlocCheck}.
Import Py.

Lemma watch_of_page_url u page w :
  watch_of_page u page = Ret (Some w) -> Watch.url w = u.
Proof.
  unfold watch_of_page.
  destruct (query_text page DETAIL_NAME) as [|first]; [discriminate|].
  destruct (match first with Some t => Ret (Some t) | None => query_text page "h1" end)
    as [|name_element]; [discriminate|].
  destruct (negb (nonempty _)); [discriminate|].
  destruct (query_text page DETAIL_PRICE) as [|price_element]; [discriminate|].
  destruct (extract_specs page !! "Description") as [d|];
    [destruct (negb (nonempty (extract_description page)))|];
    now intros [= <-].
Qed.

Lemma watch_of_page_ok u page w :
  absolute u -> watch_of_page u page = Ret (Some w) -> record_ok w.
Proof.
  intros Hu. unfold watch_of_page.
  destruct (query_text page DETAIL_NAME) as [|first]; [discriminate|].
  destruct (match first with Some t => Ret (Some t) | None => query_text page "h1" end)
    as [|name_element]; [discriminate|].
  set (watch_name := match name_element with Some t => strip t | None => "" end).
  assert (Hname : strip watch_name = watch_name).
  { unfold watch_name. destruct name_element; [apply strip_idem | reflexivity]. }
  destruct (nonempty watch_name) eqn:En; cbn [negb]; [|discriminate].
  destruct (query_text page DETAIL_PRICE) as [|price_element]; [discriminate|].
  set (price := match price_element with Some t => strip t | None => "" end).
  assert (Hprice : strip price = price).
  { unfold price. destruct price_element; [apply strip_idem | reflexivity]. }
  assert (Hdesc : strip (extract_description page) = extract_description page)
    by apply extract_description_loop_stripped.
  pose proof (extract_specs_ok page) as Hspecs.
  destruct (extract_specs page !! "Description") as [d|] eqn:Ed.
  - destruct (nonempty (extract_description page)) eqn:Ee; cbn [negb].
    + intros [= <-]. unfold record_ok. cbn [Watch.url Watch.name Watch.price Watch.description Watch.specifications].
      split; [exact Hu|]. split; [now apply nonempty_true|].
      split; [exact Hname|]. split; [exact Hprice|]. split; [exact Hdesc|].
      split; [|exact Hspecs].
      intros E. rewrite E in Ee. discriminate Ee.
    + intros [= <-]. unfold record_ok. cbn [Watch.url Watch.name Watch.price Watch.description Watch.specifications].
      split; [exact Hu|]. split; [now apply nonempty_true|].
      split; [exact Hname|]. split; [exact Hprice|].
      split; [apply (Hspecs _ _ Ed)|].
      split; [intros _; apply lookup_delete_eq|].
      intros k v [_ Hk]%lookup_delete_Some. now apply Hspecs.
  - intros [= <-]. unfold record_ok. cbn [Watch.url Watch.name Watch.price Watch.description Watch.specifications].
    split; [exact Hu|]. split; [now apply nonempty_true|].
    split; [exact Hname|]. split; [exact Hprice|]. split; [exact Hdesc|].
    split; [intros _; exact Ed | exact Hspecs].
Qed.

End PageFacts.

(** ** The brand orchestrator and the two stores *)

Lemma cursor_save_progress (brand_name : string) (p : Progress.t) (d : Disk) :
  cursor brand_name (save_progress brand_name p d) = p.
Proof. unfold cursor. now rewrite load_save_progress. Qed.

Lemma cursor_save_watches (brand_name : string) ws f (d : Disk) :
  cursor brand_name (fst (save_watches_to_json ws f d)) = cursor brand_name d.
Proof.
  unfold cursor, load_progress. now rewrite save_watches_to_json_progress.
Qed.

(** X12 -- The cursor of a brand never moves back.  Whatever the site
    does, after [process_brand] the saved page number is at least the
    one the run loaded (and at most 100 when it started below), and
    every URL that was listed as processed is still listed. *)
Theorem process_brand_cursor_advances `{urllib.NetlocCheck} (B : Browser)
  (brand : Brand.t) (st : Run B) :
  let c0 := cursor (Brand.name brand) (disk st) in
  let c1 := cursor (Brand.name brand) (disk (snd (process_brand B brand st))) in
  (start_page c0 <= start_page c1 <= Z.max (start_page c0) 100)%Z
  /\ forall u, u ∈ seen_urls c0 -> u ∈ seen_urls c1.
Proof.
  intros c0 c1.
  set (k := start_page c0).
  set (S0 := list_to_set (seen_urls c0) : gset string).
  pose (I := fun (acc : Acc) (d : Disk) =>
               S0 ⊆ processed acc
               /\ (k <= start_page (cursor (Brand.name brand) d) <= Z.max k 100)%Z
               /\ forall u, u ∈ seen_urls c0 ->
                            u ∈ seen_urls (cursor (Brand.name brand) d)).
  assert (Hsave : forall acc d n (S1 : gset string),
             (k <= n <= Z.max k 100)%Z -> S0 ⊆ S1 -> S0 ⊆ processed acc ->
             I acc (save_progress (Brand.name brand)
                      (Progress.mk (Some n) (Some (elements S1))) d)).
  { intros acc d n S1 Hn HS Hacc. unfold I. rewrite cursor_save_progress.
    split; [exact Hacc|]. split; [exact Hn|].
    intros u Hu. cbn. apply elem_of_elements, HS. unfold S0.
    now apply elem_of_list_to_set. }
  destruct (process_brand_inv B brand I (fun n => (k <= n < 100)%Z)) with (st := st)
    as (acc & _ & _ & Hpage & Hurls).
  - intros acc d n url w page Hn (HS & _ & _) _ _. cbv beta in Hn.
    assert (HS' : list_to_set (seen_urls c0) ⊆ processed acc ∪ {[url]}).
    { etrans; [exact HS | apply union_subseteq_l]. }
    apply Hsave; [lia | exact HS' | exact HS'].
  - intros acc d n Hn (HS & _ & _). cbv beta in Hn.
    apply Hsave; [lia | exact HS | exact HS].
  - intros acc d n Hn (HS & _ & _). cbv beta in Hn.
    apply Hsave; [lia | exact HS | exact HS].
  - intros n Hn. exact Hn.
  - unfold I. cbn [processed]. split; [reflexivity|]. split; [change (k <= k <= Z.max k 100)%Z; lia|]. auto.
  - split; [exact Hpage | exact Hurls].
Qed.

Lemma process_brand_cursor_advances_witness :
  let d := disk (snd (process_brand (H := no_bracketed_hosts) flaky brand_x
                        (fresh_run flaky 0%nat resumed_disk))) in
  (3 <= start_page (cursor "Rolex" d))%Z
  /\ "https://x/w9" ∈ seen_urls (cursor "Rolex" d).
Proof.
  destruct (process_brand_cursor_advances (H := no_bracketed_hosts) flaky brand_x
              (fresh_run flaky 0%nat resumed_disk)) as [[Hpage _] Hurls].
  split; [exact Hpage|]. apply Hurls. vm_compute. right. left.
Defined.

(** X13 -- What [process_brand] returns is on disk when it returns.
    Every record it returns has its URL in the dataset file and in the
    list of processed URLs of the saved cursor; the dataset file has
    grown only at its end, by records among the returned ones, and no
    other dataset file was touched.  Saving the returned list once more,
    as [main] does after the brand, therefore writes nothing. *)
Theorem process_brand_durable `{urllib.NetlocCheck} (B : Browser)
  (brand : Brand.t) (st : Run B) :
  let r := process_brand B brand st in
  (forall w, w ∈ fst r ->
     Watch.url w ∈ stored_urls WATCHES_JSON (disk (snd r))
     /\ Watch.url w ∈ seen_urls (cursor (Brand.name brand) (disk (snd r))))
  /\ (exists added,
        stored_watches WATCHES_JSON (disk (snd r))
        = (stored_watches WATCHES_JSON (disk st) ++ added)%list
        /\ sublist added (fst r))
  /\ (forall g, g <> WATCHES_JSON ->
        watch_files (disk (snd r)) !! g = watch_files (disk st) !! g)
  /\ fst (save_watches_to_json (fst r) WATCHES_JSON (disk (snd r))) = disk (snd r).
Proof.
  intros r.
  pose (I := fun (acc : Acc) (d : Disk) =>
               (forall w, w ∈ brand_watches acc ->
                  Watch.url w ∈ stored_urls WATCHES_JSON d
                  /\ Watch.url w ∈ processed acc
                  /\ (brand_watches acc <> [] ->
                      Watch.url w ∈ seen_urls (cursor (Brand.name brand) d)))
               /\ (brand_watches acc <> [] ->
                   forall u, u ∈ processed acc ->
                             u ∈ seen_urls (cursor (Brand.name brand) d))
               /\ (exists added,
                     stored_watches WATCHES_JSON d
                     = (stored_watches WATCHES_JSON (disk st) ++ added)%list
                     /\ sublist added (brand_watches acc))
               /\ (forall g, g <> WATCHES_JSON ->
                     watch_files d !! g = watch_files (disk st) !! g)).
  assert (Hsave : forall acc d n,
             I acc d ->
             I acc (save_progress (Brand.name brand)
                      (Progress.mk (Some n) (Some (elements (processed acc)))) d)).
  { intros acc d n (Hw & _ & Hadd & Hoth). unfold I. rewrite cursor_save_progress.
    split; [|split; [|split]].
    - intros w Hin. destruct (Hw w Hin) as (H1 & H2 & _).
      split; [exact H1|]. split; [exact H2|]. intros _. cbn.
      now apply elem_of_elements.
    - intros _ u Hu. cbn. now apply elem_of_elements.
    - exact Hadd.
    - exact Hoth. }
  destruct (process_brand_inv B brand I (fun _ => True)) with (st := st)
    as (acc & Hacc & Hw & _ & Hadd & Hoth).
  - intros acc d n url w page _ (Hw & _ & (added & Hst & Hsub) & Hoth) Habs Hpage.
    pose proof (watch_of_page_url url page w Hpage) as Hurl.
    unfold I. rewrite cursor_save_progress.
    cbn [brand_watches processed seen_urls Progress.processed_urls default from_option].
    assert (Hstored : forall d', stored_urls WATCHES_JSON
                        (save_progress (Brand.name brand) d' 
                           (fst (save_watches_to_json [w] WATCHES_JSON d)))
                      = stored_urls WATCHES_JSON
                          (fst (save_watches_to_json [w] WATCHES_JSON d)))
      by reflexivity.
    split; [|split; [|split]].
    + intros w' [Hin | ->%list_elem_of_singleton]%elem_of_app.
      * destruct (Hw w' Hin) as (H1 & H2 & _).
        split; [rewrite Hstored; now apply save_watches_to_json_keeps|].
        assert (H2' : Watch.url w' ∈ processed acc ∪ {[url]})
          by (apply elem_of_union; now left).
        split; [exact H2'|]. intros _. now apply elem_of_elements.
      * split; [rewrite Hstored; apply save_watches_to_json_covers; left|].
        rewrite Hurl.
        assert (H2' : url ∈ processed acc ∪ {[url]})
          by (apply elem_of_union; right; now apply elem_of_singleton).
        split; [exact H2'|]. intros _. now apply elem_of_elements.
    + intros _ u Hu. now apply elem_of_elements.
    + change (stored_watches WATCHES_JSON (save_progress (Brand.name brand) ?p ?d'))
        with (stored_watches WATCHES_JSON d').
      rewrite save_watches_to_json_stored, Hst, <- app_assoc.
      eexists. split; [reflexivity|]. apply sublist_app; [exact Hsub|].
      cbn [List.filter]. destruct (is_new _ w); [reflexivity | apply sublist_nil_l].
    + intros g Hg. cbn [save_progress watch_files].
      rewrite save_watches_to_json_others by exact Hg. now apply Hoth.
  - intros acc d n _. apply Hsave.
  - intros acc d n _. apply Hsave.
  - auto.
  - unfold I. cbn [brand_watches]. split; [intros w Hin; now apply elem_of_nil in Hin|].
    split; [congruence|]. split; [|auto].
    exists []. split; [now rewrite app_nil_r | constructor].
  - assert (Hall : forall w, w ∈ fst r ->
               Watch.url w ∈ stored_urls WATCHES_JSON (disk (snd r))
               /\ Watch.url w ∈ seen_urls (cursor (Brand.name brand) (disk (snd r)))).
    { intros w Hin. unfold r in *. rewrite Hacc in Hin.
      destruct (Hw w Hin) as (H1 & _ & H3). split; [exact H1|]. apply H3.
      intros E. rewrite E in Hin. now apply elem_of_nil in Hin. }
    split; [exact Hall|]. split; [unfold r; rewrite Hacc; exact Hadd|].
    split; [exact Hoth|].
    apply save_watches_to_json_present. intros w Hin. now apply Hall.
Qed.

Lemma process_brand_durable_witness :
  let r := process_brand (H := no_bracketed_hosts) flaky brand_x
             (fresh_run flaky 0%nat empty_disk) in
  let w := Watch.mk "https://x/w1" "Submariner" "" "" ∅ in
  w ∈ fst r
  /\ Watch.url w ∈ stored_urls WATCHES_JSON (disk (snd r))
  /\ Watch.url w ∈ seen_urls (cursor "Rolex" (disk (snd r)))
  /\ fst (save_watches_to_json (fst r) WATCHES_JSON (disk (snd r))) = disk (snd r).
Proof.
  intros r w.
  assert (Hin : w ∈ fst r) by (vm_compute; left).
  destruct (process_brand_durable (H := no_bracketed_hosts) flaky brand_x
              (fresh_run flaky 0%nat empty_disk)) as (Hall & _ & _ & Hsave).
  destruct (Hall w Hin) as [H1 H2].
  split; [exact Hin|]. split; [exact H1|]. split; [exact H2 | exact Hsave].
Defined.

(** X14 -- Every record [process_brand] returns is well formed: its URL
    is absolute ([make_absolute_url] leaves it unchanged), its name is
    not empty, its name, price and description carry no outer white
    space, an empty description means that the table had no entry
    "Description" either, and every entry of its specification table
    has a stripped, non-empty key other than "basic info" and a stripped
    value. *)
Theorem process_brand_records_ok `{urllib.NetlocCheck} (B : Browser)
  (brand : Brand.t) (st : Run B) (w : Watch.t) :
  w ∈ fst (process_brand B brand st) ->
  absolute (Watch.url w)
  /\ Watch.name w <> "" /\ Py.strip (Watch.name w) = Watch.name w
  /\ Py.strip (Watch.price w) = Watch.price w
  /\ Py.strip (Watch.description w) = Watch.description w
  /\ (Watch.description w = "" -> Watch.specifications w !! "Description" = None)
  /\ forall k v, Watch.specifications w !! k = Some v ->
       k <> "" /\ Py.strip k = k /\ Py.strip v = v
       /\ Py.lower k <> "basic info"
       /\ ~ (Py.lower k = "description" /\ Py.lower v = "description").
Proof.
  intros Hin.
  destruct (process_brand_inv B brand (fun acc _ => Forall record_ok (brand_watches acc))
              (fun _ => True)) with (st := st) as (acc & Hacc & Hall).
  - intros acc d n url w' page _ Hok Habs Hpage. cbn [brand_watches].
    apply Forall_app. split; [exact Hok|]. constructor; [|constructor].
    now apply (watch_of_page_ok url page).
  - auto.
  - auto.
  - auto.
  - constructor.
  - rewrite Hacc in Hin. rewrite Forall_forall in Hall. exact (Hall w Hin).
Qed.

Lemma process_brand_records_ok_witness :
  let w := Watch.mk "https://x/w1" "Submariner" "" "" ∅ in
  w ∈ fst (process_brand (H := no_bracketed_hosts) flaky brand_x
             (fresh_run flaky 0%nat empty_disk))
  /\ absolute (H := no_bracketed_hosts) (Watch.url w)
  /\ Watch.name w <> ""
  /\ Py.strip (Watch.name w) = Watch.name w.
Proof.
  intros w.
  assert (Hin : w ∈ fst (process_brand (H := no_bracketed_hosts) flaky brand_x
                           (fresh_run flaky 0%nat empty_disk))).
  { vm_compute. left. }
  split; [exact Hin|].
  destruct (process_brand_records_ok (H := no_bracketed_hosts) flaky brand_x
              (fresh_run flaky 0%nat empty_disk) w Hin) as (H1 & H2 & H3 & _).
  split; [exact H1|]. split; [exact H2 | exact H3].
Defined.

(** * Pacing of the requests *)

Section PacingFacts.
Context `{urllib.NetlocCheck} (B : Browser).
Implicit Types (st : Run B) (t : list Event).

Lemma paced_app t1 t2 :
  paced t1 -> ends_in_sleep t1 -> paced t2 -> paced (t1 ++ t2).
Proof.
  intros H1 He H2. induction t1 as [|e [|e' rest] IH]; [exact H2 | |].
  - cbn [app]. destruct e; try contradiction. cbn [paced].
    split; [|exact H2]. destruct t2; exact I.
  - destruct H1 as [Hf Hp]. change ((e :: e' :: rest) ++ t2)%list
      with (e :: ((e' :: rest) ++ t2))%list.
    cbn [paced app]. split; [exact Hf|]. apply IH; [exact Hp | exact He].
Qed.

Lemma ends_in_sleep_app t1 t2 :
  ends_in_sleep t1 -> ends_in_sleep t2 -> ends_in_sleep (t1 ++ t2).
Proof.
  intros H1 H2. induction t1 as [|e [|e' rest] IH]; [exact H2 | |].
  - cbn [app]. destruct t2 as [|e2 t2]; [exact H1 | exact H2].
  - change ((e :: e' :: rest) ++ t2)%list with (e :: ((e' :: rest) ++ t2))%list.
    cbn [ends_in_sleep app]. apply IH. exact H1.
Qed.

Lemma backoff_events_paced n u retries j :
  paced (backoff_events n u retries j) /\ ends_in_sleep (backoff_events n u retries j).
Proof.
  revert retries. induction j as [|j IH]; intros retries; [split; exact I|].
  destruct (IH (retries + 1)%Z) as [Hp He]. cbn [backoff_events].
  split.
  - cbn [paced]. split; [exact I|]. split; [|exact Hp].
    destruct (backoff_events n u (retries + 1) j); exact I.
  - cbn [ends_in_sleep].
    destruct (backoff_events n u (retries + 1) j) eqn:E; [exact I | exact He].
Qed.

Lemma process_brand_page_paced brand n st :
  let r := process_brand_page B brand n st in
  exists evs,
    trace (fst r) = (trace st ++ evs)%list
    /\ paced evs
    /\ (snd r = Ret true -> ends_in_sleep evs).
Proof.
  destruct (get_pagination_url (Brand.url brand) n) as [u|] eqn:Hu.
  - destruct (process_brand_page_parsed B brand n st u Hu)
      as (_ & _ & j & tail & Hj & Ht & Hr).
    destruct (backoff_events_paced n u 0 j) as [Hp He].
    cbv zeta. exists (backoff_events n u 0 j ++ tail)%list. split; [exact Ht|].
    destruct (snd (process_brand_page B brand n st)) as [|[|]].
    + destruct Hr as [_ ->]. rewrite app_nil_r. split; [exact Hp | discriminate].
    + destruct Hr as [_ (w1 & w2 & t & _ & _ & ->)]. split.
      * apply paced_app; [exact Hp | exact He | cbn; auto].
      * intros _. apply ends_in_sleep_app; [exact He | exact I].
    + destruct Hr as [_ ->]. split; [|discriminate].
      apply paced_app; [exact Hp | exact He | cbn; auto].
  - cbv zeta. rewrite process_brand_page_unparsed by exact Hu. cbn [fst snd trace].
    eexists. split; [reflexivity|]. split; [cbn; auto | discriminate].
Qed.

Hypothesis Hrandom : forall w, (0 <= snd (random B w) <= 1)%Q.

Lemma polite_delay_trace st :
  exists q, trace (polite_delay B st) = (trace st ++ [Sleep q])%list
            /\ (2 <= q <= 5)%Q.
Proof.
  unfold polite_delay, sleep_uniform.
  pose proof (Hrandom (world st)) as Hr.
  destruct (random B (world st)) as [w r]. cbn [snd] in Hr.
  exists (uniform 2 5 r). split; [reflexivity|].
  apply uniform_bounds; [lra | exact Hr].
Qed.

Lemma item_loop_paced brand page_num urls acc st :
  exists evs,
    trace (snd (item_loop B brand page_num urls acc st)) = (trace st ++ evs)%list
    /\ paced evs /\ ends_in_sleep evs.
Proof.
  revert acc st. induction urls as [|url urls IH]; intros acc st.
  - exists []. rewrite app_nil_r. repeat split.
  - rewrite item_loop_cons. cbv zeta.
    match goal with
    | |- context [item_loop B brand page_num urls ?a (polite_delay B ?s)] =>
        destruct (IH a (polite_delay B s)) as (evs & Ht & Hp & He);
        destruct (polite_delay_trace s) as (q & Hq & Hb)
    end.
    pose proof (process_watch_detail_trace B url (Brand.name brand) st) as Hd.
    rewrite Ht, Hq, item_step_trace, Hd.
    set (req := match make_absolute_url url with
                | Some u => [DetailRequest u]
                | None => []
                end) in *.
    exists ((req ++ [Sleep q]) ++ evs)%list.
    split; [now rewrite <- !app_assoc|].
    assert (Hone : paced (req ++ [Sleep q]) /\ ends_in_sleep (req ++ [Sleep q])).
    { unfold req. destruct (make_absolute_url url); cbn; auto. }
    destruct Hone as [Hp1 He1].
    split; [now apply paced_app | now apply ends_in_sleep_app].
Qed.

Lemma page_loop_paced brand pages acc st :
  exists evs,
    trace (loop_state (page_loop B brand pages acc st)) = (trace st ++ evs)%list
    /\ paced evs.
Proof.
  revert acc st. induction pages as [|n pages IH]; intros acc st.
  - exists []. cbn. rewrite app_nil_r. auto.
  - cbn [page_loop].
    destruct (process_brand_page_paced brand n st) as (evs & Ht & Hp & He).
    destruct (process_brand_page B brand n st) as [st1 [|[|]]];
      cbn [fst snd loop_state] in *; [now exists evs | | now exists evs].
    specialize (He eq_refl).
    destruct (process_listing_page_spec B st1) as [Ht2 _].
    destruct (process_listing_page B st1) as [st2 watch_urls]; cbn [fst snd] in *.
    assert (Hst2 : trace st2 = (trace st ++ evs)%list) by congruence.
    destruct watch_urls as [|u0 rest]; [now exists evs|].
    destruct (List.filter _ (u0 :: rest)) as [|v0 new_rest]; [now exists evs|].
    destruct (item_loop_paced brand n (v0 :: new_rest) acc st2)
      as (evs3 & Ht3 & Hp3 & He3).
    destruct (item_loop B brand n (v0 :: new_rest) acc st2) as [acc3 st3];
      cbn [fst snd] in Ht3.
    match goal with
    | |- context [page_loop B brand pages acc3 ?s] =>
        destruct (IH acc3 s) as (evs4 & Ht4 & Hp4)
    end.
    exists ((evs ++ evs3) ++ evs4)%list. split.
    + rewrite Ht4. cbn [on_disk trace]. rewrite Ht3, Hst2. now rewrite <- !app_assoc.
    + apply paced_app; [now apply paced_app | now apply ends_in_sleep_app | exact Hp4].
Qed.

Lemma process_brand_paced_evs brand st :
  exists evs,
    trace (snd (process_brand B brand st)) = (trace st ++ evs)%list /\ paced evs.
Proof.
  unfold process_brand.
  destruct (load_progress (Brand.name brand) (disk st)) as [progress l].
  match goal with
  | |- context [page_loop B brand ?pages ?a ?s] =>
      destruct (page_loop_paced brand pages a s) as (evs & Ht & Hp);
      destruct (page_loop B brand pages a s) as [[acc1 st1] [n|]]
  end; cbn [loop_state fst snd] in *; exists evs; auto.
Qed.

End PacingFacts.

(** ** Pacing of a brand run *)

Lemma paced_at (a : list Event) (e : Event) (b : list Event) :
  paced (a ++ e :: b) ->
  match b with
  | [] => match e with DetailRequest _ => False | _ => True end
  | e' :: _ => follows_ok e e'
  end.
Proof.
  induction a as [|x a IH]; cbn [app paced].
  - now intros [Hf _].
  - intros [_ Hp]. now apply IH.
Qed.

(** X15 -- [process_brand] never sends two requests in a row, as long
    as the two stores take their writes.  For a brand whose name is a
    file name (so that [save_progress] can open its file; a brand "A/B"
    makes it raise inside the item loop, whose handler goes on to the
    next URL without [polite_delay]) and with draws of [random.random()]
    in [0, 1], every detail request of a brand run is followed at once
    by a sleep of 2 to 5 seconds (whether the extraction succeeded or
    not), and every listing request that is not the last event of the
    run is followed at once by a sleep (the back-off after a raise, the
    adaptive delay after a success).  The stores of the model do not
    raise (see [item_loop]); a run in which a write fails for another
    reason is not covered. *)
Theorem process_brand_never_hammers `{urllib.NetlocCheck} (B : Browser)
  (brand : Brand.t) (st : Run B) :
  file_name_ok (Brand.name brand) = true ->
  (forall w, (0 <= snd (random B w) <= 1)%Q) ->
  exists evs,
    trace (snd (process_brand B brand st)) = (trace st ++ evs)%list
    /\ (forall a u b, evs = (a ++ DetailRequest u :: b)%list ->
          exists q b', b = Sleep q :: b' /\ (2 <= q <= 5)%Q)
    /\ (forall a n u e b, evs = (a ++ ListingRequest n u :: e :: b)%list -> is_sleep e).
Proof.
  intros _ Hrandom.
  destruct (process_brand_paced_evs B Hrandom brand st) as (evs & Ht & Hp).
  exists evs. split; [exact Ht|]. split.
  - intros a u b ->. apply paced_at in Hp.
    destruct b as [|[| |q] b']; try contradiction. now exists q, b'.
  - intros a n u e b ->. apply paced_at in Hp. now destruct e.
Qed.

Lemma process_brand_never_hammers_witness :
  file_name_ok (Brand.name brand_x) = true
  /\ (forall w, (0 <= snd (random flaky w) <= 1)%Q)
  /\ exists evs,
       trace (snd (process_brand (H := no_bracketed_hosts) flaky brand_x
                     (fresh_run flaky 0%nat empty_disk))) = ([] ++ evs)%list
       /\ (forall a u b, evs = (a ++ DetailRequest u :: b)%list ->
             exists q b', b = Sleep q :: b' /\ (2 <= q <= 5)%Q)
       /\ (forall a n u e b, evs = (a ++ ListingRequest n u :: e :: b)%list -> is_sleep e).
Proof.
  assert (Hr : forall w, (0 <= snd (random flaky w) <= 1)%Q).
  { intros w. cbn. split; lra. }
  split; [reflexivity|]. split; [exact Hr|].
  exact (process_brand_never_hammers (H := no_bracketed_hosts) flaky brand_x
           (fresh_run flaky 0%nat empty_disk) eq_refl Hr).
Defined.

(** ** Detail page: the description *)

Lemma extract_description_loop_spec (page : DetailDom) (selectors : list string) :
  let d := extract_description_loop page selectors in
  (d = "" /\ forall sel text, sel ∈ selectors ->
               query_text page sel = Ret (Some text) -> Py.strip text = "")
  \/ (d <> "" /\ exists before sel after text,
        selectors = (before ++ sel :: after)%list
        /\ query_text page sel = Ret (Some text)
        /\ d = Py.strip text
        /\ forall s t, s ∈ before -> query_text page s = Ret (Some t) -> Py.strip t = "").
Proof.
  induction selectors as [|sel rest IH]; cbv zeta.
  - left. split; [reflexivity|]. intros sel text Hin. now apply elem_of_nil in Hin.
  - cbn [extract_description_loop].
    assert (Hskip : (forall text, query_text page sel = Ret (Some text) -> Py.strip text = "") ->
              (extract_description_loop page rest = ""
               /\ forall s text, s ∈ sel :: rest ->
                    query_text page s = Ret (Some text) -> Py.strip text = "")
              \/ (extract_description_loop page rest <> ""
                  /\ exists before sel' after text,
                       sel :: rest = (before ++ sel' :: after)%list
                       /\ query_text page sel' = Ret (Some text)
                       /\ extract_description_loop page rest = Py.strip text
                       /\ forall s t, s ∈ before ->
                            query_text page s = Ret (Some t) -> Py.strip t = "")).
    { intros Hsel.
      destruct IH as [[Hd Hall] | (Hd & before & sel' & after & text & -> & Hq & He & Hb)].
      - left. split; [exact Hd|].
        intros s text [-> | Hin]%elem_of_cons; [apply Hsel | now apply Hall].
      - right. split; [exact Hd|]. exists (sel :: before), sel', after, text.
        split; [reflexivity|]. split; [exact Hq|]. split; [exact He|].
        intros s t [-> | Hin]%elem_of_cons; [apply Hsel | now apply Hb]. }
    destruct (query_text page sel) as [|[text|]] eqn:Eq;
      [apply Hskip; discriminate | | apply Hskip; discriminate].
    destruct (Py.nonempty (Py.strip text)) eqn:En.
    + right. split; [now apply nonempty_true|]. exists [], sel, rest, text.
      split; [reflexivity|]. split; [exact Eq|]. split; [reflexivity|].
      intros s t Hin. now apply elem_of_nil in Hin.
    + apply Hskip. intros text' [= <-]. now apply nonempty_false.
Qed.

(** X16 -- [extract_description] returns the stripped text of the first
    description block, in the order of [DETAIL_DESC], whose text is not
    blank; blocks that are missing, blank or whose query raises are
    passed over.  The result is the empty string exactly when no
    selector yields a block with text, and it never carries outer white
    space. *)
Theorem extract_description_first_text (page : DetailDom) :
  let d := extract_description page in
  Py.strip d = d
  /\ (d = "" <-> forall sel text, sel ∈ DETAIL_DESC ->
                   query_text page sel = Ret (Some text) -> Py.strip text = "")
  /\ (d <> "" ->
      exists before sel after text,
        DETAIL_DESC = (before ++ sel :: after)%list
        /\ query_text page sel = Ret (Some text)
        /\ d = Py.strip text
        /\ forall s t, s ∈ before -> query_text page s = Ret (Some t) -> Py.strip t = "").
Proof.
  intros d. subst d. unfold extract_description.
  split; [apply extract_description_loop_stripped|].
  destruct (extract_description_loop_spec page DETAIL_DESC)
    as [[Hd Hall] | (Hd & before & sel & after & text & Hsplit & Hq & He & Hb)].
  - split; [split; [intros _; exact Hall | intros _; exact Hd]|]. congruence.
  - split.
    + split; [congruence|]. intros Hall. exfalso. apply Hd. rewrite He.
      apply (Hall sel text); [|exact Hq]. rewrite Hsplit. apply elem_of_app. right. left.
    + intros _. exists before, sel, after, text. auto.
Qed.

Lemma extract_description_first_text_witness :
  extract_description described_page = "Full set, unworn."
  /\ exists before sel after text,
       DETAIL_DESC = (before ++ sel :: after)%list
       /\ query_text described_page sel = Ret (Some text)
       /\ extract_description described_page = Py.strip text
       /\ forall s t, s ∈ before ->
            query_text described_page s = Ret (Some t) -> Py.strip t = "".
Proof.
  split; [reflexivity|].
  apply (extract_description_first_text described_page). discriminate.
Defined.

(** ** Listing page: the URLs *)

Section ListingFacts.
Context `{urllib.NetlocCheck}.

Lemma collect_links_ok links acc :
  Forall href_ok links ->
  collect_links links acc = ((acc ++ omap href_url links)%list, true).
Proof.
  intros Hok. revert acc. induction Hok as [|href links Hh Hok IH]; intros acc.
  - cbn. now rewrite app_nil_r.
  - cbn [collect_links omap list_omap href_url].
    destruct href as [h|]; [|apply IH].
    cbn [href_ok] in Hh. cbn [href_url].
    destruct (Py.nonempty h); [|apply IH].
    destruct (make_absolute_url h) as [u|]; [|now contradiction Hh].
    rewrite IH, <- app_assoc. reflexivity.
Qed.

Lemma probe_links_ok hrefs tail acc :
  Forall href_ok hrefs ->
  match tail with Ret (Some _) :: _ => False | _ => True end ->
  probe_links (((fun h => Ret (Some h)) <$> hrefs) ++ tail)%list acc
  = (acc ++ omap href_url hrefs)%list.
Proof.
  intros Hok Htail. revert acc. induction Hok as [|href hrefs Hh Hok IH]; intros acc.
  - cbn [fmap list_fmap app omap list_omap]. rewrite app_nil_r.
    destruct tail as [|[|[x|]] tail]; try reflexivity. contradiction.
  - cbn [fmap list_fmap app probe_links omap list_omap href_url].
    destruct href as [h|]; [|apply IH].
    cbn [href_ok] in Hh. cbn [href_url].
    destruct (Py.nonempty h); [|apply IH].
    destruct (make_absolute_url h) as [u|]; [|now contradiction Hh].
    rewrite IH, <- app_assoc. reflexivity.
Qed.

End ListingFacts.

(** X17 -- The URLs of a listing page.  [process_listing_page] returns
    only absolute URLs.  When the bulk query finds anchors, the result is
    the absolute URL of every anchor with a non-empty [href], in page
    order and with repeats kept, and the positional query is not used
    (even when no anchor has an [href]).  When the bulk query raises or
    finds nothing, the positional pass collects child 1, 2, ... and stops
    at the first position without an anchor, or at a raise: anchors after
    a gap are not collected. *)
Theorem listing_urls_contract `{urllib.NetlocCheck} (dom : ListingDom) :
  Forall absolute (listing_urls dom)
  /\ (forall links,
        all_links dom = Ret links -> links <> [] -> Forall href_ok links ->
        listing_urls dom = omap href_url links)
  /\ (forall hrefs tail,
        all_links dom = Raise \/ all_links dom = Ret [] ->
        nth_link dom = (((fun h => Ret (Some h)) <$> hrefs) ++ tail)%list ->
        Forall href_ok hrefs ->
        match tail with Ret (Some _) :: _ => False | _ => True end ->
        listing_urls dom = omap href_url hrefs).
Proof.
  split; [apply listing_urls_absolute|]. split.
  - intros links Hall Hne Hok. unfold listing_urls. rewrite Hall.
    destruct links as [|l links]; [congruence|].
    now rewrite (collect_links_ok _ [] Hok).
  - intros hrefs tail Hall Hnth Hok Htail. unfold listing_urls.
    destruct Hall as [-> | ->]; rewrite Hnth; now apply (probe_links_ok hrefs tail []).
Qed.

Lemma listing_urls_contract_witness :
  listing_urls (H := no_bracketed_hosts) gapped_listing
  = ["https://www.chrono24.com/rolex/a.htm"; "https://x/b.htm"]
  /\ listing_urls (H := no_bracketed_hosts)
       (mkListingDom (Ret [Some "/rolex/a.htm"; None; Some ""; Some "/rolex/a.htm"]) [])
     = ["https://www.chrono24.com/rolex/a.htm"; "https://www.chrono24.com/rolex/a.htm"].
Proof.
  destruct (listing_urls_contract (H := no_bracketed_hosts) gapped_listing)
    as (_ & _ & Hprobe).
  destruct (listing_urls_contract (H := no_bracketed_hosts)
              (mkListingDom (Ret [Some "/rolex/a.htm"; None; Some ""; Some "/rolex/a.htm"]) []))
    as (_ & Hbulk & _).
  split.
  - rewrite (Hprobe [Some "/rolex/a.htm"; Some "https://x/b.htm"]
               [Ret None; Ret (Some (Some "/rolex/c.htm"))]).
    + reflexivity.
    + right. reflexivity.
    + reflexivity.
    + repeat constructor; cbn; discriminate.
    + exact I.
  - rewrite (Hbulk [Some "/rolex/a.htm"; None; Some ""; Some "/rolex/a.htm"]).
    + reflexivity.
    + reflexivity.
    + discriminate.
    + repeat constructor; cbn; try discriminate; exact I.
Defined.

(** * Site-relative links *)

Section SplitJoin.
Import Py.

Lemma split_char_none c (a : string) :
  contains_char c a = false -> split_char c a = [a].
Proof.
  induction a as [|d r IH]; [reflexivity|]. cbn [contains_char split_char].
  intros [Hd Hr]%orb_false_elim. rewrite Ascii.eqb_sym, Hd. now rewrite IH.
Qed.

Lemma split_char_app c (a b : string) :
  contains_char c a = false ->
  split_char c (a ++ String c b) = a :: split_char c b.
Proof.
  induction a as [|d r IH].
  - intros _. rewrite append_nil_l. cbn [split_char]. now rewrite Ascii.eqb_refl.
  - cbn [contains_char]. intros [Hd Hr]%orb_false_elim.
    rewrite append_cons. cbn [split_char]. rewrite Ascii.eqb_sym, Hd.
    now rewrite IH.
Qed.

Lemma join_cons sep (x y : string) (rest : list string) :
  join sep (x :: y :: rest) = x ++ sep ++ join sep (y :: rest).
Proof. reflexivity. Qed.

Lemma split_join c (segs : list string) :
  segs <> [] -> Forall (fun s => contains_char c s = false) segs ->
  split_char c (join (String c "") segs) = segs.
Proof.
  intros Hne Hall. induction Hall as [|s segs Hs Hall IH]; [congruence|].
  destruct segs as [|y rest].
  - cbn [join]. now apply split_char_none.
  - rewrite join_cons, append_cons, append_nil_l.
    rewrite split_char_app by exact Hs. f_equal. apply IH. discriminate.
Qed.

Lemma resolve_dots_plain (acc segs : list string) :
  Forall (fun s => s <> "." /\ s <> "..") segs ->
  urllib.resolve_dots acc segs = (acc ++ segs)%list.
Proof.
  intros Hall. revert acc. induction Hall as [|s segs [H1 H2] Hall IH]; intros acc.
  - cbn. now rewrite app_nil_r.
  - cbn [urllib.resolve_dots].
    apply String.eqb_neq in H1, H2. rewrite H1, H2, IH, <- app_assoc. reflexivity.
Qed.

Lemma forall_chars_join p sep (segs : list string) :
  forall_chars p sep = true -> Forall (fun s => forall_chars p s = true) segs ->
  forall_chars p (join sep segs) = true.
Proof.
  intros Hsep Hall. induction Hall as [|s segs Hs Hall IH]; [reflexivity|].
  destruct segs as [|y rest]; [exact Hs|].
  rewrite join_cons, !forall_chars_app, Hs, Hsep. exact IH.
Qed.

Lemma join_head sep (s : string) (segs : list string) c r :
  s = String c r -> exists r', join sep (s :: segs) = String c r'.
Proof.
  intros ->. destruct segs as [|y rest]; [now exists r|].
  rewrite join_cons, append_cons. eauto.
Qed.

Lemma lstrip_slashes n (s : string) c r :
  s = String c r -> Ascii.eqb c "/" = false ->
  lstrip_chars "/" (slashes n ++ s) = s.
Proof.
  intros -> Hc. induction n as [|n IH].
  - cbn [slashes]. rewrite append_nil_l. unfold lstrip_chars. cbn [lstrip_by contains_char].
    now rewrite Hc.
  - cbn [slashes]. rewrite append_cons. unfold lstrip_chars in *. cbn [lstrip_by].
    change (contains_char "/" "/") with true. cbv iota. exact IH.
Qed.

End SplitJoin.

Section RelativeFacts.
Context `{urllib.NetlocCheck}.
Import Py urllib.

Lemma segment_char_facts c :
  segment_char c = true ->
  is_c0_or_space c = false /\ is_unsafe c = false
  /\ Ascii.eqb c "/" = false /\ Ascii.eqb ":" c = false /\ Ascii.eqb "#" c = false
  /\ Ascii.eqb "?" c = false /\ Ascii.eqb ";" c = false.
Proof.
  destruct c as [b0 b1 b2 b3 b4 b5 b6 b7];
    destruct b0, b1, b2, b3, b4, b5, b6, b7; vm_compute; intros E;
    try discriminate E; repeat split.
Qed.

Lemma rel_char_facts c :
  rel_char c = true ->
  is_unsafe c = false /\ Ascii.eqb ":" c = false /\ Ascii.eqb "#" c = false
  /\ Ascii.eqb "?" c = false /\ Ascii.eqb ";" c = false.
Proof.
  destruct c as [b0 b1 b2 b3 b4 b5 b6 b7];
    destruct b0, b1, b2, b3, b4, b5, b6, b7; vm_compute; intros E;
    try discriminate E; repeat split.
Qed.

Lemma rel_not_contains (d : ascii) (s : string) :
  (forall c, rel_char c = true -> Ascii.eqb d c = false) ->
  forall_chars rel_char s = true -> contains_char d s = false.
Proof.
  intros Hd. induction s as [|c s IH]; [reflexivity|]. cbn [forall_chars contains_char].
  intros [Hc Hs]%andb_prop. now rewrite (Hd c Hc), IH.
Qed.

Lemma urlparse_relative (s : string) c r :
  s = String c r -> segment_char c = true -> forall_chars rel_char s = true ->
  urlparse s "https" = Some (mkParse "https" "" s "" "" "").
Proof.
  intros Hs Hc Hall.
  destruct (segment_char_facts c Hc) as (Hc0 & _ & Hslash & _).
  assert (Hcolon : contains_char ":" s = false).
  { apply rel_not_contains; [|exact Hall]. intros d Hd. now apply rel_char_facts. }
  assert (Hhash : contains_char "#" s = false).
  { apply rel_not_contains; [|exact Hall]. intros d Hd. now apply rel_char_facts. }
  assert (Hquest : contains_char "?" s = false).
  { apply rel_not_contains; [|exact Hall]. intros d Hd. now apply rel_char_facts. }
  assert (Hsemi : contains_char ";" s = false).
  { apply rel_not_contains; [|exact Hall]. intros d Hd. now apply rel_char_facts. }
  assert (Hsafe : forall_chars (fun c => negb (is_unsafe c)) s = true).
  { eapply forall_chars_impl; [|exact Hall]. intros d Hd. cbv beta.
    destruct (rel_char_facts d Hd) as [-> _]. reflexivity. }
  unfold urlparse, urlsplit.
  assert (Hl : lstrip_by is_c0_or_space s = s).
  { rewrite Hs. now apply lstrip_by_head. }
  rewrite Hl, (filter_chars_id _ s Hsafe).
  change (filter_chars (fun c => negb (is_unsafe c)) (strip_by is_c0_or_space "https"))
    with "https".
  unfold split_scheme. rewrite (partition_char_none ":" s Hcolon).
  assert (Hn : split_netloc s = ("", s)).
  { rewrite Hs. unfold split_netloc.
    destruct c as [b0 b1 b2 b3 b4 b5 b6 b7];
      destruct b0, b1, b2, b3, b4, b5, b6, b7; try reflexivity.
    discriminate Hslash. }
  rewrite Hn. change (netloc_ok "") with true. cbv iota.
  unfold split_once. rewrite (partition_char_none "#" s Hhash).
  rewrite (partition_char_none "?" s Hquest).
  cbn [s_scheme s_netloc s_path s_query s_fragment]. rewrite Hsemi.
  rewrite andb_false_r. reflexivity.
Qed.

End RelativeFacts.

Section JoinFacts.
Context `{urllib.NetlocCheck}.
Import Py urllib.

Lemma plain_segments_path (segs : list string) :
  segs <> [] -> Forall plain_segment segs ->
  let p := join "/" segs in
  (exists c r, p = String c r /\ segment_char c = true)
  /\ forall_chars rel_char p = true
  /\ split_char "/" p = segs.
Proof.
  intros Hne Hall. cbv zeta. split; [|split].
  - destruct Hall as [|s segs (Hs & _ & _ & Hc) Hall]; [congruence|].
    destruct s as [|c r]; [congruence|].
    destruct (join_head "/" (String c r) segs c r eq_refl) as [r' ->].
    exists c, r'. split; [reflexivity|]. cbn [forall_chars] in Hc.
    now apply andb_prop in Hc as [Hc _].
  - apply forall_chars_join; [reflexivity|].
    eapply Forall_impl; [exact Hall|]. intros s (_ & _ & _ & Hc). cbv beta.
    eapply forall_chars_impl; [|exact Hc]. intros c Hcc. unfold rel_char.
    now rewrite Hcc.
  - apply split_join; [exact Hne|].
    eapply Forall_impl; [exact Hall|]. intros s (_ & _ & _ & Hc). cbv beta.
    eapply forall_chars_not_contains; [|exact Hc]. reflexivity.
Qed.

Lemma squeeze_inner_plain (segs : list string) :
  segs <> [] -> Forall plain_segment segs ->
  squeeze_inner ("" :: segs) = "" :: segs.
Proof.
  intros Hne Hall. unfold squeeze_inner.
  destruct segs as [|s rest]; [congruence|]. f_equal.
  assert (Hf : List.filter nonempty (removelast (s :: rest)) = removelast (s :: rest)).
  { assert (Hall' : Forall (fun x => nonempty x = true) (removelast (s :: rest))).
    { apply Forall_forall. intros x Hx. apply list_elem_of_In in Hx.
      assert (Hin : In x (s :: rest)).
      { rewrite (app_removelast_last "" (l := s :: rest)) by discriminate.
        apply in_or_app. now left. }
      apply list_elem_of_In in Hin. rewrite Forall_forall in Hall.
      destruct (Hall x Hin) as (Hx0 & _). destruct x; [congruence | reflexivity]. }
    induction Hall' as [|x l Hx Hl IH]; [reflexivity|].
    cbn [List.filter]. now rewrite Hx, IH. }
  rewrite Hf. symmetry. apply app_removelast_last. discriminate.
Qed.

Lemma urljoin_relative (segs : list string) :
  segs <> [] -> Forall plain_segment segs ->
  urljoin BASE_URL (join "/" segs) = Some (BASE_URL ++ "/" ++ join "/" segs).
Proof.
  intros Hne Hall.
  destruct (plain_segments_path segs Hne Hall) as ((c & r & Hp & Hc) & Hrel & Hsplit).
  set (p := join "/" segs) in *.
  unfold urljoin. change (negb (nonempty BASE_URL)) with false. cbv iota.
  assert (Hnp : nonempty p = true) by (rewrite Hp; reflexivity).
  rewrite Hnp. cbn [negb]. cbv iota.
  rewrite urlparse_base. cbn [scheme netloc path params query fragment].
  rewrite (urlparse_relative p c r Hp Hc Hrel).
  cbn [scheme netloc path params query fragment].
  change (String.eqb "https" "https") with true.
  change (mem "https" uses_relative) with true.
  change (mem "https" uses_netloc) with true.
  change (nonempty "") with false.
  cbn [negb orb andb]. cbv iota. rewrite Hnp. cbn [negb andb]. cbv iota.
  assert (Hstart : startswith p "/" = false).
  { rewrite Hp. unfold startswith. cbn [String.prefix].
    destruct (segment_char_facts c Hc) as (_ & _ & Hslash & _).
    destruct (ascii_dec "/" c) as [<-|]; [discriminate Hslash | reflexivity]. }
  rewrite Hstart, Hsplit.
  change (split_char "/" "") with [""].
  change (nonempty (List.last [""] "")) with false. cbv iota.
  change ([""] ++ segs)%list with ("" :: segs).
  rewrite (squeeze_inner_plain segs Hne Hall).
  assert (Hdots : Forall (fun s => s <> "." /\ s <> "..") ("" :: segs)).
  { constructor; [split; discriminate|].
    eapply Forall_impl; [exact Hall|]. intros s (_ & H1 & H2 & _). now split. }
  rewrite (resolve_dots_plain [] _ Hdots). cbn [app].
  assert (Hlast : String.eqb (List.last ("" :: segs) "") "." = false
                  /\ String.eqb (List.last ("" :: segs) "") ".." = false).
  { assert (Hin : In (List.last ("" :: segs) "") ("" :: segs)).
    { rewrite (app_removelast_last "" (l := "" :: segs)) at 2 by discriminate.
      apply in_or_app. right. left. reflexivity. }
    apply list_elem_of_In in Hin. rewrite Forall_forall in Hdots.
    destruct (Hdots _ Hin) as [H1 H2]. split; now apply String.eqb_neq. }
  destruct Hlast as [-> ->]. cbn [orb]. cbv iota.
  assert (Hjoin : join "/" ("" :: segs) = "/" ++ p).
  { destruct segs as [|s rest]; [congruence|]. unfold p.
    now rewrite join_cons, append_nil_l. }
  rewrite Hjoin.
  assert (Hnj : nonempty ("/" ++ p) = true) by (rewrite append_cons; reflexivity).
  rewrite Hnj. unfold urlunparse. cbn [scheme netloc path params query fragment].
  change (nonempty "") with false. cbv iota.
  rewrite urlunsplit_netloc by reflexivity.
  unfold after_netloc. rewrite Hnj.
  assert (Hs2 : startswith ("/" ++ p) "/" = true).
  { rewrite append_cons, append_nil_l. unfold startswith. cbn [String.prefix].
    destruct (ascii_dec "/" "/"); [apply str_prefix_nil | congruence]. }
  rewrite Hs2. cbn [negb andb]. cbv iota.
  change (nonempty "") with false. cbv iota.
  reflexivity.
Qed.

Lemma startswith_contains (s p : string) c :
  startswith s p = true -> contains_char c p = true -> contains_char c s = true.
Proof.
  unfold startswith. revert s. induction p as [|d p IH]; intros s; [discriminate 2|].
  destruct s as [|e s]; cbn [String.prefix]; [discriminate|].
  destruct (ascii_dec d e) as [<-|]; [|discriminate].
  cbn [contains_char]. intros Hp [Hd | Hc]%orb_prop.
  - now rewrite Hd.
  - rewrite (IH s Hp Hc). apply orb_true_r.
Qed.

End JoinFacts.

(** ** URLs *)

Lemma slashes_no_colon (n : nat) : Py.contains_char ":" (slashes n) = false.
Proof. induction n as [|n IH]; [reflexivity | exact IH]. Qed.

(** X18 -- A site-relative link becomes the same path under the site.
    For a path of plain segments (not empty, not "." or "..", without
    the delimiters / ? # ; : and without white space), with any number
    of leading slashes, [make_absolute_url] returns
    "https://www.chrono24.com/" followed by the path; the leading
    slashes are dropped, so that a link that starts with two slashes is
    read as a path of the site, not as a host. *)
Theorem make_absolute_url_relative `{urllib.NetlocCheck} (segs : list string) (n : nat) :
  segs <> [] -> Forall plain_segment segs ->
  make_absolute_url (slashes n ++ Py.join "/" segs)
  = Some (BASE_URL ++ "/" ++ Py.join "/" segs).
Proof.
  intros Hne Hall.
  destruct (plain_segments_path segs Hne Hall) as ((c & r & Hp & Hc) & Hrel & _).
  set (p := Py.join "/" segs) in *.
  assert (Hcolon : Py.contains_char ":" (slashes n ++ p) = false).
  { rewrite contains_char_app, slashes_no_colon. cbn [orb].
    apply rel_not_contains; [|exact Hrel]. intros d Hd. now apply rel_char_facts. }
  assert (Hhttp : forall pre, Py.contains_char ":" pre = true ->
                              Py.startswith (slashes n ++ p) pre = false).
  { intros pre Hpre. destruct (Py.startswith (slashes n ++ p) pre) eqn:E; [|reflexivity].
    rewrite (startswith_contains _ _ ":" E Hpre) in Hcolon. discriminate Hcolon. }
  unfold make_absolute_url.
  rewrite (Hhttp "http://" eq_refl), (Hhttp "https://" eq_refl). cbn [orb negb]. cbv iota.
  destruct (segment_char_facts c Hc) as (_ & _ & Hslash & _).
  rewrite (lstrip_slashes n p c r Hp Hslash).
  now apply urljoin_relative.
Qed.

Lemma make_absolute_url_relative_witness :
  make_absolute_url (H := no_bracketed_hosts) "/rolex/submariner--id1.htm"
  = Some "https://www.chrono24.com/rolex/submariner--id1.htm"
  /\ make_absolute_url (H := no_bracketed_hosts) "//rolex/submariner--id1.htm"
     = Some "https://www.chrono24.com/rolex/submariner--id1.htm".
Proof.
  assert (Hall : Forall plain_segment ["rolex"; "submariner--id1.htm"]).
  { repeat constructor; discriminate. }
  assert (Hne : ["rolex"; "submariner--id1.htm"] <> []) by discriminate.
  split.
  - exact (make_absolute_url_relative (H := no_bracketed_hosts)
             ["rolex"; "submariner--id1.htm"] 1 Hne Hall).
  - exact (make_absolute_url_relative (H := no_bracketed_hosts)
             ["rolex"; "submariner--id1.htm"] 2 Hne Hall).
Defined.

Section PageUrlFacts.
Context `{urllib.NetlocCheck}.
Import Py.

Lemma to_int_proper (z : Z) : Z.to_int z <> Decimal.Pos Decimal.Nil
                              /\ Z.to_int z <> Decimal.Neg Decimal.Nil.
Proof.
  split; intros E; pose proof (DecimalZ.of_to z) as Hz; rewrite E in Hz;
    cbn in Hz; subst z; vm_compute in E; discriminate E.
Qed.

Lemma str_of_int_inj (n m : Z) : str_of_int n = str_of_int m -> n = m.
Proof.
  unfold str_of_int. intros E.
  apply DecimalZ.to_int_inj.
  destruct (to_int_proper n) as [Hn1 Hn2], (to_int_proper m) as [Hm1 Hm2].
  pose proof (NilZero.isi _ Hn1 Hn2) as In.
  pose proof (NilZero.isi _ Hm1 Hm2) as Im.
  rewrite E in In. congruence.
Qed.

Lemma paged_inj (p : urllib.ParseResult) (a b : string) :
  paged p a = paged p b -> a = b.
Proof.
  unfold paged. destruct (nonempty (urllib.query p)); intros E.
  - apply append_inj_r in E. now do 3 apply append_inj_l in E.
  - now do 3 apply append_inj_l in E.
Qed.

Lemma get_pagination_url_paged (base_url : string) (p : urllib.ParseResult) (n : Z) :
  urllib.urlparse base_url "" = Some p -> n <> 1%Z ->
  exists pre,
    (forall m, m <> 1%Z ->
       get_pagination_url base_url m = Some (paged p (pre ++ str_of_int m ++ ".htm"))).
Proof.
  intros Hp Hn.
  exists (if endswith (urllib.path p) "index.htm"
          then drop_last 9 (urllib.path p) ++ "index-"
          else if endswith (urllib.path p) "/" then urllib.path p ++ "index-"
          else urllib.path p ++ "/index-").
  intros m Hm. unfold get_pagination_url. rewrite Hp.
  apply Z.eqb_neq in Hm. rewrite Hm. unfold paged.
  destruct (endswith (urllib.path p) "index.htm");
    [|destruct (endswith (urllib.path p) "/")];
    now rewrite !append_assoc.
Qed.

End PageUrlFacts.

(** X19 -- Distinct pages have distinct URLs.  For a base URL that
    [urlparse] accepts, [get_pagination_url] returns different URLs for
    two different page numbers other than 1, so that no listing URL is
    requested under two page numbers. *)
Theorem get_pagination_url_injective `{urllib.NetlocCheck}
  (base_url : string) (p : urllib.ParseResult) (n m : Z) :
  urllib.urlparse base_url "" = Some p ->
  n <> 1%Z -> m <> 1%Z -> n <> m ->
  get_pagination_url base_url n <> get_pagination_url base_url m.
Proof.
  intros Hp Hn Hm Hnm E. apply Hnm.
  destruct (get_pagination_url_paged base_url p n Hp Hn) as [pre Hpre].
  rewrite (Hpre n Hn), (Hpre m Hm) in E. injection E as E.
  apply paged_inj, append_inj_l, append_inj_r in E.
  now apply str_of_int_inj.
Qed.

Lemma get_pagination_url_injective_witness :
  get_pagination_url (H := no_bracketed_hosts) "https://x/brand/index.htm" 12
  <> get_pagination_url (H := no_bracketed_hosts) "https://x/brand/index.htm" 21.
Proof.
  apply (get_pagination_url_injective (H := no_bracketed_hosts)
           "https://x/brand/index.htm"
           (urllib.mkParse "https" "x" "/brand/index.htm" "" "" "")).
  - reflexivity.
  - discriminate.
  - discriminate.
  - discriminate.
Defined.

(** * Substrings, lines and the loader cut *)

Section SubstringFacts.
Import Py.

Lemma contains_unfold (s needle : string) :
  contains s needle =
    String.prefix needle s
    || match s with EmptyString => false | String _ r => contains r needle end.
Proof. destruct s; reflexivity. Qed.

Lemma contains_suffix (a b needle : string) :
  contains b needle = true -> contains (a ++ b) needle = true.
Proof.
  intros Hb. induction a as [|c a IH]; [now rewrite append_nil_l|].
  rewrite append_cons, contains_unfold, IH. apply orb_true_r.
Qed.

Lemma contains_prefix (a b needle : string) :
  contains a needle = true -> contains (a ++ b) needle = true.
Proof.
  induction a as [|c a IH]; rewrite contains_unfold.
  - rewrite orb_false_r. intros Hp. rewrite (contains_unfold ("" ++ b)).
    now rewrite (str_prefix_app needle "" b Hp).
  - intros [Hp | Ha]%orb_prop; rewrite contains_unfold.
    + now rewrite (str_prefix_app needle (String c a) b Hp).
    + rewrite append_cons, (IH Ha). apply orb_true_r.
Qed.

Lemma lstrip_by_suffix p (s : string) : exists pre, s = pre ++ lstrip_by p s.
Proof.
  induction s as [|c s [pre IH]]; [now exists ""|]. cbn [lstrip_by].
  destruct (p c).
  - exists (String c pre). now rewrite append_cons, <- IH.
  - now exists "".
Qed.

Lemma rstrip_by_prefix p (s : string) : exists post, s = rstrip_by p s ++ post.
Proof.
  induction s as [|c s [post IH]]; [now exists ""|]. cbn [rstrip_by].
  destruct (String.eqb (rstrip_by p s) "" && p c).
  - exists (String c s). now rewrite append_nil_l.
  - exists post. now rewrite append_cons, <- IH.
Qed.

Lemma space_head_suffix (s r : string) :
  space_head s = Some r -> exists pre, s = pre ++ r.
Proof.
  destruct s as [|c [|d [|e r3]]]; cbn [space_head]; try discriminate.
  - destruct (is_space c); [|discriminate]. intros [= <-].
    now exists (String c "").
  - destruct (is_space c).
    + intros [= <-]. now exists (String c "").
    + destruct (is_space2 c d); [|discriminate]. intros [= <-].
      now exists (String c (String d "")).
  - destruct (is_space c).
    + intros [= <-]. now exists (String c "").
    + destruct (is_space2 c d).
      * intros [= <-]. now exists (String c (String d "")).
      * destruct (is_space3 c d e); [|discriminate]. intros [= <-].
        now exists (String c (String d (String e ""))).
Qed.

Lemma lstrip_space_suffix (s : string) : exists pre, s = pre ++ lstrip_space s.
Proof.
  remember (String.length s) as n eqn:Hn. revert s Hn.
  induction n as [n IH] using lt_wf_ind. intros s ->.
  rewrite lstrip_space_unfold. destruct (space_head s) as [r|] eqn:Hs.
  - destruct (space_head_suffix s r Hs) as [pre0 Hpre0].
    destruct (IH (String.length r) (space_head_length s r Hs) r eq_refl) as [pre Hpre].
    exists (pre0 ++ pre). now rewrite append_assoc, <- Hpre.
  - now exists "".
Qed.

Lemma contains_strip (s needle : string) :
  contains (strip s) needle = true -> contains s needle = true.
Proof.
  unfold strip. intros Hc.
  destruct (rstrip_space_split (lstrip_space s)) as (post & Hpost & _).
  destruct (lstrip_space_suffix s) as [pre Hpre].
  rewrite Hpre. apply contains_suffix. rewrite Hpost. now apply contains_prefix.
Qed.

Lemma prefix_before_sep (needle a b : string) c :
  String.prefix needle (a ++ String c b) = true ->
  contains_char c needle = false ->
  String.prefix needle a = true.
Proof.
  revert a. induction needle as [|x needle IH]; intros a; [now destruct a|].
  cbn [contains_char]. destruct a as [|d a].
  - rewrite append_nil_l. cbn [String.prefix].
    destruct (ascii_dec x c) as [->|Hx]; [|discriminate].
    intros _. now rewrite Ascii.eqb_refl.
  - rewrite append_cons. cbn [String.prefix].
    destruct (ascii_dec x d) as [->|Hx]; [|discriminate].
    intros Hp [_ Hn]%orb_false_elim. now apply IH.
Qed.

Lemma contains_around_sep (a b needle : string) c :
  contains (a ++ String c b) needle = true ->
  contains_char c needle = false ->
  contains a needle = true \/ contains b needle = true.
Proof.
  intros Hc Hn. induction a as [|d a IH].
  - rewrite append_nil_l, contains_unfold in Hc.
    apply orb_prop in Hc as [Hp | Hb]; [left | now right].
    rewrite contains_unfold, orb_false_r.
    apply (prefix_before_sep needle "" b c); [now rewrite append_nil_l | exact Hn].
  - rewrite append_cons, contains_unfold in Hc.
    apply orb_prop in Hc as [Hp | Hc].
    + left. rewrite contains_unfold.
      rewrite (prefix_before_sep needle (String d a) b c); [reflexivity | | exact Hn].
      now rewrite append_cons.
    + destruct (IH Hc) as [Ha | Hb]; [left | now right].
      rewrite contains_unfold, Ha. apply orb_true_r.
Qed.

Lemma contains_join (lines : list string) (needle : string) c :
  contains (join (String c "") lines) needle = true ->
  contains_char c needle = false -> needle <> "" ->
  exists line, line ∈ lines /\ contains line needle = true.
Proof.
  intros Hc Hn Hne. induction lines as [|x [|y rest] IH].
  - cbn [join] in Hc. rewrite contains_unfold, orb_false_r in Hc.
    destruct needle; [congruence | discriminate Hc].
  - exists x. split; [left | exact Hc].
  - rewrite join_cons, append_cons, append_nil_l in Hc.
    destruct (contains_around_sep _ _ _ _ Hc Hn) as [Hx | Hr].
    + exists x. split; [left | exact Hx].
    + destruct (IH Hr) as (line & Hin & Hl). exists line. split; [now right | exact Hl].
Qed.

Lemma join_contains (lines : list string) (line needle sep : string) :
  line ∈ lines -> contains line needle = true ->
  contains (join sep lines) needle = true.
Proof.
  intros Hin Hl. induction lines as [|x [|y rest] IH].
  - now apply elem_of_nil in Hin.
  - apply list_elem_of_singleton in Hin as ->. exact Hl.
  - rewrite join_cons. apply elem_of_cons in Hin as [-> | Hin].
    + now apply contains_prefix.
    + rewrite <- append_assoc. apply contains_suffix. now apply IH.
Qed.

Lemma split_char_cons c (s : string) : exists h t, split_char c s = h :: t.
Proof.
  induction s as [|d r (h & t & IH)]; [now exists "", []|]. cbn [split_char].
  destruct (Ascii.eqb d c); [now exists "", (split_char c r)|].
  rewrite IH. now exists (String d h), t.
Qed.

Lemma join_head_cons sep d (h : string) (t : list string) :
  join sep (String d h :: t) = String d (join sep (h :: t)).
Proof. destruct t; [reflexivity|]. now rewrite !join_cons, append_cons. Qed.

Lemma join_split c (s : string) : join (String c "") (split_char c s) = s.
Proof.
  induction s as [|d r IH]; [reflexivity|]. cbn [split_char].
  destruct (Ascii.eqb d c) eqn:Ed.
  - apply Ascii.eqb_eq in Ed as ->.
    destruct (split_char_cons c r) as (h & t & E). rewrite E in *.
    now rewrite join_cons, append_nil_l, append_cons, append_nil_l, IH.
  - destruct (split_char_cons c r) as (h & t & E). rewrite E in *.
    now rewrite join_head_cons, IH.
Qed.

Lemma join_app_blank sep (before l : list string) :
  l <> [] ->
  join sep (before ++ l)%list = join sep (before ++ [""])%list ++ join sep l.
Proof.
  intros Hl. induction before as [|x before IH].
  - cbn [app join]. now rewrite append_nil_l.
  - assert (Hcons : forall k : list string, k <> [] ->
               join sep ((x :: before) ++ k)%list = x ++ sep ++ join sep (before ++ k)%list).
    { intros k Hk. cbn [app]. destruct (before ++ k)%list eqn:E; [|reflexivity].
      apply app_eq_nil in E as [_ E]. congruence. }
    rewrite (Hcons l Hl), (Hcons [""]) by discriminate.
    now rewrite IH, !append_assoc.
Qed.

End SubstringFacts.

Section LoaderFacts.
Import Py.

Lemma cut_loader_cases (lines : list string) :
  (cut_loader lines = lines
   /\ forall line, line ∈ lines -> contains line "function docReady" = false)
  \/ exists before line after,
       lines = (before ++ line :: after)%list
       /\ cut_loader lines = (before ++ [""])%list
       /\ contains line "function docReady" = true
       /\ forall l, l ∈ before -> contains l "function docReady" = false.
Proof.
  induction lines as [|x rest IH].
  - left. split; [reflexivity|]. intros line Hin. now apply elem_of_nil in Hin.
  - cbn [cut_loader]. destruct (contains x "function docReady") eqn:Ex.
    + right. exists [], x, rest. split; [reflexivity|]. split; [reflexivity|].
      split; [exact Ex|]. intros l Hin. now apply elem_of_nil in Hin.
    + destruct IH as [[Hc Hall] | (before & line & after & -> & Hc & Hl & Hb)].
      * left. rewrite Hc. split; [reflexivity|].
        intros line [-> | Hin]%elem_of_cons; [exact Ex | now apply Hall].
      * right. exists (x :: before), line, after. rewrite Hc.
        split; [reflexivity|]. split; [reflexivity|]. split; [exact Hl|].
        intros l [-> | Hin]%elem_of_cons; [exact Ex | now apply Hb].
Qed.

Lemma cut_loader_clean (lines : list string) (line : string) :
  line ∈ cut_loader lines -> contains line "function docReady" = false.
Proof.
  destruct (cut_loader_cases lines) as [[-> Hall] | (before & l & after & _ & -> & _ & Hb)].
  - apply Hall.
  - intros [Hin | ->%list_elem_of_singleton]%elem_of_app; [now apply Hb | reflexivity].
Qed.

Lemma strip_loader_clean (value : string) :
  contains (strip_loader value) "function docReady" = false.
Proof.
  unfold strip_loader.
  destruct (contains (join _ _) "function docReady") eqn:E; [|reflexivity].
  apply contains_join in E as (line & Hin & Hl); [|reflexivity|discriminate].
  now rewrite (cut_loader_clean _ _ Hin) in Hl.
Qed.

Lemma strip_loader_id (value : string) :
  contains value "function docReady" = false -> strip_loader value = value.
Proof.
  intros Hv. unfold strip_loader.
  destruct (cut_loader_cases (split_char "010" value))
    as [[-> _] | (before & line & after & Hs & _ & Hl & _)]; [apply join_split|].
  assert (Hin : line ∈ split_char "010" value).
  { rewrite Hs. apply elem_of_app. right. left. }
  pose proof (join_contains _ _ _ (String "010" "") Hin Hl) as Hc.
  rewrite join_split in Hc. congruence.
Qed.

Lemma strip_loader_prefix (value : string) :
  exists rest, value = strip_loader value ++ rest.
Proof.
  unfold strip_loader.
  destruct (cut_loader_cases (split_char "010" value))
    as [[-> _] | (before & line & after & Hs & -> & _ & _)].
  - exists "". now rewrite join_split, append_nil_r.
  - exists (join (String "010" "") (line :: after)).
    rewrite <- join_app_blank by discriminate. now rewrite <- Hs, join_split.
Qed.

Lemma row_value_clean (value_text : string) :
  contains (row_value value_text) "function docReady" = false.
Proof.
  unfold row_value.
  destruct (contains (strip _) "function docReady") eqn:E; [|reflexivity].
  apply contains_strip in E. now rewrite strip_loader_clean in E.
Qed.

End LoaderFacts.

Section EntryFacts.

Lemma spec_rows_entries rows (specs : gmap string string) (P : string -> string -> Prop) :
  (forall row k v, row_entry row = Some (k, v) -> P k v) ->
  (forall k v, specs !! k = Some v -> P k v) ->
  forall k v, spec_rows rows specs !! k = Some v -> P k v.
Proof.
  intros HP. revert specs. induction rows as [|row rows IH]; intros specs Hs; [exact Hs|].
  unfold spec_rows. cbn [fold_left]. apply IH.
  rewrite spec_row_entry. destruct (row_entry row) as [[k0 v0]|] eqn:Er; [|exact Hs].
  intros k v. destruct (decide (k = k0)) as [->|Hne].
  - rewrite lookup_insert_eq. intros [= <-]. now apply (HP row).
  - rewrite lookup_insert_ne by congruence. apply Hs.
Qed.

Lemma extract_specs_entries page (P : string -> string -> Prop) :
  (forall row k v, row_entry row = Some (k, v) -> P k v) ->
  forall k v, extract_specs page !! k = Some v -> P k v.
Proof.
  intros HP. unfold extract_specs.
  assert (Hloop : forall selectors (specs : gmap string string),
             (forall k v, specs !! k = Some v -> P k v) ->
             forall k v, extract_specs_loop page selectors specs !! k = Some v -> P k v).
  { induction selectors as [|sel rest IH]; intros specs Hs; [exact Hs|].
    cbn [extract_specs_loop].
    destruct (query_tables page sel) as [|[|t tables]]; [now apply IH..|].
    assert (Ht : forall k v, spec_tables (t :: tables) specs !! k = Some v -> P k v).
    { generalize (t :: tables). intros ts. revert specs Hs.
      induction ts as [|t' ts IHt]; intros specs Hs; [exact Hs|].
      unfold spec_tables. cbn [fold_left]. apply IHt.
      now apply spec_rows_entries. }
    destruct (bool_decide (spec_tables (t :: tables) specs = ∅)); [now apply IH | exact Ht]. }
  apply Hloop. intros k v. now rewrite lookup_empty.
Qed.

Lemma row_entry_value row k v :
  row_entry row = Some (k, v) -> exists value_text, v = row_value value_text.
Proof.
  destruct row as [[kt|] [vt|]]; try discriminate.
  rewrite row_entry_cells.
  destruct (String.eqb _ "basic info"); [discriminate|].
  destruct (_ && _); [discriminate|].
  destruct (Py.nonempty _); [|discriminate].
  intros [= <- <-]. now exists vt.
Qed.

End EntryFacts.

(** ** The loader cut *)

(** X20 -- The cut of the embedded loader code.  What the substitution
    of [extract_specs] returns never contains "function docReady"; it is
    a prefix of the cell text (the text is cut from the start of the
    first line that holds the signature, nothing before it is changed),
    and a text without the signature is returned as it is.  No value of
    the table [extract_specs] returns contains the signature. *)
Theorem strip_loader_removes_loader (value : string) :
  Py.contains (strip_loader value) "function docReady" = false
  /\ (exists rest, value = strip_loader value ++ rest)
  /\ (Py.contains value "function docReady" = false -> strip_loader value = value)
  /\ (forall page k v,
        extract_specs page !! k = Some v ->
        Py.contains v "function docReady" = false).
Proof.
  split; [apply strip_loader_clean|]. split; [apply strip_loader_prefix|].
  split; [apply strip_loader_id|].
  intros page k v.
  apply (extract_specs_entries page
           (fun _ v => Py.contains v "function docReady" = false)).
  intros row k' v' [vt ->]%row_entry_value. apply row_value_clean.
Qed.

Lemma strip_loader_removes_loader_witness :
  strip_loader "Steel" = "Steel"
  /\ extract_specs
       (mkDetailDom (fun _ => Ret None)
          (fun _ => Ret [[mkRow (Some "Case")
                            (Some ("Steel" ++ String "010" "function docReady(fn) {}"))]]))
     !! "Case" = Some "Steel"
  /\ Py.contains "Steel" "function docReady" = false.
Proof.
  set (page := mkDetailDom (fun _ => Ret None)
                 (fun _ => Ret [[mkRow (Some "Case")
                                   (Some ("Steel" ++ String "010" "function docReady(fn) {}"))]])).
  destruct (strip_loader_removes_loader "Steel") as (_ & _ & Hid & Hspecs).
  assert (Hcase : extract_specs page !! "Case" = Some "Steel") by (vm_compute; reflexivity).
  split; [apply Hid; reflexivity|]. split; [exact Hcase|].
  exact (Hspecs page "Case" "Steel" Hcase).
Defined.

(** ** The brand orchestrator: uniqueness and the finished brand *)

(** X21 -- [process_brand] keeps one record per URL.  When the dataset
    file holds every URL at most once before a brand run, it does so
    after the run, whatever the listings show (a link shown twice on a
    page is fetched twice but stored once): the orchestrator saves one
    record at a time, and the store filters it against the file. *)
Theorem process_brand_keeps_unique `{urllib.NetlocCheck} (B : Browser)
  (brand : Brand.t) (st : Run B) :
  NoDup (stored_urls WATCHES_JSON (disk st)) ->
  NoDup (stored_urls WATCHES_JSON (disk (snd (process_brand B brand st)))).
Proof.
  intros Hd.
  destruct (process_brand_inv B brand
              (fun _ d => NoDup (stored_urls WATCHES_JSON d)) (fun _ => True))
    with (st := st) as (acc & _ & Hfinal); auto.
  intros acc d n url w page _ Hnd _ _.
  change (NoDup (stored_urls WATCHES_JSON (fst (save_watches_to_json [w] WATCHES_JSON d)))).
  apply save_watches_to_json_unique; [exact Hnd|]. apply NoDup_singleton.
Qed.

Lemma process_brand_keeps_unique_witness :
  NoDup (stored_urls WATCHES_JSON disk_with_b)
  /\ NoDup (stored_urls WATCHES_JSON
              (disk (snd (process_brand (H := no_bracketed_hosts) flaky brand_x
                            (fresh_run flaky 0%nat disk_with_b))))).
Proof.
  assert (Hd : NoDup (stored_urls WATCHES_JSON disk_with_b)).
  { vm_compute. apply NoDup_singleton. }
  split; [exact Hd|].
  exact (process_brand_keeps_unique (H := no_bracketed_hosts) flaky brand_x
           (fresh_run flaky 0%nat disk_with_b) Hd).
Defined.

(** X22 -- A brand whose cursor stands at page 100 or beyond is
    finished: [process_brand] then sends no request, sleeps not at all,
    writes nothing and returns no record ([range(start_page, 100)] is
    empty). *)
Theorem process_brand_finished `{urllib.NetlocCheck} (B : Browser)
  (brand : Brand.t) (st : Run B) :
  (100 <= start_page (cursor (Brand.name brand) (disk st)))%Z ->
  process_brand B brand st
  = ([], mkRun (world st) (disk st) (trace st)
               (log st ++ snd (load_progress (Brand.name brand) (disk st)))%list).
Proof.
  unfold cursor, start_page, process_brand.
  destruct (load_progress (Brand.name brand) (disk st)) as [progress l]; cbn [fst snd].
  intros Hk. unfold py_range.
  replace (Z.to_nat (100 - default 1%Z (Progress.current_page progress))) with 0%nat by lia.
  reflexivity.
Qed.

Lemma process_brand_finished_witness :
  process_brand (H := no_bracketed_hosts) endless brand_x
    (fresh_run endless 0%nat
       (mkDisk {[progress_path "Rolex" := Parsed (Progress.mk (Some 100%Z) (Some []))]} ∅ []))
  = ([], fresh_run endless 0%nat
           (mkDisk {[progress_path "Rolex" := Parsed (Progress.mk (Some 100%Z) (Some []))]} ∅ [])).
Proof.
  rewrite (process_brand_finished (H := no_bracketed_hosts) endless brand_x
             (fresh_run endless 0%nat
                (mkDisk {[progress_path "Rolex" := Parsed (Progress.mk (Some 100%Z) (Some []))]}
                        ∅ [])))
    by (vm_compute; discriminate).
  vm_compute. reflexivity.
Defined.

(** * Copies in the dataset store, and the first table selector *)

Section CopyFacts.
Implicit Types (d : Disk) (ws : list Watch.t) (f u : string).


Lemma copies_absent u f d : u ∉ stored_urls f d -> copies u f d = 0%nat.
Proof.
  intros Hu. unfold copies. apply count_occ_not_In.
  intros Hin. apply Hu. now apply list_elem_of_In.
Qed.

(** One record per URL is kept by a batch whose new records name each
    URL once. *)
Lemma save_watches_to_json_unique_new ws f d :
  NoDup (stored_urls f d) ->
  NoDup (Watch.url <$> List.filter (is_new (stored_watches f d)) ws) ->
  NoDup (stored_urls f (fst (save_watches_to_json ws f d))).
Proof.
  intros Hd Hn. unfold stored_urls.
  rewrite save_watches_to_json_stored, fmap_app, NoDup_app.
  split; [exact Hd|]. split; [|exact Hn].
  intros u Hu (w & -> & Hw)%list_elem_of_fmap.
  apply filter_elem in Hw as [_ Hw]. apply is_new_true in Hw. now apply Hw.
Qed.

Lemma save_watches_to_json_unique_back ws f d :
  NoDup (stored_urls f (fst (save_watches_to_json ws f d))) ->
  NoDup (Watch.url <$> List.filter (is_new (stored_watches f d)) ws).
Proof.
  unfold stored_urls.
  rewrite save_watches_to_json_stored, fmap_app, NoDup_app.
  now intros (_ & _ & Hn).
Qed.

Lemma filter_new_sub (g : Watch.t -> bool) ws :
  NoDup (Watch.url <$> ws) -> NoDup (Watch.url <$> List.filter g ws).
Proof.
  induction ws as [|w ws IH]; cbn [List.filter]; [intros; constructor|].
  rewrite fmap_cons. intros [Hw Hws]%NoDup_cons.
  destruct (g w); [|now apply IH].
  rewrite fmap_cons. apply NoDup_cons. split; [|now apply IH].
  intros (w' & E & Hw')%list_elem_of_fmap. apply Hw.
  apply list_elem_of_fmap. exists w'. split; [exact E|].
  apply filter_elem in Hw'. tauto.
Qed.

End CopyFacts.

Section SelectorFacts.

Lemma spec_tables_concat (tables : list Table) (specs : gmap string string) :
  spec_tables tables specs = spec_rows (concat tables) specs.
Proof.
  revert specs. induction tables as [|t tables IH]; intros specs; [reflexivity|].
  unfold spec_tables, spec_rows in *. cbn [fold_left concat].
  rewrite fold_left_app. apply IH.
Qed.

Lemma extract_specs_loop_first (page : DetailDom) (selectors : list string) :
  extract_specs_loop page selectors ∅
  = first_nonempty (selector_specs page <$> selectors).
Proof.
  induction selectors as [|sel rest IH]; [reflexivity|].
  rewrite fmap_cons. cbn [extract_specs_loop first_nonempty].
  set (m := selector_specs page sel).
  assert (Hm : m = match query_tables page sel with
                   | Raise => ∅
                   | Ret tables => spec_rows (concat tables) ∅
                   end) by reflexivity.
  clearbody m.
  destruct (query_tables page sel) as [|[|t tables]]; subst m.
  - rewrite bool_decide_eq_true_2 by reflexivity. exact IH.
  - rewrite bool_decide_eq_true_2 by reflexivity. exact IH.
  - rewrite spec_tables_concat.
    destruct (bool_decide (spec_rows (concat (t :: tables)) ∅ = ∅)) eqn:E;
      [|reflexivity].
    apply bool_decide_eq_true in E. rewrite E. exact IH.
Qed.

End SelectorFacts.

(** * The claims on the two stores, the specification table and the rate
      controller *)



(** C4 -- Specification-table row filtering.  With [key] the stripped key
    text of a row and [value] its stripped value text, cleaned of the
    loader code and stripped again ([str.strip] with the white space of
    Unicode): a row whose key lowercases to "basic info" is dropped
    whatever its value; a row whose key lowercases to "description" is
    dropped when its value lowercases to "description" and stored
    otherwise; a row with an empty key is dropped; every other row is
    stored under [key] as it is spelled; and the value found under a key
    after a run of rows is that of the last row that stores under it.
    [extract_specs] is this filter run over the rows of the tables of one
    selector: the first selector of [SPEC_TABLES] that stores at least
    one row (a selector whose query raises stores none), else the empty
    dict; so every entry it returns has passed the filter. *)
Theorem spec_row_filtering (specs : gmap string string) (key_text value_text : string)
  (page : DetailDom) :
  let row := mkRow (Some key_text) (Some value_text) in
  let key := row_key key_text in
  let value := row_value value_text in
  (Py.lower key = "basic info" -> spec_row specs row = specs)
  /\ (Py.lower key = "description" -> Py.lower value = "description" ->
      spec_row specs row = specs)
  /\ (Py.lower key = "description" -> Py.lower value <> "description" ->
      spec_row specs row = <[key := value]> specs)
  /\ (key = "" -> spec_row specs row = specs)
  /\ (key <> "" -> Py.lower key <> "basic info" -> Py.lower key <> "description" ->
      spec_row specs row = <[key := value]> specs)
  /\ (forall (before after : Table) (later : Row) (k v : string),
        spec_row ∅ later !! k = Some v ->
        (forall r, r ∈ after -> spec_row ∅ r !! k = None) ->
        spec_rows (before ++ later :: after)%list specs !! k = Some v)
  /\ spec_row ∅ (mkRow (Some "Description") (Some "A fine chronometer"))
     = {[ "Description" := "A fine chronometer" ]}
  /\ extract_specs page = first_nonempty (selector_specs page <$> SPEC_TABLES)
  /\ (forall k v, extract_specs page !! k = Some v ->
        k <> "" /\ Py.lower k <> "basic info"
        /\ ~ (Py.lower k = "description" /\ Py.lower v = "description")
        /\ exists r, row_entry r = Some (k, v)).
Proof.
  intros row key value.
  assert (Hrow : spec_row specs row =
            if String.eqb (Py.lower key) "basic info" then specs
            else if String.eqb (Py.lower key) "description"
                    && String.eqb (Py.lower value) "description" then specs
            else if Py.nonempty key then <[key := value]> specs else specs).
  { rewrite spec_row_entry. subst row. rewrite row_entry_cells. fold key value.
    destruct (String.eqb (Py.lower key) "basic info"); [reflexivity|].
    destruct (String.eqb (Py.lower key) "description"
              && String.eqb (Py.lower value) "description"); [reflexivity|].
    destruct (Py.nonempty key); reflexivity. }
  split; [|split; [|split; [|split; [|split; [|split; [|split; [|split]]]]]]].
  - intros Hk. rewrite Hrow, Hk. reflexivity.
  - intros Hk Hv. rewrite Hrow, Hk, Hv. reflexivity.
  - intros Hk Hv. rewrite Hrow, Hk.
    apply String.eqb_neq in Hv. rewrite Hv.
    change (String.eqb "description" "basic info") with false.
    change (String.eqb "description" "description") with true.
    cbn [andb]. destruct (Py.nonempty key) eqn:Hn; [reflexivity|].
    apply nonempty_false in Hn. rewrite Hn in Hk. discriminate.
  - intros Hk. rewrite Hrow, Hk. reflexivity.
  - intros Hk Hb Hd. rewrite Hrow.
    apply String.eqb_neq in Hb, Hd. rewrite Hb, Hd. cbn [andb].
    destruct (Py.nonempty key) eqn:Hn; [reflexivity|].
    now apply nonempty_false in Hn.
  - intros before after later k v. apply spec_rows_overwrite.
  - rewrite spec_row_entry. reflexivity.
  - apply extract_specs_loop_first.
  - apply (extract_specs_entries page
             (fun k v => k <> "" /\ Py.lower k <> "basic info"
                         /\ ~ (Py.lower k = "description" /\ Py.lower v = "description")
                         /\ exists r, row_entry r = Some (k, v))).
    intros r k v Hr. destruct (row_entry_ok r k v Hr) as (H1 & _ & _ & H4 & H5).
    split; [exact H1|]. split; [exact H4|]. split; [exact H5|]. now exists r.
Qed.

Lemma spec_row_filtering_witness :
  spec_row {[ "Case" := "Steel" ]} (mkRow (Some (nbsp ++ "Basic Info ")) (Some "x"))
  = {[ "Case" := "Steel" ]}
  /\ spec_row {[ "Case" := "Steel" ]} (mkRow (Some "Description") (Some " DESCRIPTION "))
     = {[ "Case" := "Steel" ]}
  /\ spec_row {[ "Case" := "Steel" ]} (mkRow (Some "Description") (Some "A fine chronometer"))
     = <[ "Description" := "A fine chronometer" ]> {[ "Case" := "Steel" ]}
  /\ spec_row {[ "Case" := "Steel" ]} (mkRow (Some (" " ++ nbsp)) (Some "x"))
     = {[ "Case" := "Steel" ]}
  /\ spec_row {[ "Case" := "Steel" ]} (mkRow (Some "Case") (Some "Gold"))
     = <[ "Case" := "Gold" ]> {[ "Case" := "Steel" ]}
  /\ spec_rows [mkRow (Some "Case") (Some "Steel"); mkRow (Some "Case") (Some "Gold");
                mkRow (Some "Dial") (Some "Black")] ∅ !! "Case" = Some "Gold"
  /\ extract_specs specs_page
     = {[ "Description" := "A fine chronometer"; "Case material" := "Gold" ]}
  /\ Py.lower "Case material" <> "basic info".
Proof.
  split; [|split; [|split; [|split; [|split; [|split; [|split]]]]]].
  - exact (proj1 (spec_row_filtering {[ "Case" := "Steel" ]} (nbsp ++ "Basic Info ") "x"
                    specs_page) eq_refl).
  - exact (proj1 (proj2 (spec_row_filtering {[ "Case" := "Steel" ]}
                           "Description" " DESCRIPTION " specs_page)) eq_refl eq_refl).
  - refine (proj1 (proj2 (proj2 (spec_row_filtering {[ "Case" := "Steel" ]}
                                   "Description" "A fine chronometer" specs_page)))
              eq_refl _).
    discriminate.
  - exact (proj1 (proj2 (proj2 (proj2 (spec_row_filtering {[ "Case" := "Steel" ]}
                                         (" " ++ nbsp) "x" specs_page)))) eq_refl).
  - refine (proj1 (proj2 (proj2 (proj2 (proj2 (spec_row_filtering {[ "Case" := "Steel" ]}
                                                 "Case" "Gold" specs_page))))) _ _ _);
      discriminate.
  - refine (proj1 (proj2 (proj2 (proj2 (proj2 (proj2
              (spec_row_filtering ∅ "" "" specs_page))))))
              [mkRow (Some "Case") (Some "Steel")]
              [mkRow (Some "Dial") (Some "Black")]
              (mkRow (Some "Case") (Some "Gold")) "Case" "Gold" eq_refl _).
    intros r Hr. apply list_elem_of_singleton in Hr. subst r. reflexivity.
  - pose proof (spec_row_filtering ∅ "" "" specs_page) as H. cbv zeta in H.
    destruct H as (_ & _ & _ & _ & _ & _ & _ & H8 & _).
    rewrite H8. vm_compute. reflexivity.
  - pose proof (spec_row_filtering ∅ "" "" specs_page) as H. cbv zeta in H.
    destruct H as (_ & _ & _ & _ & _ & _ & _ & _ & H9).
    exact (proj1 (proj2 (H9 "Case material" "Gold" eq_refl))).
Defined.


(** C6 -- Progress Store load: a progress file that is not text is
    fatal.  [load_progress] returns the default cursor for an absent
    file and, with an error logged, for a file [json.load] rejects; on
    the disks of this model, whose files are text, [load_progress_file]
    returns what [load_progress] does.  But its handler names
    [json.JSONDecodeError] only: for a file whose bytes do not decode
    (and for one that cannot be opened) the exception leaves
    [load_progress], outside the [try] of [process_brand], and the run
    of the brand ends before its first page. *)
Theorem load_progress_undecodable_raises :
  load_progress_file "Rolex" (Some Undecodable) = Raise
  /\ load_progress_file "Rolex" (Some Unopenable) = Raise
  /\ (forall brand_name, load_progress_file brand_name None = Ret (default_progress, []))
  /\ (forall brand_name,
        load_progress_file brand_name (Some (Text Malformed))
        = Ret (default_progress,
               [LogError ("Error reading progress file for " ++ brand_name)]))
  /\ (forall brand_name d,
        load_progress_file brand_name
          (Text <$> progress_files d !! progress_path brand_name)
        = Ret (load_progress brand_name d)).
Proof.
  split; [reflexivity|]. split; [reflexivity|]. split; [reflexivity|].
  split; [reflexivity|].
  intros brand_name d. unfold load_progress.
  destruct (progress_files d !! progress_path brand_name) as [[|p]|]; reflexivity.
Qed.

(** C7 -- Dataset uniqueness, amended.  [save_watches_to_json] only
    appends, for every batch: the records stored before stay in place,
    followed by the records of the batch whose URL was not stored.  On a
    file that holds one record per URL, the file after the call holds
    one record per URL exactly when those new records have distinct
    URLs; so it does for a batch that names each URL once, for a batch
    of one record (the call of the item loop) and for a batch of records
    that are all stored (the call of [main] after a brand). *)
Theorem append_keeps_uniqueness (ws : list Watch.t) (f : string) (d : Disk) :
  let d' := fst (save_watches_to_json ws f d) in
  let new_watches := List.filter (is_new (stored_watches f d)) ws in
  stored_watches f d' = (stored_watches f d ++ new_watches)%list
  /\ (NoDup (stored_urls f d) ->
      (NoDup (stored_urls f d') <-> NoDup (Watch.url <$> new_watches))
      /\ (NoDup (Watch.url <$> ws) -> NoDup (stored_urls f d'))
      /\ ((exists w, ws = [w]) -> NoDup (stored_urls f d'))
      /\ ((forall w, w ∈ ws -> Watch.url w ∈ stored_urls f d) ->
          d' = d /\ NoDup (stored_urls f d'))).
Proof.
  intros d' new_watches. split; [apply save_watches_to_json_stored|].
  intros Hd. split; [|split; [|split]].
  - split; [apply save_watches_to_json_unique_back|].
    now apply save_watches_to_json_unique_new.
  - intros Hws. apply save_watches_to_json_unique_new; [exact Hd|].
    now apply filter_new_sub.
  - intros [w ->]. apply save_watches_to_json_unique_new; [exact Hd|].
    apply filter_new_sub. apply NoDup_singleton.
  - intros Hall. assert (E : d' = d) by now apply save_watches_to_json_present.
    split; [exact E|]. now rewrite E.
Qed.

Lemma append_keeps_uniqueness_witness :
  NoDup (stored_urls WATCHES_JSON disk_with_b)
  /\ NoDup (stored_urls WATCHES_JSON
              (fst (save_watches_to_json [sub_a; gmt_b] WATCHES_JSON disk_with_b)))
  /\ NoDup (stored_urls WATCHES_JSON
              (fst (save_watches_to_json [sub_a] WATCHES_JSON disk_with_b)))
  /\ fst (save_watches_to_json [gmt_b] WATCHES_JSON disk_with_b) = disk_with_b.
Proof.
  assert (Hd : NoDup (stored_urls WATCHES_JSON disk_with_b)).
  { vm_compute. apply NoDup_singleton. }
  split; [exact Hd|]. split; [|split].
  - apply (proj1 (proj2 (proj2 (append_keeps_uniqueness [sub_a; gmt_b] WATCHES_JSON
                                  disk_with_b) Hd))).
    vm_compute. apply NoDup_cons. split.
    + intros Hin. apply list_elem_of_singleton in Hin. discriminate Hin.
    + apply NoDup_singleton.
  - apply (proj1 (proj2 (proj2 (proj2 (append_keeps_uniqueness [sub_a] WATCHES_JSON
                                         disk_with_b) Hd)))).
    now exists sub_a.
  - apply (proj2 (proj2 (proj2 (proj2 (append_keeps_uniqueness [gmt_b] WATCHES_JSON
                                         disk_with_b) Hd)))).
    intros w ->%list_elem_of_singleton. vm_compute. left.
Defined.

(** C7, as the specification states it for every incoming batch, fails:
    a batch that names one new URL twice is written with both records,
    after the record the file held. *)
Lemma append_duplicate_batch_counterexample :
  let d := fst (save_watches_to_json [sub_a; sub_a_again] WATCHES_JSON disk_with_b) in
  NoDup (stored_urls WATCHES_JSON disk_with_b)
  /\ stored_watches WATCHES_JSON d = [gmt_b; sub_a; sub_a_again]
  /\ ~ NoDup (stored_urls WATCHES_JSON d).
Proof.
  assert (Hd : stored_watches WATCHES_JSON
                 (fst (save_watches_to_json [sub_a; sub_a_again] WATCHES_JSON disk_with_b))
               = [gmt_b; sub_a; sub_a_again]) by (vm_compute; reflexivity).
  cbv zeta. split; [|split; [exact Hd|]].
  - vm_compute. apply NoDup_singleton.
  - unfold stored_urls. rewrite Hd. cbn. intros Hn.
    apply NoDup_cons in Hn as [_ Hn]. apply NoDup_cons in Hn as [Hn _].
    apply Hn. left.
Qed.
